(** * LinkedFocus content script: an executable model and its properties

    The content script (content.js) is a single-threaded event-driven
    program.  It is modelled here as a state machine over an explicit
    [World]: the host runtime (the [chrome] object, the persisted store, the
    host's timer table and its queue of storage completions), the page (the
    parts of the DOM the script reads and writes) and the script's own
    globals.  JavaScript closures handed to timers, to the store and to the
    DOM are defunctionalised: every callback of the source is a constructor
    of [Thunk], [GetCb] or [TimerBody], and is run by an interpreter that
    follows the source line by line.  Exceptions are explicit: a computation
    either finishes ([Done]) or throws ([Thrown]). *)

From stdpp Require Import gmap strings list.
From Stdlib Require Import ZArith.

Local Open Scope Z_scope.
Local Open Scope string_scope.
Local Open Scope list_scope.

(** ** Host runtime *)

(** The four capabilities probed by [isChromeAPIAvailable]. *)
Record Chrome := mkChrome {
  has_chrome : bool;    (* typeof chrome !== 'undefined' *)
  has_storage : bool;   (* typeof chrome.storage !== 'undefined' *)
  has_local : bool;     (* typeof chrome.storage.local !== 'undefined' *)
  has_runtime : bool    (* typeof chrome.runtime !== 'undefined' *)
}.

(** How the next call into the store misbehaves, if at all. *)
Inductive Fault :=
| NoFault                          (* completes normally *)
| ThrowSync (msg : string)         (* the call itself throws *)
| LastError (msg : option string). (* completes with chrome.runtime.lastError
                                      set; its message can be undefined *)

Inductive JsError :=
| ReferenceError (what : string)
| TypeError (what : string)
| HostError (msg : string).

(** ** Callbacks of the source, defunctionalised *)

(** Callbacks handed to [safeGet]. *)
Inductive GetCb :=
| InitPrefs                     (* initFeedBlocker, line 235 *)
| GetStateReply (chan : nat)    (* message handler, line 256; closes over sendResponse *)
| ReplacementVisibility         (* createReplacement, line 608 *)
| ReconcilePass                 (* mutation observer, line 674 *)
| EnsureFeedVisible.            (* click handler line 813, periodic check line 851 *)

(** Zero-argument callbacks handed to timers and to DOM events. *)
Inductive Thunk :=
| ApplyChanges (isEnabled : bool)  (* updateBlockerState, line 286 *)
| GiveUpReplacement                (* createReplacementContent, line 638 *)
| ThrottledReconcile (obs : nat)   (* setupMutationObserver, line 670 *)
| ClickRecheck                     (* clickHandler, line 812 *)
| DelayedInit                      (* safeInit, line 907 *)
| CreateReplacement                (* createReplacementContent, line 558 *)
| VisibilityCheck                  (* setupMutationObserver, line 843 *)
| Watchdog                         (* handleExtensionInvalidation, line 886 *)
| StartObserving (obs : nat)       (* setupMutationObserver, line 783 *)
| SafeInit.                        (* line 896 *)

(** What the host timer table holds: the function given to the primitive
    [setTimeout]/[setInterval]. *)
Inductive TimerBody :=
| RetryGet (keys : list string) (cb : GetCb) (retries : Z)  (* safeGet, line 26 *)
| TrackedTimeout (cb : Thunk)                               (* safeSetTimeout, line 70 *)
| TrackedInterval (cb : Thunk).                             (* safeSetInterval, line 97 *)

Record Timer := mkTimer {
  t_id : nat;
  t_due : Z;                 (* milliseconds *)
  t_period : option Z;       (* [Some p] for setInterval *)
  t_body : TimerBody
}.

(** A store call that the host has accepted and will complete later. *)
Inductive IoTask :=
| GetDone (keys : list string) (cb : GetCb) (retries : Z) (err : option (option string))
| SetDone (data : gmap string bool) (cb : option Thunk) (err : option (option string)).

Record Host := mkHost {
  chrome : Chrome;
  get_faults : list Fault;   (* consumed by successive storage.local.get calls *)
  set_faults : list Fault;   (* consumed by successive storage.local.set calls *)
  cancel_faults : list nat;  (* timer ids whose clearTimeout/clearInterval throws *)
  store : gmap string bool;
  pending_io : list IoTask;
  clock : Z;
  next_timer : nat;
  host_timers : list Timer
}.

(** ** Page *)

Record Element := mkElement {
  sel_feed : bool;       (* matches one of the first five feed selectors *)
  sel_main_feed : bool;  (* matches div[role="main"] div[data-test-id="main-feed"] *)
  sel_news : bool;       (* matches the news selector list *)
  display : string;
  visibility : string;
  opacity : string;
  attrs : gmap string string
}.

Inductive ReadyState := Loading | Interactive | Complete.

Record Observer := mkObserver {
  connected : bool;
  disconnect_throws : bool;     (* a handle whose disconnect() throws *)
  obs_timeout : option nat      (* observer.timeout; None is undefined/null *)
}.

Record Document := mkDocument {
  body : bool;                        (* document.body is non-null *)
  readyState : ReadyState;
  classList : list string;            (* document.body.classList *)
  replacement : option Element;       (* #feed-replacement *)
  elems : list Element
}.

(** ** Script globals and observation log *)

Inductive Response :=
| Success                                   (* { success: true } *)
| State (enabled newsEnabled : bool).       (* { enabled, newsEnabled } *)

(** Ghost record of callback invocations made by the defensive call layer. *)
Inductive Call :=
| CallGet (cb : GetCb) (result : gmap string bool)
| CallSet (cb : Thunk).

Record Script := mkScript {
  observers : list nat;
  intervals : list nat;
  timeouts : list nat;
  initialized : bool;
  checkIntervalId : option nat;       (* the variable closed over in createReplacementContent *)
  observer_objs : gmap nat Observer;  (* MutationObserver objects by handle *)
  next_observer : nat;
  onMessage : bool;                   (* chrome.runtime.onMessage listener registered *)
  dcl_once : list Thunk;              (* DOMContentLoaded listeners, once *)
  click_listener : bool;              (* clickHandler registered on document *)
  error_listener : bool;              (* document 'error' listener registered *)
  load_once : bool;                   (* window 'load' listener still armed *)
  unload_listener : bool              (* window 'beforeunload' listener *)
}.

Record Ghost := mkGhost {
  calls : list Call;
  responses : list (nat * Response);  (* sendResponse invocations by channel *)
  uncaught : list JsError             (* exceptions that reached the event loop *)
}.

Record World := mkWorld {
  host : Host;
  doc : Document;
  script : Script;
  ghost : Ghost
}.

(** Field updates. *)
Definition on_host (f : Host -> Host) (w : World) : World :=
  mkWorld (f (host w)) (doc w) (script w) (ghost w).
Definition on_doc (f : Document -> Document) (w : World) : World :=
  mkWorld (host w) (f (doc w)) (script w) (ghost w).
Definition on_script (f : Script -> Script) (w : World) : World :=
  mkWorld (host w) (doc w) (f (script w)) (ghost w).
Definition on_ghost (f : Ghost -> Ghost) (w : World) : World :=
  mkWorld (host w) (doc w) (script w) (f (ghost w)).

Definition set_chrome (c : Chrome) (h : Host) : Host :=
  mkHost c (get_faults h) (set_faults h) (cancel_faults h) (store h) (pending_io h)
         (clock h) (next_timer h) (host_timers h).
Definition set_get_faults (l : list Fault) (h : Host) : Host :=
  mkHost (chrome h) l (set_faults h) (cancel_faults h) (store h) (pending_io h)
         (clock h) (next_timer h) (host_timers h).
Definition set_set_faults (l : list Fault) (h : Host) : Host :=
  mkHost (chrome h) (get_faults h) l (cancel_faults h) (store h) (pending_io h)
         (clock h) (next_timer h) (host_timers h).
Definition set_store (s : gmap string bool) (h : Host) : Host :=
  mkHost (chrome h) (get_faults h) (set_faults h) (cancel_faults h) s (pending_io h)
         (clock h) (next_timer h) (host_timers h).
Definition set_pending_io (l : list IoTask) (h : Host) : Host :=
  mkHost (chrome h) (get_faults h) (set_faults h) (cancel_faults h) (store h) l
         (clock h) (next_timer h) (host_timers h).
Definition set_clock (t : Z) (h : Host) : Host :=
  mkHost (chrome h) (get_faults h) (set_faults h) (cancel_faults h) (store h) (pending_io h)
         t (next_timer h) (host_timers h).
Definition set_next_timer (n : nat) (h : Host) : Host :=
  mkHost (chrome h) (get_faults h) (set_faults h) (cancel_faults h) (store h) (pending_io h)
         (clock h) n (host_timers h).
Definition set_host_timers (l : list Timer) (h : Host) : Host :=
  mkHost (chrome h) (get_faults h) (set_faults h) (cancel_faults h) (store h) (pending_io h)
         (clock h) (next_timer h) l.

Definition set_body (x : bool) (d : Document) : Document :=
  mkDocument x (readyState d) (classList d) (replacement d) (elems d).
Definition set_readyState (x : ReadyState) (d : Document) : Document :=
  mkDocument (body d) x (classList d) (replacement d) (elems d).
Definition set_classList (x : list string) (d : Document) : Document :=
  mkDocument (body d) (readyState d) x (replacement d) (elems d).
Definition set_replacement (x : option Element) (d : Document) : Document :=
  mkDocument (body d) (readyState d) (classList d) x (elems d).
Definition set_elems (x : list Element) (d : Document) : Document :=
  mkDocument (body d) (readyState d) (classList d) (replacement d) x.

Definition set_observers (x : list nat) (s : Script) : Script :=
  mkScript x (intervals s) (timeouts s) (initialized s) (checkIntervalId s) (observer_objs s) (next_observer s) (onMessage s) (dcl_once s) (click_listener s) (error_listener s) (load_once s) (unload_listener s).
Definition set_intervals (x : list nat) (s : Script) : Script :=
  mkScript (observers s) x (timeouts s) (initialized s) (checkIntervalId s) (observer_objs s) (next_observer s) (onMessage s) (dcl_once s) (click_listener s) (error_listener s) (load_once s) (unload_listener s).
Definition set_timeouts (x : list nat) (s : Script) : Script :=
  mkScript (observers s) (intervals s) x (initialized s) (checkIntervalId s) (observer_objs s) (next_observer s) (onMessage s) (dcl_once s) (click_listener s) (error_listener s) (load_once s) (unload_listener s).
Definition set_initialized (x : bool) (s : Script) : Script :=
  mkScript (observers s) (intervals s) (timeouts s) x (checkIntervalId s) (observer_objs s) (next_observer s) (onMessage s) (dcl_once s) (click_listener s) (error_listener s) (load_once s) (unload_listener s).
Definition set_checkIntervalId (x : option nat) (s : Script) : Script :=
  mkScript (observers s) (intervals s) (timeouts s) (initialized s) x (observer_objs s) (next_observer s) (onMessage s) (dcl_once s) (click_listener s) (error_listener s) (load_once s) (unload_listener s).
Definition set_observer_objs (x : gmap nat Observer) (s : Script) : Script :=
  mkScript (observers s) (intervals s) (timeouts s) (initialized s) (checkIntervalId s) x (next_observer s) (onMessage s) (dcl_once s) (click_listener s) (error_listener s) (load_once s) (unload_listener s).
Definition set_next_observer (x : nat) (s : Script) : Script :=
  mkScript (observers s) (intervals s) (timeouts s) (initialized s) (checkIntervalId s) (observer_objs s) x (onMessage s) (dcl_once s) (click_listener s) (error_listener s) (load_once s) (unload_listener s).
Definition set_onMessage (x : bool) (s : Script) : Script :=
  mkScript (observers s) (intervals s) (timeouts s) (initialized s) (checkIntervalId s) (observer_objs s) (next_observer s) x (dcl_once s) (click_listener s) (error_listener s) (load_once s) (unload_listener s).
Definition set_dcl_once (x : list Thunk) (s : Script) : Script :=
  mkScript (observers s) (intervals s) (timeouts s) (initialized s) (checkIntervalId s) (observer_objs s) (next_observer s) (onMessage s) x (click_listener s) (error_listener s) (load_once s) (unload_listener s).
Definition set_click_listener (x : bool) (s : Script) : Script :=
  mkScript (observers s) (intervals s) (timeouts s) (initialized s) (checkIntervalId s) (observer_objs s) (next_observer s) (onMessage s) (dcl_once s) x (error_listener s) (load_once s) (unload_listener s).
Definition set_error_listener (x : bool) (s : Script) : Script :=
  mkScript (observers s) (intervals s) (timeouts s) (initialized s) (checkIntervalId s) (observer_objs s) (next_observer s) (onMessage s) (dcl_once s) (click_listener s) x (load_once s) (unload_listener s).
Definition set_load_once (x : bool) (s : Script) : Script :=
  mkScript (observers s) (intervals s) (timeouts s) (initialized s) (checkIntervalId s) (observer_objs s) (next_observer s) (onMessage s) (dcl_once s) (click_listener s) (error_listener s) x (unload_listener s).
Definition set_unload_listener (x : bool) (s : Script) : Script :=
  mkScript (observers s) (intervals s) (timeouts s) (initialized s) (checkIntervalId s) (observer_objs s) (next_observer s) (onMessage s) (dcl_once s) (click_listener s) (error_listener s) (load_once s) x.

Definition log_call (c : Call) (g : Ghost) : Ghost :=
  mkGhost (calls g ++ [c]) (responses g) (uncaught g).
Definition log_response (r : nat * Response) (g : Ghost) : Ghost :=
  mkGhost (calls g) (responses g ++ [r]) (uncaught g).
Definition log_uncaught (e : JsError) (g : Ghost) : Ghost :=
  mkGhost (calls g) (responses g) (uncaught g ++ [e]).

(** ** Computations that can throw *)

Inductive Outcome (A : Type) :=
| Done (a : A) (w : World)
| Thrown (e : JsError) (w : World).
Arguments Done {A} a w.
Arguments Thrown {A} e w.

Definition M (A : Type) : Type := World -> Outcome A.

Definition ret {A} (a : A) : M A := fun w => Done a w.
Definition throw {A} (e : JsError) : M A := fun w => Thrown e w.
Definition bind {A B} (m : M A) (k : A -> M B) : M B :=
  fun w => match m w with
           | Done a w' => k a w'
           | Thrown e w' => Thrown e w'
           end.
(** [try { m } catch (e) { h e }] *)
Definition try_catch {A} (m : M A) (h : JsError -> M A) : M A :=
  fun w => match m w with
           | Done a w' => Done a w'
           | Thrown e w' => h e w'
           end.
Definition gets {A} (f : World -> A) : M A := fun w => Done (f w) w.
Definition modify (f : World -> World) : M unit := fun w => Done tt (f w).
Definition when (b : bool) (m : M unit) : M unit := if b then m else ret tt.

Notation "'do' x <- m ; k" := (bind m (fun x => k))
  (at level 10, x name, m at level 100, k at level 200).
Notation "'run' m ; k" := (bind m (fun _ => k))
  (at level 10, m at level 100, k at level 200).

(** The world a computation leaves behind, thrown or not. *)
Definition world_of {A} (o : Outcome A) : World :=
  match o with Done _ w => w | Thrown _ w => w end.
Definition threw {A} (o : Outcome A) : option JsError :=
  match o with Done _ _ => None | Thrown e _ => Some e end.
Definition value_of {A} (o : Outcome A) : option A :=
  match o with Done a _ => Some a | Thrown _ _ => None end.

(** ** Host primitives *)

(** Line 8: the availability guard.  The conjunction short-circuits, so no
    property of an undefined object is read and the [catch] is never taken. *)
Definition available (c : Chrome) : bool :=
  has_chrome c && has_storage c && has_local c && has_runtime c.

Definition isChromeAPIAvailable : M bool :=
  gets (fun w => available (chrome (host w))).

(** Evaluating the member expression [chrome.storage.local.<method>]. *)
Definition resolve_storage_local : M unit :=
  do c <- gets (fun w => chrome (host w));
  if negb (has_chrome c) then throw (ReferenceError "chrome is not defined")
  else if negb (has_storage c) then throw (TypeError "reading 'local' of undefined")
  else if negb (has_local c) then throw (TypeError "reading a method of undefined")
  else ret tt.

(** Evaluating [chrome.runtime.lastError] inside a completion callback. *)
Definition read_lastError (err : option (option string)) : M (option (option string)) :=
  do c <- gets (fun w => chrome (host w));
  if negb (has_chrome c) then throw (ReferenceError "chrome is not defined")
  else if negb (has_runtime c) then throw (TypeError "reading 'lastError' of undefined")
  else ret err.

Definition next_fault (l : list Fault) : Fault * list Fault :=
  match l with
  | [] => (NoFault, [])
  | f :: r => (f, r)
  end.

Definition enqueue_io (t : IoTask) : M unit :=
  modify (on_host (fun h => set_pending_io (pending_io h ++ [t]) h)).

(** [chrome.storage.local.get(keys, completion)]: throws, or accepts the
    call and completes it later. *)
Definition storage_local_get (keys : list string) (cb : GetCb) (retries : Z) : M unit :=
  run resolve_storage_local;
  do fs <- gets (fun w => get_faults (host w));
  let '(f, rest) := next_fault fs in
  run modify (on_host (set_get_faults rest));
  match f with
  | ThrowSync msg => throw (HostError msg)
  | NoFault => enqueue_io (GetDone keys cb retries None)
  | LastError m => enqueue_io (GetDone keys cb retries (Some m))
  end.

(** [chrome.storage.local.set(data, completion)]. *)
Definition storage_local_set (data : gmap string bool) (cb : option Thunk) : M unit :=
  run resolve_storage_local;
  do fs <- gets (fun w => set_faults (host w));
  let '(f, rest) := next_fault fs in
  run modify (on_host (set_set_faults rest));
  match f with
  | ThrowSync msg => throw (HostError msg)
  | NoFault => enqueue_io (SetDone data cb None)
  | LastError m => enqueue_io (SetDone data cb (Some m))
  end.

(** The primitive [setTimeout]: a fresh id, due [delay] ms from now. *)
Definition setTimeout (body : TimerBody) (delay : Z) : M nat :=
  fun w =>
    let h := host w in
    let id := next_timer h in
    Done id (on_host (fun h =>
      set_next_timer (S id)
        (set_host_timers (host_timers h ++ [mkTimer id (clock h + delay) None body]) h)) w).

(** The primitive [setInterval]. *)
Definition setInterval (body : TimerBody) (delay : Z) : M nat :=
  fun w =>
    let h := host w in
    let id := next_timer h in
    Done id (on_host (fun h =>
      set_next_timer (S id)
        (set_host_timers (host_timers h ++ [mkTimer id (clock h + delay) (Some delay) body]) h)) w).

Definition drop_timer (id : nat) (l : list Timer) : list Timer :=
  filter (fun t => t_id t ≠ id) l.

(** The primitives [clearTimeout] and [clearInterval] share one id space. *)
Definition clearTimer (id : nat) : M unit :=
  do bad <- gets (fun w => cancel_faults (host w));
  if decide (id ∈ bad) then throw (HostError "cancel failed")
  else modify (on_host (fun h => set_host_timers (drop_timer id (host_timers h)) h)).

Definition clearTimeout := clearTimer.
Definition clearInterval := clearTimer.

(** [observer.disconnect()] on the object behind a handle. *)
Definition disconnect (obs : nat) : M unit :=
  do objs <- gets (fun w => observer_objs (script w));
  match objs !! obs with
  | None => throw (TypeError "disconnect is not a function")
  | Some o =>
      if disconnect_throws o then throw (HostError "disconnect failed")
      else modify (on_script (set_observer_objs
             (<[obs := mkObserver false (disconnect_throws o) (obs_timeout o)]> objs)))
  end.

(** [arr.indexOf(x)] followed by [arr.splice(index, 1)] when found. *)
Fixpoint remove_first (x : nat) (l : list nat) : list nat :=
  match l with
  | [] => []
  | y :: r => if decide (x = y) then r else y :: remove_first x r
  end.

Fixpoint forEach {A} (l : list A) (f : A -> M unit) : M unit :=
  match l with
  | [] => ret tt
  | x :: r => run f x; forEach r f
  end.

(** ** Resource tracker *)

(** Line 68.  The function handed to the primitive is [TrackedTimeout callback];
    what it does when it fires is [fire_tracked_timeout] below. *)
Definition safeSetTimeout (callback : Thunk) (delay : Z) : M (option nat) :=
  try_catch
    (do timeoutId <- setTimeout (TrackedTimeout callback) delay;
     run modify (on_script (fun s => set_timeouts (timeouts s ++ [timeoutId]) s));
     ret (Some timeoutId))
    (fun _ => ret None).

(** Line 123. *)
Definition clearSafeInterval (intervalId : nat) : M unit :=
  try_catch
    (run clearInterval intervalId;
     modify (on_script (fun s => set_intervals (remove_first intervalId (intervals s)) s)))
    (fun _ => ret tt).

(** Line 136. *)
Definition clearSafeTimeout (timeoutId : nat) : M unit :=
  try_catch
    (run clearTimeout timeoutId;
     modify (on_script (fun s => set_timeouts (remove_first timeoutId (timeouts s)) s)))
    (fun _ => ret tt).

(** Line 95. *)
Definition safeSetInterval (callback : Thunk) (delay : Z) : M (option nat) :=
  try_catch
    (do intervalId <- setInterval (TrackedInterval callback) delay;
     run modify (on_script (fun s => set_intervals (intervals s ++ [intervalId]) s));
     ret (Some intervalId))
    (fun _ => ret None).

(** Line 149. *)
Definition cleanupResources : M unit :=
  try_catch
    (do ivs <- gets (fun w => intervals (script w));
     run forEach ivs (fun id => try_catch (clearInterval id) (fun _ => ret tt));
     run modify (on_script (set_intervals []));
     do tos <- gets (fun w => timeouts (script w));
     run forEach tos (fun id => try_catch (clearTimeout id) (fun _ => ret tt));
     run modify (on_script (set_timeouts []));
     do obss <- gets (fun w => observers (script w));
     run forEach obss (fun obs => try_catch (disconnect obs) (fun _ => ret tt));
     modify (on_script (set_observers [])))
    (fun _ => ret tt).

(** ** Defensive write *)

(** Line 44. *)
Definition safeSet (data : gmap string bool) (callback : option Thunk) : M bool :=
  try_catch
    (do ok <- isChromeAPIAvailable;
     if negb ok then ret false
     else
       run storage_local_set data callback;
       ret true)
    (fun _ => ret false).

(** ** Visibility policy on the DOM *)

(** The [actions] object of [safeManipulateElement]; a field left out of the
    object literal is [None].  No caller passes addClass or removeClass. *)
Record Actions := mkActions {
  a_display : option string;
  a_visibility : option string;
  a_opacity : option string;
  a_setAttribute : option (string * string);
  a_removeAttribute : option string
}.

Definition with_display (v : string) (e : Element) : Element :=
  mkElement (sel_feed e) (sel_main_feed e) (sel_news e) v (visibility e) (opacity e) (attrs e).
Definition with_visibility (v : string) (e : Element) : Element :=
  mkElement (sel_feed e) (sel_main_feed e) (sel_news e) (display e) v (opacity e) (attrs e).
Definition with_opacity (v : string) (e : Element) : Element :=
  mkElement (sel_feed e) (sel_main_feed e) (sel_news e) (display e) (visibility e) v (attrs e).
Definition with_attrs (m : gmap string string) (e : Element) : Element :=
  mkElement (sel_feed e) (sel_main_feed e) (sel_news e) (display e) (visibility e) (opacity e) m.

Definition opt_apply {A B} (o : option A) (f : A -> B -> B) (b : B) : B :=
  match o with Some a => f a b | None => b end.

(** Line 182.  Every caller passes a non-null element and ignores the
    boolean result; the style and attribute writes of the model cannot throw. *)
Definition safeManipulateElement (actions : Actions) (element : Element) : Element :=
  let e1 := opt_apply (a_display actions) with_display element in
  let e2 := opt_apply (a_visibility actions) with_visibility e1 in
  let e3 := opt_apply (a_opacity actions) with_opacity e2 in
  let e4 := opt_apply (a_setAttribute actions)
              (fun nv e => with_attrs (<[nv.1 := nv.2]> (attrs e)) e) e3 in
  opt_apply (a_removeAttribute actions) (fun n e => with_attrs (delete n (attrs e)) e) e4.

Definition marker : string := "data-hidden-by-focus-mode".

Definition hasAttribute (n : string) (e : Element) : bool :=
  bool_decide (is_Some (attrs e !! n)).

(** [document.body.classList.add / remove]. *)
Definition classList_add (c : string) (l : list string) : list string :=
  if decide (c ∈ l) then l else l ++ [c].
Definition classList_remove (c : string) (l : list string) : list string :=
  filter (fun x => x ≠ c) l.

(** The feed selector list of lines 310, 725, 750, 818 and 856; its last
    entry is the selector that [createReplacement] looks up on its own. *)
Definition matches_feed (e : Element) : bool := sel_feed e || sel_main_feed e.

Definition hide_feed : Actions :=
  mkActions (Some "none") None None (Some (marker, "true")) None.
Definition show_feed : Actions :=
  mkActions (Some "") (Some "visible") (Some "1") None (Some marker).
Definition hide_news : Actions :=
  mkActions (Some "none") (Some "hidden") (Some "0") (Some (marker, "true")) None.
Definition set_display (v : string) : Actions :=
  mkActions (Some v) None None None None.

(** [querySelectorAll(sel).forEach(f)], on the elements in place. *)
Definition for_matching (sel : Element -> bool) (f : Element -> Element)
    (d : Document) : Document :=
  set_elems (map (fun e => if sel e then f e else e) (elems d)) d.

(** Lines 286-335: the closure [applyChanges] of [updateBlockerState]. *)
Definition applyChanges (isEnabled : bool) (d : Document) : Document :=
  if negb (body d) then d
  else
    let d1 :=
      if isEnabled
      then set_classList (classList_remove "feed-blocker-disabled"
                            (classList_add "feed-blocker-active" (classList d))) d
      else set_classList (classList_remove "feed-blocker-active"
                            (classList_add "feed-blocker-disabled" (classList d))) d in
    let d2 :=
      match replacement d1 with
      | Some replacementEl =>
          set_replacement
            (Some (safeManipulateElement
                     (set_display (if isEnabled then "flex" else "none")) replacementEl)) d1
      | None => d1
      end in
    for_matching matches_feed
      (fun element =>
         if isEnabled then safeManipulateElement hide_feed element
         else safeManipulateElement show_feed element) d2.

(** Lines 674-770: the body of the reconciliation pass, once the two
    preferences are known.  Each of the three blocks reads
    [document.body.classList] first, so without a body it throws into its
    own [catch] and does nothing. *)
Definition reconcile_news (d : Document) : Document :=
  if negb (body d) then d
  else
    let d1 := set_classList (classList_add "news-blocker-active" (classList d)) d in
    for_matching sel_news
      (fun element =>
         if negb (hasAttribute marker element)
         then safeManipulateElement hide_news element else element) d1.

Definition reconcile_feed (feedEnabled : bool) (d : Document) : Document :=
  if negb (body d) then d
  else if feedEnabled then
    let d1 := set_classList (classList_remove "feed-blocker-disabled"
                               (classList_add "feed-blocker-active" (classList d))) d in
    let d2 := for_matching matches_feed
      (fun element =>
         if negb (hasAttribute marker element)
         then safeManipulateElement hide_feed element else element) d1 in
    match replacement d2 with
    | Some replacementEl =>
        set_replacement (Some (safeManipulateElement (set_display "flex") replacementEl)) d2
    | None => d2
    end
  else
    let d1 := set_classList (classList_remove "feed-blocker-active"
                               (classList_add "feed-blocker-disabled" (classList d))) d in
    let d2 := for_matching matches_feed
      (fun element =>
         if hasAttribute marker element
         then safeManipulateElement show_feed element else element) d1 in
    match replacement d2 with
    | Some replacementEl =>
        set_replacement (Some (safeManipulateElement (set_display "none") replacementEl)) d2
    | None => d2
    end.

Definition reconcile (feedEnabled newsEnabled : bool) (d : Document) : Document :=
  reconcile_feed feedEnabled (if newsEnabled then reconcile_news d else d).

(** Lines 817-829 and 855-867: force hidden feed elements back to visible. *)
Definition ensure_feed_visible (d : Document) : Document :=
  for_matching matches_feed
    (fun element =>
       if bool_decide (display element = "none") || hasAttribute marker element
       then safeManipulateElement show_feed element else element) d.

(** [result.key === undefined ? true : result.key] *)
Definition pref (key : string) (result : gmap string bool) : bool :=
  default true (result !! key).

(** The result object of a get-by-key-list: the requested keys that exist. *)
Definition get_result (keys : list string) (st : gmap string bool) : gmap string bool :=
  filter (fun kv => kv.1 ∈ keys) st.

(** [hay.includes(needle)] *)
Fixpoint includes (needle hay : string) : bool :=
  String.prefix needle hay ||
  match hay with
  | EmptyString => false
  | String _ rest => includes needle rest
  end.

Definition transient : string := "Extension context invalidated".

(** ** Feed policy update *)

Definition add_dcl_once (t : Thunk) : M unit :=
  modify (on_script (fun s => set_dcl_once (dcl_once s ++ [t]) s)).

(** Line 279. *)
Definition updateBlockerState (isEnabled : bool) : M unit :=
  do ok <- isChromeAPIAvailable;
  if negb ok then ret tt
  else
    run safeSet {[ "feedBlockerEnabled" := isEnabled ]} None;
    do hasBody <- gets (fun w => body (doc w));
    run when hasBody (modify (on_doc (applyChanges isEnabled)));
    run safeSetTimeout (ApplyChanges isEnabled) 100;
    do rs <- gets (fun w => readyState (doc w));
    match rs with
    | Complete => ret tt
    | _ => add_dcl_once (ApplyChanges isEnabled)
    end.

(** Lines 454-542 lie inside a block comment, and nothing else declares
    [updateNewsBlockerState]: at run time the identifier is unbound, so
    evaluating a call to it throws before anything else happens. *)
Definition updateNewsBlockerState (isEnabled : bool) : M unit :=
  throw (ReferenceError "updateNewsBlockerState is not defined").

(** ** Callbacks of the defensive read *)

Definition sendResponse (chan : nat) (r : Response) : M unit :=
  modify (on_ghost (log_response (chan, r))).

Definition run_getcb (cb : GetCb) (result : gmap string bool) : M unit :=
  match cb with
  | InitPrefs =>                                  (* lines 235-241 *)
      let feedEnabled := pref "feedBlockerEnabled" result in
      let newsEnabled := pref "newsBlockerEnabled" result in
      run updateBlockerState feedEnabled;
      updateNewsBlockerState newsEnabled
  | GetStateReply chan =>                         (* lines 256-263 *)
      let feedEnabled := pref "feedBlockerEnabled" result in
      let newsEnabled := pref "newsBlockerEnabled" result in
      sendResponse chan (State feedEnabled newsEnabled)
  | ReplacementVisibility =>                      (* lines 608-613 *)
      let isEnabled := pref "feedBlockerEnabled" result in
      modify (on_doc (fun d =>
        match replacement d with
        | Some replacementEl =>
            set_replacement
              (Some (with_display (if isEnabled then "flex" else "none") replacementEl)) d
        | None => d
        end))
  | ReconcilePass =>                              (* lines 674-771 *)
      let feedEnabled := pref "feedBlockerEnabled" result in
      let newsEnabled := pref "newsBlockerEnabled" result in
      modify (on_doc (reconcile feedEnabled newsEnabled))
  | EnsureFeedVisible =>                          (* lines 813-830, 851-868 *)
      let feedEnabled := pref "feedBlockerEnabled" result in
      when (negb feedEnabled) (modify (on_doc ensure_feed_visible))
  end.

(** [callback(result)] as the defensive layer performs it, recorded. *)
Definition invoke (cb : GetCb) (result : gmap string bool) : M unit :=
  run modify (on_ghost (log_call (CallGet cb result)));
  run_getcb cb result.

(** ** Defensive read *)

(** Line 20.  The completion handed to the store is [GetDone]; it runs as
    [complete_get] below. *)
Definition safeGet (keys : list string) (callback : GetCb) (retries : Z) : M unit :=
  try_catch
    (storage_local_get keys callback retries)
    (fun _ => invoke callback ∅).

(** Lines 22-36: the completion of a read. *)
Definition complete_get (keys : list string) (callback : GetCb) (retries : Z)
    (err : option (option string)) : M unit :=
  do lastError <- read_lastError err;
  match lastError with
  | Some message =>
      if (0 <? retries)%Z && from_option (includes transient) false message
      then
        run setTimeout (RetryGet keys callback (retries - 1)) 100;
        ret tt
      else invoke callback ∅
  | None =>
      do st <- gets (fun w => store (host w));
      invoke callback (get_result keys st)
  end.

(** ** Placeholder injection *)

(** JavaScript truthiness of a timer id or null: 0 and null are falsy. *)
Definition is_truthy (o : option nat) : bool :=
  match o with
  | Some (S _) => true
  | _ => false
  end.

Definition set_var_checkIntervalId (o : option nat) : M unit :=
  modify (on_script (set_checkIntervalId o)).

(** The element built at lines 574-595; only its inline display matters. *)
Definition new_replacement : Element := mkElement false false false "" "" "" ∅.

(** Lines 558-628: the closure [createReplacement]. *)
Definition createReplacement : M bool :=
  try_catch
    (do d <- gets doc;
     if negb (existsb sel_main_feed (elems d)) then ret false
     else
       do cid <- gets (fun w => checkIntervalId (script w));
       run (match cid with
            | Some id =>
                when (is_truthy cid)
                  (run clearSafeInterval id; set_var_checkIntervalId None)
            | None => ret tt
            end);
       match replacement d with
       | Some _ => ret true
       | None =>
           run modify (on_doc (set_replacement (Some new_replacement)));
           run try_catch
                 (do ok <- isChromeAPIAvailable;
                  if ok then safeGet ["feedBlockerEnabled"] ReplacementVisibility 1
                  else modify (on_doc (set_replacement
                                 (Some (with_display "flex" new_replacement)))))
                 (fun _ => ret tt);
           ret true
       end)
    (fun _ => ret false).

(** Line 548. *)
Definition createReplacementContent : M unit :=
  run set_var_checkIntervalId None;
  do created <- createReplacement;
  if created then ret tt
  else
    do id <- safeSetInterval CreateReplacement 500;
    run set_var_checkIntervalId id;
    run safeSetTimeout GiveUpReplacement 10000;
    ret tt.

(** ** Mutation observer, click handler, periodic check *)

Definition prefKeys : list string := ["feedBlockerEnabled"; "newsBlockerEnabled"].

Definition new_MutationObserver : M nat :=
  fun w =>
    let s := script w in
    let obs := next_observer s in
    Done obs (on_script (fun s =>
      set_next_observer (S obs)
        (set_observer_objs (<[obs := mkObserver false false None]> (observer_objs s)) s)) w).

Definition set_observer_timeout (obs : nat) (v : option nat) : M unit :=
  modify (on_script (fun s =>
    set_observer_objs
      (alter (fun o => mkObserver (connected o) (disconnect_throws o) v) obs (observer_objs s)) s)).

Definition get_observer_timeout (obs : nat) : M (option nat) :=
  gets (fun w => o ← observer_objs (script w) !! obs; obs_timeout o).

(** Lines 783-794. *)
Definition startObserving (obs : nat) : M unit :=
  do hasBody <- gets (fun w => body (doc w));
  when hasBody
    (modify (on_script (fun s =>
       set_observer_objs
         (alter (fun o => mkObserver true (disconnect_throws o) (obs_timeout o)) obs
                (observer_objs s)) s))).

(** Lines 650-777: the callback given to [new MutationObserver]. *)
Definition observer_callback (observer : nat) : M unit :=
  try_catch
    (do ok <- isChromeAPIAvailable;
     if negb ok then
       run disconnect observer;
       modify (on_script (fun s => set_observers (remove_first observer (observers s)) s))
     else
       do hasBody <- gets (fun w => body (doc w));
       if negb hasBody then ret tt
       else
         do pending <- get_observer_timeout observer;
         if is_truthy pending then ret tt
         else
           do id <- safeSetTimeout (ThrottledReconcile observer) 200;
           set_observer_timeout observer id)
    (fun _ => ret tt).

(** Lines 803-837. *)
Definition clickHandler : M unit :=
  try_catch
    (do ok <- isChromeAPIAvailable;
     if negb ok then modify (on_script (set_click_listener false))
     else
       run safeSetTimeout ClickRecheck 500;
       ret tt)
    (fun _ => modify (on_script (set_click_listener false))).

(** Line 648. *)
Definition setupMutationObserver : M unit :=
  do observer <- new_MutationObserver;
  run modify (on_script (fun s => set_observers (observers s ++ [observer]) s));
  run startObserving observer;
  run add_dcl_once (StartObserving observer);
  run modify (on_script (set_click_listener true));
  run safeSetInterval VisibilityCheck 1000;
  ret tt.

(** ** Session controller *)

Inductive Request :=
| ToggleFeedBlocker (enabled : bool)
| ToggleNewsBlocker (enabled : bool)
| GetState
| OtherAction (action : string).

(** What the message listener returns: [true] keeps the channel open. *)
Inductive HandlerResult := KeepChannelOpen | Undefined.

(** Lines 245-266: the listener given to [chrome.runtime.onMessage]. *)
Definition message_listener (request : Request) (chan : nat) : M HandlerResult :=
  do ok <- isChromeAPIAvailable;
  if negb ok then ret Undefined
  else
    match request with
    | ToggleFeedBlocker enabled =>
        run updateBlockerState enabled;
        run sendResponse chan Success;
        ret Undefined
    | ToggleNewsBlocker enabled =>
        run updateNewsBlockerState enabled;
        run sendResponse chan Success;
        ret Undefined
    | GetState =>
        run safeGet prefKeys (GetStateReply chan) 1;
        ret KeepChannelOpen
    | OtherAction _ => ret Undefined
    end.

(** Line 223. *)
Definition initFeedBlocker : M unit :=
  do already <- gets (fun w => initialized (script w));
  if already then ret tt
  else
    run modify (on_script (set_initialized true));
    do ok <- isChromeAPIAvailable;
    if negb ok then ret tt
    else
      run safeGet prefKeys InitPrefs 1;
      run try_catch
            (do c <- gets (fun w => chrome (host w));
             if has_chrome c && has_runtime c
             then modify (on_script (set_onMessage true))
             else throw (TypeError "reading 'onMessage' of undefined"))
            (fun _ => ret tt);
      run createReplacementContent;
      setupMutationObserver.

(** Line 877. *)
Definition handleExtensionInvalidation : M unit :=
  run modify (on_script (set_error_listener true));
  run safeSetInterval Watchdog 5000;
  ret tt.

(** Line 896. *)
Definition safeInit : M unit :=
  try_catch
    (do ok <- isChromeAPIAvailable;
     if negb ok then ret tt
     else
       run handleExtensionInvalidation;
       run safeSetTimeout DelayedInit 200;
       ret tt)
    (fun _ => ret tt).

(** The bodies of the zero-argument callbacks.  [self] is the id of the
    timer running the callback, which is what the closures of the periodic
    check and of the watchdog hold in [checkIntervalId] and [watchdogId]. *)
Definition run_thunk (self : nat) (t : Thunk) : M unit :=
  match t with
  | ApplyChanges isEnabled => modify (on_doc (applyChanges isEnabled))
  | GiveUpReplacement =>
      do cid <- gets (fun w => checkIntervalId (script w));
      match cid with
      | Some id =>
          when (is_truthy cid) (run clearSafeInterval id; set_var_checkIntervalId None)
      | None => ret tt
      end
  | ThrottledReconcile observer =>
      run set_observer_timeout observer None;
      safeGet prefKeys ReconcilePass 1
  | ClickRecheck => safeGet ["feedBlockerEnabled"] EnsureFeedVisible 1
  | DelayedInit =>
      try_catch
        (do ok <- isChromeAPIAvailable; when ok initFeedBlocker)
        (fun _ => ret tt)
  | CreateReplacement => do _ <- createReplacement; ret tt
  | VisibilityCheck =>
      try_catch
        (do ok <- isChromeAPIAvailable;
         if negb ok then clearSafeInterval self
         else safeGet ["feedBlockerEnabled"] EnsureFeedVisible 1)
        (fun _ => clearSafeInterval self)
  | Watchdog =>
      do ok <- isChromeAPIAvailable;
      when (negb ok) (run cleanupResources; clearSafeInterval self)
  | StartObserving observer => startObserving observer
  | SafeInit => safeInit
  end.

(** What a host timer does when it fires. *)
Definition fire_body (id : nat) (b : TimerBody) : M unit :=
  match b with
  | RetryGet keys callback retries =>          (* line 26 *)
      safeGet keys callback retries
  | TrackedTimeout callback =>                 (* lines 70-83 *)
      try_catch
        (run modify (on_script (fun s => set_timeouts (remove_first id (timeouts s)) s));
         run_thunk id callback)
        (fun _ => ret tt)
  | TrackedInterval callback =>                (* lines 97-111 *)
      try_catch
        (do ok <- isChromeAPIAvailable;
         if negb ok then clearSafeInterval id
         else run_thunk id callback)
        (fun _ => clearSafeInterval id)
  end.

(** Lines 51-59: the completion of a write.  The host has applied the write
    before it calls back, unless it reports an error. *)
Definition complete_set (data : gmap string bool) (callback : option Thunk)
    (err : option (option string)) : M unit :=
  run when (bool_decide (err = None))
        (modify (on_host (fun h => set_store (data ∪ store h) h)));
  do lastError <- read_lastError err;
  match lastError with
  | Some _ => ret tt
  | None =>
      match callback with
      | Some cb =>
          run modify (on_ghost (log_call (CallSet cb)));
          run_thunk 0 cb
      | None => ret tt
      end
  end.

Definition complete_io (t : IoTask) : M unit :=
  match t with
  | GetDone keys cb retries err => complete_get keys cb retries err
  | SetDone data cb err => complete_set data cb err
  end.

(** ** Event loop *)

(** What the environment can do between two tasks of the script. *)
Inductive Event :=
| Advance (dt : Z)                         (* time passes *)
| Fire (id : nat)                          (* a due timer fires *)
| Io (i : nat)                             (* the i-th pending store call completes *)
| Mutation (obs : nat)                     (* a connected observer is notified *)
| Message (request : Request) (chan : nat) (* the preference UI sends a message *)
| Click
| DOMContentLoaded
| Load
| BeforeUnload
| ErrorEvent (message : option string)     (* document 'error' event *)
| HostChange (c : Chrome)                  (* the runtime gains or loses capabilities *)
| PageChange (d : Document).               (* the page rewrites its DOM *)

(** An exception that leaves a task is reported by the event loop. *)
Definition settle {A} (o : Outcome A) : World :=
  match o with
  | Done _ w => w
  | Thrown e w => on_ghost (log_uncaught e) w
  end.

Definition find_timer (id : nat) (l : list Timer) : option Timer :=
  List.find (fun t => bool_decide (t_id t = id)) l.

Definition reschedule (id : nat) (due : Z) (l : list Timer) : list Timer :=
  map (fun t => if bool_decide (t_id t = id)
                then mkTimer (t_id t) due (t_period t) (t_body t) else t) l.

Definition fire (id : nat) (w : World) : World :=
  match find_timer id (host_timers (host w)) with
  | Some t =>
      if (t_due t <=? clock (host w))%Z then
        let w1 :=
          match t_period t with
          | None => on_host (fun h => set_host_timers (drop_timer id (host_timers h)) h) w
          | Some p =>
              on_host (fun h => set_host_timers (reschedule id (clock h + p) (host_timers h)) h) w
          end in
        settle (fire_body id (t_body t) w1)
      else w
  | None => w
  end.

Definition complete (i : nat) (w : World) : World :=
  match pending_io (host w) !! i with
  | Some t =>
      settle (complete_io t (on_host (fun h => set_pending_io (delete i (pending_io h)) h) w))
  | None => w
  end.

(** Lines 878-883. *)
Definition error_listener_body (message : option string) : M unit :=
  when (from_option (includes transient) false message) cleanupResources.

(** Lines 929-933. *)
Definition load_listener_body : M unit :=
  do init <- gets (fun w => initialized (script w));
  do ok <- isChromeAPIAvailable;
  when (negb init && ok) safeInit.

Definition step (e : Event) (w : World) : World :=
  match e with
  | Advance dt => on_host (fun h => set_clock (clock h + Z.max 0 dt) h) w
  | Fire id => fire id w
  | Io i => complete i w
  | Mutation obs =>
      match observer_objs (script w) !! obs with
      | Some o => if connected o then settle (observer_callback obs w) else w
      | None => w
      end
  | Message request chan =>
      if onMessage (script w) then settle (message_listener request chan w) else w
  | Click =>
      if click_listener (script w) then settle (clickHandler w) else w
  | DOMContentLoaded =>
      let ls := dcl_once (script w) in
      let w1 := on_doc (fun d => match readyState d with
                                 | Loading => set_readyState Interactive d
                                 | _ => d
                                 end)
                  (on_script (set_dcl_once []) w) in
      fold_left (fun w l => settle (run_thunk 0 l w)) ls w1
  | Load =>
      let w1 := on_doc (set_readyState Complete) w in
      if load_once (script w1)
      then settle (load_listener_body (on_script (set_load_once false) w1))
      else w1
  | BeforeUnload =>
      if unload_listener (script w) then settle (cleanupResources w) else w
  | ErrorEvent message =>
      if error_listener (script w) then settle (error_listener_body message w) else w
  | HostChange c => on_host (set_chrome c) w
  | PageChange d => on_doc (fun _ => d) w
  end.

Definition run_events (es : list Event) (w : World) : World :=
  fold_left (fun w e => step e w) es w.

(** Lines 921-935: the top level of the script. *)
Definition content_script : M unit :=
  do rs <- gets (fun w => readyState (doc w));
  run (match rs with
       | Loading => add_dcl_once SafeInit
       | _ => safeInit
       end);
  run modify (on_script (set_load_once true));
  modify (on_script (set_unload_listener true)).

(** Lines 2-5. *)
Definition fresh_script : Script :=
  mkScript [] [] [] false None ∅ 0 false [] false false false false.

Definition boot (h : Host) (d : Document) : World :=
  settle (content_script (mkWorld h d fresh_script (mkGhost [] [] []))).

(** ** Concrete worlds used in examples *)

Definition healthy : Chrome := mkChrome true true true true.

Definition host0 (st : gmap string bool) : Host :=
  mkHost healthy [] [] [] st [] 0 1 [].

Definition feed_el : Element := mkElement true false false "" "" "" ∅.
Definition main_feed_el : Element := mkElement false true false "" "" "" ∅.
Definition news_el : Element := mkElement false false true "" "" "" ∅.
Definition other_el : Element := mkElement false false false "" "" "" ∅.

Definition page0 : Document :=
  mkDocument true Complete [] None [feed_el; main_feed_el; news_el; other_el].

(** A page after the script has started, run its delayed initialisation and
    received the answer to its first preference read. *)
Definition started (st : gmap string bool) : World :=
  run_events [Advance 200; Fire 2; Io 0] (boot (host0 st) page0).


(** ** Vocabulary of the statements *)

(** The error a completed store call reports, given how the call was faulted. *)
Definition err_of (f : Fault) : option (option string) :=
  match f with
  | LastError m => Some m
  | _ => None
  end.

(** What the three loops of [cleanupResources] leave behind: a handle is
    cancelled unless cancelling it throws. *)
Definition sweep (bad ids : list nat) (l : list Timer) : list Timer :=
  foldl (fun l id => if decide (id ∈ bad) then l else drop_timer id l) l ids.

Definition disconnect_one (objs : gmap nat Observer) (obs : nat) : gmap nat Observer :=
  match objs !! obs with
  | Some o =>
      if disconnect_throws o then objs
      else <[obs := mkObserver false (disconnect_throws o) (obs_timeout o)]> objs
  | None => objs
  end.

Definition torn_down (w : World) : World :=
  let h := host w in
  let s := script w in
  mkWorld
    (set_host_timers
       (sweep (cancel_faults h) (timeouts s)
          (sweep (cancel_faults h) (intervals s) (host_timers h))) h)
    (doc w)
    (set_observers []
       (set_observer_objs (foldl disconnect_one (observer_objs s) (observers s))
          (set_timeouts [] (set_intervals [] s))))
    (ghost w).

(** Timers created through the tracker's wrappers. *)
Definition tracked (b : TimerBody) : bool :=
  match b with
  | RetryGet _ _ _ => false
  | TrackedTimeout _ => true
  | TrackedInterval _ => true
  end.

(** [m] keeps [I]: from a world in [I] it ends, thrown or not, in [I]. *)
Definition preserves {A} (I : World -> Prop) (m : M A) : Prop :=
  forall w, I w -> I (world_of (m w)).

(** The tracker's bookkeeping invariant: a pending timer made by
    [safeSetTimeout] is one-shot and listed in [timeouts], one made by
    [safeSetInterval] is listed in [intervals], unless it is a handle that
    cannot be cancelled at all. *)
Definition tracked_inv (w : World) : Prop :=
  forall t, t ∈ host_timers (host w) ->
    match t_body t with
    | RetryGet _ _ _ => True
    | TrackedTimeout _ =>
        t_period t = None /\
        (t_id t ∈ timeouts (script w) \/ t_id t ∈ cancel_faults (host w))
    | TrackedInterval _ =>
        t_id t ∈ intervals (script w) \/ t_id t ∈ cancel_faults (host w)
    end.

(** Worlds the page can be in: the script starts on a page where no timer
    and no store call is pending yet (the host hands out positive timer
    ids), and then any events happen. *)
Definition reachable (w : World) : Prop :=
  exists h d es,
    host_timers h = [] /\ pending_io h = [] /\ (0 < next_timer h)%nat /\
    w = run_events es (boot h d).

(** Timer ids are positive, below the next id to hand out, and distinct. *)
Definition timers_wf (w : World) : Prop :=
  (0 < next_timer (host w))%nat /\
  (forall t, t ∈ host_timers (host w) -> (0 < t_id t < next_timer (host w))%nat) /\
  NoDup (t_id <$> host_timers (host w)).

(** An id that was handed out and is no longer pending. *)
Definition retired (id : nat) (w : World) : Prop :=
  (id < next_timer (host w))%nat /\
  forall t, t ∈ host_timers (host w) -> t_id t <> id.

(** [applyChanges] read field by field: what it does to the body classes,
    to the placeholder and to one element. *)
Definition policy_classes (isEnabled : bool) (l : list string) : list string :=
  if isEnabled
  then classList_remove "feed-blocker-disabled" (classList_add "feed-blocker-active" l)
  else classList_remove "feed-blocker-active" (classList_add "feed-blocker-disabled" l).

Definition policy_element (isEnabled : bool) (e : Element) : Element :=
  if matches_feed e
  then (if isEnabled then safeManipulateElement hide_feed e
        else safeManipulateElement show_feed e)
  else e.

Definition policy_placeholder (isEnabled : bool) (e : Element) : Element :=
  safeManipulateElement (set_display (if isEnabled then "flex" else "none")) e.

(** The reconciliation pass on one element: the news block, then the feed
    block. *)
Definition news_element (e : Element) : Element :=
  if sel_news e
  then (if negb (hasAttribute marker e) then safeManipulateElement hide_news e else e)
  else e.

Definition pass_element (feedEnabled : bool) (e : Element) : Element :=
  if matches_feed e
  then (if feedEnabled
        then (if negb (hasAttribute marker e) then safeManipulateElement hide_feed e else e)
        else (if hasAttribute marker e then safeManipulateElement show_feed e else e))
  else e.

(** A DOM on which the feed policy for [isEnabled] has converged. *)
Definition converged_element (isEnabled : bool) (e : Element) : Prop :=
  if isEnabled
  then display e = "none" /\ attrs e !! marker = Some "true"
  else display e = "" /\ visibility e = "visible" /\ opacity e = "1" /\
       attrs e !! marker = None.

Definition converged (isEnabled : bool) (d : Document) : Prop :=
  body d = true ->
  ((if isEnabled then "feed-blocker-active" else "feed-blocker-disabled") ∈ classList d /\
   (if isEnabled then "feed-blocker-disabled" else "feed-blocker-active") ∉ classList d) /\
  (forall r, replacement d = Some r -> display r = (if isEnabled then "flex" else "none")) /\
  (forall e, e ∈ elems d -> matches_feed e = true -> converged_element isEnabled e).

(** Reads that have not yet reported to their callback: store reads the
    host has accepted, and retries waiting for their delay. *)
Definition is_get (t : IoTask) : bool :=
  match t with
  | GetDone _ _ _ _ => true
  | SetDone _ _ _ => false
  end.

Definition is_retry (t : Timer) : bool :=
  match t_body t with
  | RetryGet _ _ _ => true
  | _ => false
  end.

Definition reads_in_flight (w : World) : nat :=
  length (filter (fun t => is_get t = true) (pending_io (host w)))
  + length (filter (fun t => is_retry t = true) (host_timers (host w))).

(** The host call behind a read or a write throws: a missing capability on
    the way to [chrome.storage.local], or a call that is faulted to throw. *)
Definition storage_missing (c : Chrome) : bool :=
  negb (has_chrome c) || negb (has_storage c) || negb (has_local c).

Definition get_throws (w : World) : Prop :=
  storage_missing (chrome (host w)) = true \/
  exists msg rest, get_faults (host w) = ThrowSync msg :: rest.

Definition set_throws (w : World) : Prop :=
  storage_missing (chrome (host w)) = true \/
  exists msg rest, set_faults (host w) = ThrowSync msg :: rest.

(** ** Throttle of the mutation observer *)

(** The pending reconciliation timers of one observer. *)
Definition is_pass (obs : nat) (t : Timer) : bool :=
  match t_body t with
  | TrackedTimeout (ThrottledReconcile o) => bool_decide (o = obs)
  | _ => false
  end.

Definition pending_passes (obs : nat) (w : World) : list Timer :=
  filter (fun t => is_pass obs t = true) (host_timers (host w)).

Definition not_pass (t : Thunk) : Prop := forall obs, t <> ThrottledReconcile obs.

Definition ok_body (b : TimerBody) : Prop :=
  match b with
  | RetryGet _ _ _ => True
  | TrackedTimeout cb => not_pass cb
  | TrackedInterval cb => not_pass cb
  end.

Definition ok_task (t : IoTask) : Prop :=
  match t with
  | SetDone _ (Some cb) _ => not_pass cb
  | _ => True
  end.

(** What the throttle relies on: a pending reconciliation timer is one-shot
    and is the one its observer's [timeout] field names; observer handles
    are below the next handle; and the reconciliation callback is scheduled
    nowhere else. *)
Definition throttle_inv (w : World) : Prop :=
  (forall t obs, t ∈ host_timers (host w) ->
     t_body t = TrackedTimeout (ThrottledReconcile obs) ->
     t_period t = None /\
     exists o, observer_objs (script w) !! obs = Some o /\ obs_timeout o = Some (t_id t)) /\
  (forall obs o, observer_objs (script w) !! obs = Some o ->
     (obs < next_observer (script w))%nat) /\
  (forall t cb, t ∈ host_timers (host w) -> t_body t = TrackedInterval cb -> not_pass cb) /\
  (forall l, l ∈ dcl_once (script w) -> not_pass l) /\
  (forall t, t ∈ pending_io (host w) -> ok_task t).

(** A burst of notifications, each after its own delay. *)
Definition burst (obs : nat) (ds : list Z) : list Event :=
  flat_map (fun d => [Advance d; Mutation obs]) ds.

(** Reconciliation reads issued so far: accepted by the host, waiting for
    a retry, or already reported to the pass's callback. *)
Definition is_pass_read (t : IoTask) : bool :=
  match t with
  | GetDone _ ReconcilePass _ _ => true
  | _ => false
  end.

Definition is_pass_retry (t : Timer) : bool :=
  match t_body t with
  | RetryGet _ ReconcilePass _ => true
  | _ => false
  end.

Definition is_pass_call (c : Call) : bool :=
  match c with
  | CallGet ReconcilePass _ => true
  | _ => false
  end.

Definition passes_started (w : World) : nat :=
  length (filter (fun t => is_pass_read t = true) (pending_io (host w)))
  + length (filter (fun t => is_pass_retry t = true) (host_timers (host w)))
  + length (filter (fun c => is_pass_call c = true) (calls (ghost w))).

Definition throttle_ok (w : World) : Prop := timers_wf w /\ throttle_inv w.

(** Total time a burst takes after its first notification. *)
Definition elapsed (ds : list Z) : Z := foldr (fun d acc => Z.max 0 d + acc) 0 ds.

(** The world once the observer [obs] has scheduled its reconciliation
    pass, due at [due]: one tracked one-shot timer more, and the observer's
    [timeout] field holding its id. *)
Definition scheduled (obs : nat) (due : Z) (w : World) : World :=
  let id := next_timer (host w) in
  on_script (fun s =>
      set_observer_objs
        (alter (fun o => mkObserver (connected o) (disconnect_throws o) (Some id)) obs
               (observer_objs s))
        (set_timeouts (timeouts s ++ [id]) s))
    (on_host (fun h =>
        set_next_timer (S id)
          (set_host_timers
             (host_timers h ++ [mkTimer id due None (TrackedTimeout (ThrottledReconcile obs))])
             h)) w).

(** * Further vocabulary

    Predicates used to state further properties of the content script:
    what initialisation establishes, what the script leaves alone, and the
    bookkeeping of its timers. *)

(** Initialisation has run at most once: at most one mutation observer was
    ever created, and before [initialized] is set there is no observer, no
    message listener and no click listener. *)
Definition init_once (w : World) : Prop :=
  (next_observer (script w) <= 1)%nat /\
  (length (observers (script w)) <= next_observer (script w))%nat /\
  (initialized (script w) = false ->
     next_observer (script w) = 0%nat /\ onMessage (script w) = false /\
     click_listener (script w) = false).

(** Once [initialized] is set, the number of observers created stays put. *)
Definition init_frame (n : nat) (w : World) : Prop :=
  initialized (script w) = true /\ next_observer (script w) = n /\
  (length (observers (script w)) <= n)%nat.

(** The entry points that check the availability guard first. *)
Definition guarded_event (e : Event) : bool :=
  match e with
  | Message _ _ | Click | Mutation _ => true
  | _ => false
  end.

(** The key [k] of the store holds [v], and no write that is still pending
    mentions [k]. *)
Definition key_untouched (k : string) (v : option bool) (w : World) : Prop :=
  store (host w) !! k = v /\
  forall data cb err, SetDone data cb err ∈ pending_io (host w) -> data !! k = None.

(** The page as the environment alone shapes it: the document's own
    life-cycle events and whatever the page rewrites. *)
Definition page_step (d : Document) (e : Event) : Document :=
  match e with
  | DOMContentLoaded =>
      match readyState d with
      | Loading => set_readyState Interactive d
      | _ => d
      end
  | Load => set_readyState Complete d
  | PageChange d' => d'
  | _ => d
  end.

Definition page_of (es : list Event) (d : Document) : Document :=
  fold_left page_step es d.

Definition is_host_change (e : Event) : bool :=
  match e with
  | HostChange _ => true
  | _ => false
  end.

(** A script that has set nothing up. *)
Definition dormant (w : World) : Prop :=
  host_timers (host w) = [] /\ pending_io (host w) = [] /\
  observers (script w) = [] /\ intervals (script w) = [] /\ timeouts (script w) = [] /\
  initialized (script w) = false /\ observer_objs (script w) = ∅ /\
  onMessage (script w) = false /\ click_listener (script w) = false /\
  error_listener (script w) = false /\
  (forall l, l ∈ dcl_once (script w) -> l = SafeInit) /\
  ghost w = mkGhost [] [] [].

(** What [initFeedBlocker] has established before it reaches the placeholder
    and the observer: the flag, the message listener, and its preference
    read [t] handed to the host; no observer yet. *)
Definition init_midway (n : nat) (l : list nat) (m : gmap nat Observer) (bd : bool)
    (t : IoTask) (w : World) : Prop :=
  initialized (script w) = true /\ onMessage (script w) = true /\
  next_observer (script w) = n /\ observers (script w) = l /\ observer_objs (script w) = m /\
  body (doc w) = bd /\ t ∈ pending_io (host w).

Definition is_page_change (e : Event) : bool :=
  match e with
  | PageChange _ => true
  | _ => false
  end.

(** Elements the script has no business with: not a feed element, and not a
    news element it could still hide. *)
Definition untouchable (e : Element) : Prop :=
  matches_feed e = false /\ (sel_news e = false \/ hasAttribute marker e = true).

(** The three body classes the script manages. *)
Definition own_class (c : string) : Prop :=
  c = "feed-blocker-active" \/ c = "feed-blocker-disabled" \/ c = "news-blocker-active".

(** What the script leaves alone on a page: the element [oe] at position
    [i], the presence [P] of the class [c], the body and the number of
    elements. *)
Definition page_frame (i : nat) (oe : option Element) (c : string) (P : Prop) (bd : bool)
    (n : nat) (w : World) : Prop :=
  elems (doc w) !! i = oe /\ (c ∈ classList (doc w) <-> P) /\
  body (doc w) = bd /\ length (elems (doc w)) = n.

(** The registries hold no stale and no duplicate id: every id listed in
    [timeouts] or [intervals] names a pending timer made by the matching
    wrapper.  [self] is the id a running callback may pass to
    [clearSafeInterval]; it is not the id of a listed one-shot timer. *)
Definition reg_inv (self : nat) (w : World) : Prop :=
  NoDup (timeouts (script w)) /\ NoDup (intervals (script w)) /\
  (forall id, id ∈ timeouts (script w) ->
     exists t cb, t ∈ host_timers (host w) /\ t_id t = id /\ t_body t = TrackedTimeout cb) /\
  (forall id, id ∈ intervals (script w) ->
     exists t cb, t ∈ host_timers (host w) /\ t_id t = id /\ t_body t = TrackedInterval cb) /\
  (forall t cb, t ∈ host_timers (host w) -> t_body t = TrackedInterval cb ->
     is_Some (t_period t)) /\
  (forall n, checkIntervalId (script w) = Some n ->
     (n ∉ timeouts (script w)) /\ (n < next_timer (host w))%nat) /\
  (self ∉ timeouts (script w)) /\ (self < next_timer (host w))%nat.

Definition registry_ok (self : nat) (w : World) : Prop := timers_wf w /\ reg_inv self w.

(** * The preference popup (popup.js)

    The popup is a second event-driven program.  It shares the persisted
    store and the message protocol ([Request], [Response]) with the content
    script, and reaches the page only through [chrome.tabs].  Its host calls
    complete later, with whatever the host then reports; the callbacks it
    hands out are the constructors of [TabsK], [MsgK] and [GetK]. *)
Module Popup.

(** The part of a [chrome.tabs.Tab] the popup reads; [url] is undefined
    without the permission to see it. *)
Record Tab := mkTab {
  tab_id : nat;
  tab_url : option string
}.

(** The two elements of popup.html the script looks up. *)
Record Status := mkStatus {
  textContent : string;
  className : string
}.

Record Page := mkPage {
  toggle_el : option bool;      (* #feed-blocker-toggle, with its [checked] *)
  status_el : option Status     (* #status-text *)
}.

(** The host objects the popup calls into. *)
Record Api := mkApi {
  api_tabs : bool;      (* chrome.tabs *)
  api_storage : bool;   (* chrome.storage.local *)
  api_runtime : bool    (* chrome.runtime *)
}.

(** Callbacks of the source, defunctionalised. *)
Inductive TabsK :=
| AfterToggle (isEnabled : bool)   (* handleFeedToggle, line 128 *)
| AfterOpen.                       (* getCurrentState, line 167 *)

Inductive MsgK :=
| StateReply.                      (* getCurrentState, line 175 *)

Inductive GetK :=
| Fallback.                        (* fallbackToStorageState, line 209 *)

(** No caller passes a callback to [safeStorageSet]. *)
Inductive SetK := .

(** Host calls that have been accepted and will complete later. *)
Inductive Task :=
| TabsQuery (k : TabsK)
| SendMessage (tabId : nat) (message : Request) (k : option MsgK)
| StorageGet (keys : list string) (k : GetK)
| StorageSet (data : gmap string bool) (k : option SetK).

Record PState := mkState {
  api : Api;
  items : gmap string bool;     (* chrome.storage.local *)
  pending : list Task;
  page : Page;
  toggleCheckbox : bool;        (* the variable holds the element *)
  statusText : bool;
  change_listener : bool;       (* handleFeedToggle listens to 'change' *)
  escaped : list JsError        (* exceptions that reached the event loop *)
}.

Definition set_items (x : gmap string bool) (s : PState) : PState :=
  mkState (api s) x (pending s) (page s) (toggleCheckbox s) (statusText s)
          (change_listener s) (escaped s).
Definition set_pending (x : list Task) (s : PState) : PState :=
  mkState (api s) (items s) x (page s) (toggleCheckbox s) (statusText s)
          (change_listener s) (escaped s).
Definition set_page (x : Page) (s : PState) : PState :=
  mkState (api s) (items s) (pending s) x (toggleCheckbox s) (statusText s)
          (change_listener s) (escaped s).
Definition set_vars (t st : bool) (s : PState) : PState :=
  mkState (api s) (items s) (pending s) (page s) t st (change_listener s) (escaped s).
Definition set_change_listener (x : bool) (s : PState) : PState :=
  mkState (api s) (items s) (pending s) (page s) (toggleCheckbox s) (statusText s)
          x (escaped s).
Definition log_escaped (e : JsError) (s : PState) : PState :=
  mkState (api s) (items s) (pending s) (page s) (toggleCheckbox s) (statusText s)
          (change_listener s) (escaped s ++ [e]).

(** Computations of the popup: finish or throw. *)
Inductive Out (A : Type) :=
| Fin (a : A) (s : PState)
| Exn (e : JsError) (s : PState).
Arguments Fin {A} a s.
Arguments Exn {A} e s.

Definition PM (A : Type) : Type := PState -> Out A.

Definition pret {A} (a : A) : PM A := fun s => Fin a s.
Definition pthrow {A} (e : JsError) : PM A := fun s => Exn e s.
Definition pbind {A B} (m : PM A) (k : A -> PM B) : PM B :=
  fun s => match m s with
           | Fin a s' => k a s'
           | Exn e s' => Exn e s'
           end.
Definition pcatch {A} (m : PM A) (h : JsError -> PM A) : PM A :=
  fun s => match m s with
           | Fin a s' => Fin a s'
           | Exn e s' => h e s'
           end.
Definition pgets {A} (f : PState -> A) : PM A := fun s => Fin (f s) s.
Definition pmodify (f : PState -> PState) : PM unit := fun s => Fin tt (f s).

Declare Scope popup_scope.
Notation "'do' x <- m ; k" := (pbind m (fun x => k))
  (at level 10, x name, m at level 100, k at level 200) : popup_scope.
Notation "'run' m ; k" := (pbind m (fun _ => k))
  (at level 10, m at level 100, k at level 200) : popup_scope.
Local Open Scope popup_scope.

Definition state_of {A} (o : Out A) : PState :=
  match o with Fin _ s => s | Exn _ s => s end.

(** An exception that leaves a task is reported to the window's error
    listener (line 257), which only logs it. *)
Definition land {A} (o : Out A) : PState :=
  match o with
  | Fin _ s => s
  | Exn e s => log_escaped e s
  end.

Definition enqueue (t : Task) : PM unit :=
  pmodify (fun s => set_pending (pending s ++ [t]) s).

(** Evaluating [chrome.runtime.lastError] in a completion. *)
Definition lastError (failed : bool) : PM bool :=
  do a <- pgets api;
  if api_runtime a then pret failed
  else pthrow (TypeError "reading 'lastError' of undefined").

(** Line 18. *)
Definition isLinkedInPage (tab : Tab) : bool :=
  from_option (includes "linkedin.com") false (tab_url tab).

(** Line 236. *)
Definition updateStatusText (isEnabled : bool) : PM unit :=
  do bound <- pgets statusText;
  if negb bound then pret tt
  else
    pmodify (fun s =>
      match status_el (page s) with
      | Some _ =>
          set_page (mkPage (toggle_el (page s))
                      (Some (mkStatus
                         (if isEnabled then "Feed blocker is enabled"
                          else "Feed blocker is disabled")
                         ("status " +:+ (if isEnabled then "enabled" else "disabled"))))) s
      | None => s
      end).

(** [toggleCheckbox.checked], read and written; the variable may be null. *)
Definition read_checked : PM bool :=
  do bound <- pgets toggleCheckbox;
  do el <- pgets (fun s => toggle_el (page s));
  match bound, el with
  | true, Some c => pret c
  | _, _ => pthrow (TypeError "reading 'checked' of null")
  end.

Definition write_checked (c : bool) : PM unit :=
  do bound <- pgets toggleCheckbox;
  do el <- pgets (fun s => toggle_el (page s));
  match bound, el with
  | true, Some _ => pmodify (fun s => set_page (mkPage (Some c) (status_el (page s))) s)
  | _, _ => pthrow (TypeError "setting 'checked' of null")
  end.

(** Line 208: the callback of the fallback read. *)
Definition run_getk (k : GetK) (result : gmap string bool) : PM unit :=
  match k with
  | Fallback =>
      let isEnabled := pref "feedBlockerEnabled" result in
      do bound <- pgets toggleCheckbox;
      if bound then
        run write_checked isEnabled;
        updateStatusText isEnabled
      else pret tt
  end.

(** Line 62. *)
Definition safeStorageGet (keys : list string) (callback : GetK) : PM unit :=
  pcatch
    (do a <- pgets api;
     if api_storage a then enqueue (StorageGet keys callback)
     else pthrow (TypeError "reading 'local' of undefined"))
    (fun _ => run_getk callback ∅).

(** Lines 64-72: the completion of a read. *)
Definition get_completion (keys : list string) (callback : GetK) (failed : bool) : PM unit :=
  do err <- lastError failed;
  if err then run_getk callback ∅
  else
    do st <- pgets items;
    run_getk callback (get_result keys st).

(** Line 208. *)
Definition fallbackToStorageState : PM unit :=
  safeStorageGet ["feedBlockerEnabled"] Fallback.

(** Lines 175-198: the callback of the state query; [response] is [None]
    for undefined or null, and [{success: true}] has no [enabled]. *)
Definition run_msgk (k : MsgK) (response : option Response) : PM unit :=
  match k with
  | StateReply =>
      match response with
      | None => fallbackToStorageState
      | Some (State enabled _) =>
          run write_checked enabled;
          updateStatusText enabled
      | Some Success => fallbackToStorageState
      end
  end.

(** Line 28. *)
Definition safeSendMessage (tabId : nat) (message : Request) (callback : option MsgK)
    : PM unit :=
  pcatch
    (do a <- pgets api;
     if api_tabs a then enqueue (SendMessage tabId message callback)
     else pthrow (TypeError "reading 'sendMessage' of undefined"))
    (fun _ => match callback with
              | Some k => run_msgk k None
              | None => pret tt
              end).

(** Lines 30-38: the completion of a message. *)
Definition message_completion (callback : option MsgK) (reply : option (option Response))
    : PM unit :=
  do err <- lastError (bool_decide (reply = None));
  match callback with
  | Some k => run_msgk k (if err then None else mjoin reply)
  | None => pret tt
  end.

(** Lines 128-137 and 167-204: the callbacks of the tab query. *)
Definition run_tabsk (k : TabsK) (tabs : list Tab) : PM unit :=
  match k with
  | AfterToggle isEnabled =>
      match tabs with
      | [] => pret tt
      | tab :: _ =>
          if isLinkedInPage tab
          then safeSendMessage (tab_id tab) (ToggleFeedBlocker isEnabled) None
          else pret tt
      end
  | AfterOpen =>
      match tabs with
      | [] => fallbackToStorageState
      | tab :: _ =>
          if isLinkedInPage tab
          then safeSendMessage (tab_id tab) GetState (Some StateReply)
          else fallbackToStorageState
      end
  end.

(** Line 45. *)
Definition safeTabsQuery (callback : TabsK) : PM unit :=
  pcatch
    (do a <- pgets api;
     if api_tabs a then enqueue (TabsQuery callback)
     else pthrow (TypeError "reading 'query' of undefined"))
    (fun _ => run_tabsk callback []).

(** Lines 47-55: the completion of a tab query. *)
Definition tabs_completion (callback : TabsK) (tabs : option (list Tab)) : PM unit :=
  do err <- lastError (bool_decide (tabs = None));
  run_tabsk callback (if err then [] else default [] tabs).

Definition run_setk (k : SetK) (ok : bool) : PM unit := match k with end.

(** Line 79. *)
Definition safeStorageSet (data : gmap string bool) (callback : option SetK) : PM unit :=
  pcatch
    (do a <- pgets api;
     if api_storage a then enqueue (StorageSet data callback)
     else pthrow (TypeError "reading 'local' of undefined"))
    (fun _ => match callback with
              | Some k => run_setk k false
              | None => pret tt
              end).

(** Lines 81-89: the completion of a write; the host has applied it unless
    it reports an error. *)
Definition set_completion (data : gmap string bool) (callback : option SetK) (failed : bool)
    : PM unit :=
  run (if failed then pret tt else pmodify (fun s => set_items (data ∪ items s) s));
  do err <- lastError failed;
  match callback with
  | Some k => run_setk k (negb err)
  | None => pret tt
  end.

(** Line 166. *)
Definition getCurrentState : PM unit := safeTabsQuery AfterOpen.

(** Line 118. *)
Definition handleFeedToggle : PM unit :=
  do isEnabled <- read_checked;
  run updateStatusText isEnabled;
  run safeStorageSet {[ "feedBlockerEnabled" := isEnabled ]} None;
  safeTabsQuery (AfterToggle isEnabled).

(** Line 97. *)
Definition initializePopup : PM unit :=
  do pg <- pgets page;
  let t := bool_decide (is_Some (toggle_el pg)) in
  let st := bool_decide (is_Some (status_el pg)) in
  run pmodify (set_vars t st);
  if negb t || negb st then pret tt
  else
    run pmodify (set_change_listener true);
    getCurrentState.

(** What happens to the popup. *)
Inductive Event :=
| Loaded                                                  (* DOMContentLoaded *)
| UserToggle (checked : bool)                             (* the user flips the checkbox *)
| TabsDone (i : nat) (tabs : option (list Tab))           (* [None]: lastError is set *)
| MessageDone (i : nat) (reply : option (option Response))
| ReadDone (i : nat) (failed : bool)
| WriteDone (i : nat) (failed : bool).

Definition take (i : nat) (s : PState) : PState := set_pending (delete i (pending s)) s.

Definition step (e : Event) (s : PState) : PState :=
  match e with
  | Loaded => land (initializePopup s)
  | UserToggle c =>
      match toggle_el (page s) with
      | Some _ =>
          let s1 := set_page (mkPage (Some c) (status_el (page s))) s in
          if change_listener s1 then land (handleFeedToggle s1) else s1
      | None => s
      end
  | TabsDone i tabs =>
      match pending s !! i with
      | Some (TabsQuery k) => land (tabs_completion k tabs (take i s))
      | _ => s
      end
  | MessageDone i reply =>
      match pending s !! i with
      | Some (SendMessage _ _ k) => land (message_completion k reply (take i s))
      | _ => s
      end
  | ReadDone i failed =>
      match pending s !! i with
      | Some (StorageGet keys k) => land (get_completion keys k failed (take i s))
      | _ => s
      end
  | WriteDone i failed =>
      match pending s !! i with
      | Some (StorageSet data k) => land (set_completion data k failed (take i s))
      | _ => s
      end
  end.

Definition run_events (es : list Event) (s : PState) : PState :=
  fold_left (fun s e => step e s) es s.

(** Lines 2-5: a popup that has just been opened. *)
Definition opened (a : Api) (st : gmap string bool) (pg : Page) : PState :=
  mkState a st [] pg false false false [].

(** The status line for the choice [b], as [updateStatusText] writes it. *)
Definition status_of (b : bool) : Status :=
  mkStatus (if b then "Feed blocker is enabled" else "Feed blocker is disabled")
           (if b then "status enabled" else "status disabled").

(** The checkbox and the status line agree on [b]. *)
Definition shows (b : bool) (s : PState) : Prop :=
  toggle_el (page s) = Some b /\ status_el (page s) = Some (status_of b).

Definition full_api : Api := mkApi true true true.

(** The tab the popup talks to, if any: the first tab reported, when it is a
    LinkedIn page. *)
Definition target (tabs : option (list Tab)) : option Tab :=
  match tabs with
  | Some (tab :: _) => if isLinkedInPage tab then Some tab else None
  | _ => None
  end.

(** What the fallback read makes of the store. *)
Definition stored_choice (failed : bool) (st : gmap string bool) : bool :=
  if failed then true else pref "feedBlockerEnabled" st.

(** The popup has fallen back to the store: its read is the one call
    pending, and whatever the read reports, the popup then shows the stored
    choice. *)
Definition falls_back (s : PState) : Prop :=
  pending s = [StorageGet ["feedBlockerEnabled"] Fallback] /\
  forall failed,
    shows (stored_choice failed (items s)) (step (ReadDone 0 failed) s) /\
    pending (step (ReadDone 0 failed) s) = [].

(** A popup that has found its two elements and waits for the user. *)
Definition ready (s : PState) : Prop :=
  api s = full_api /\ pending s = [] /\
  is_Some (toggle_el (page s)) /\ is_Some (status_el (page s)) /\
  toggleCheckbox s = true /\ statusText s = true /\ change_listener s = true.

Definition popup_html : Page := mkPage (Some false) (Some (mkStatus "" "")).

(** A popup that has found its two elements, with every host object in
    place: its store, its pending calls, its checkbox and status line. *)
Definition running (st : gmap string bool) (p : list Task) (c : bool) (stt : Status)
    (esc : list JsError) : PState :=
  mkState full_api st p (mkPage (Some c) (Some stt)) true true true esc.
End Popup.
(** * Properties *)

(** ** Proof tools *)

(** Reduce record projections and updates of the world, nothing else. *)
Ltac wsimpl :=
  cbn [host doc script ghost on_host on_doc on_script on_ghost
       chrome get_faults set_faults cancel_faults store pending_io clock next_timer host_timers
       set_chrome set_get_faults set_set_faults set_store set_pending_io set_clock
       set_next_timer set_host_timers
       body readyState classList replacement elems
       set_body set_readyState set_classList set_replacement set_elems
       observers intervals timeouts initialized checkIntervalId observer_objs next_observer
       onMessage dcl_once click_listener error_listener load_once unload_listener
       set_observers set_intervals set_timeouts set_initialized set_checkIntervalId
       set_observer_objs set_next_observer set_onMessage set_dcl_once set_click_listener
       set_error_listener set_load_once set_unload_listener
       calls responses uncaught log_call log_response log_uncaught
       world_of threw value_of settle fst snd negb andb orb] in *.

(** Run the monad combinators. *)
Ltac mrun :=
  cbv beta delta [bind ret throw try_catch gets modify when] in *; wsimpl.

Lemma available_inv (c : Chrome) :
  available c = true ->
  has_chrome c = true /\ has_storage c = true /\ has_local c = true /\ has_runtime c = true.
Proof. unfold available. destruct c as [[] [] [] []]; simpl; done. Qed.

Lemma lookup_snoc {A} (l : list A) (x : A) : (l ++ [x]) !! length l = Some x.
Proof. rewrite lookup_app_r by lia. by rewrite Nat.sub_diag. Qed.

Lemma delete_snoc {A} (l : list A) (x : A) : delete (length l) (l ++ [x]) = l.
Proof. induction l as [|a l IH]; simpl; [done|]. f_equal. exact IH. Qed.

(** Completing the store call that was queued last. *)
Lemma complete_last (w : World) (t : IoTask) (l : list IoTask) :
  pending_io (host w) = l ++ [t] ->
  complete (length l) w = settle (complete_io t (on_host (set_pending_io l) w)).
Proof.
  intros H. unfold complete. rewrite H, lookup_snoc.
  do 2 f_equal. unfold on_host. f_equal. unfold set_pending_io. f_equal.
  rewrite H. apply delete_snoc.
Qed.

Lemma pref_get_result (k : string) (keys : list string) (st : gmap string bool) :
  k ∈ keys -> pref k (get_result keys st) = default true (st !! k).
Proof.
  intros Hk. unfold pref, get_result.
  destruct (st !! k) as [v|] eqn:E.
  - rewrite (proj2 (map_lookup_filter_Some _ st k v)); [done|]. split; [done|]. simpl. done.
  - rewrite (proj2 (map_lookup_filter_None _ st k)); [done|]. left. done.
Qed.

(** ** The news toggle *)

(** C1, as amended.  A [toggleNewsBlocker] message never reaches any
    news-policy or persistence code: whatever the state and the requested
    value, handling the message leaves the host (store, pending store
    calls, timers), the DOM and the script's own state exactly as they
    were. *)
Theorem C1_news_toggle_inert (b : bool) (chan : nat) (w : World) :
  let w' := step (Message (ToggleNewsBlocker b) chan) w in
  host w' = host w /\ doc w' = doc w /\ script w' = script w.
Proof.
  simpl. destruct (onMessage (script w)); [|done].
  unfold message_listener, bind, isChromeAPIAvailable, gets.
  destruct (available (chrome (host w))); done.
Qed.

(** C1 as stated fails.  On an initialised page with a healthy runtime the
    listener is registered, yet a [toggleNewsBlocker] message makes it throw
    at the call to the unbound [updateNewsBlockerState]: no acknowledgement
    is sent, and once every pending store call has completed the store
    still has no [newsBlockerEnabled] key. *)
Lemma C1_counterexample :
  let w := started ∅ in
  let w' := run_events [Message (ToggleNewsBlocker true) 7; Io 0; Io 0] w in
  onMessage (script w) = true /\
  available (chrome (host w)) = true /\
  threw (message_listener (ToggleNewsBlocker true) 7 w)
    = Some (ReferenceError "updateNewsBlockerState is not defined") /\
  responses (ghost w') = [] /\
  pending_io (host w') = [] /\
  store (host w') !! "newsBlockerEnabled" = None.
Proof. vm_compute. repeat split; reflexivity. Qed.

(** ** State query *)

(** C4.  With a working runtime and a store that holds
    [feedBlockerEnabled = false] and no [newsBlockerEnabled], the listener
    answers a [getState] message by returning [true] (the channel stays
    open) without having responded yet; when the read it dispatched
    completes, the response [{enabled: false, newsEnabled: true}] is sent on
    that channel, and it is the only response added. *)
Theorem C4_getState (w : World) (chan : nat) :
  available (chrome (host w)) = true ->
  (next_fault (get_faults (host w))).1 = NoFault ->
  store (host w) !! "feedBlockerEnabled" = Some false ->
  store (host w) !! "newsBlockerEnabled" = None ->
  exists w1,
    message_listener GetState chan w = Done KeepChannelOpen w1 /\
    responses (ghost w1) = responses (ghost w) /\
    responses (ghost (step (Io (length (pending_io (host w)))) w1))
      = responses (ghost w) ++ [(chan, State false true)].
Proof.
  intros Hav Hf Hfeed Hnews.
  destruct (available_inv _ Hav) as (Hc1 & Hc2 & Hc3 & Hc4).
  unfold message_listener, isChromeAPIAvailable, safeGet, storage_local_get, resolve_storage_local,
    enqueue_io.
  repeat (progress (mrun; rewrite ?Hav, ?Hc1, ?Hc2, ?Hc3)).
  destruct (next_fault (get_faults (host w))) as [f rest] eqn:E. simpl in Hf. subst f.
  eexists. split; [reflexivity|]. split; [reflexivity|].
  unfold step. erewrite complete_last by (wsimpl; reflexivity).
  unfold complete_io, complete_get, read_lastError, invoke, run_getcb, sendResponse.
  repeat (progress (mrun; rewrite ?Hc1, ?Hc4)).
  rewrite !pref_get_result by (unfold prefKeys; set_solver).
  rewrite Hfeed, Hnews. reflexivity.
Qed.

Lemma C4_getState_witness :
  let w := started {[ "feedBlockerEnabled" := false ]} in
  exists w1,
    message_listener GetState 8 w = Done KeepChannelOpen w1 /\
    responses (ghost w1) = responses (ghost w) /\
    responses (ghost (step (Io (length (pending_io (host w)))) w1))
      = responses (ghost w) ++ [(8%nat, State false true)].
Proof.
  apply (C4_getState (started {[ "feedBlockerEnabled" := false ]}) 8);
    vm_compute; reflexivity.
Defined.

(** ** Initial preference read *)



(** On a concrete page: with an empty store the initial read ends with the
    feed blocked and [feedBlockerEnabled = true] on its way to the store. *)
Example initial_read_empty_store :
  let w := started ∅ in
  calls (ghost w) = [CallGet InitPrefs ∅] /\
  classList (doc w) = ["feed-blocker-active"] /\
  pending_io (host w)
    = [GetDone ["feedBlockerEnabled"] ReplacementVisibility 1 None;
       SetDone {[ "feedBlockerEnabled" := true ]} None None].
Proof. vm_compute. repeat split; reflexivity. Qed.

(** ** Defensive write *)

(** A write that the host completes with an error: the completion reads
    the error and returns, or throws while reading it; either way the
    world is left as it was. *)
Lemma complete_set_failed (data : gmap string bool) (callback : option Thunk)
    (m : option string) (w : World) :
  world_of (complete_set data callback (Some m) w) = w.
Proof.
  unfold complete_set, read_lastError. mrun.
  replace (bool_decide (Some m = None)) with false by (symmetry; by apply bool_decide_eq_false).
  mrun.
  destruct (has_chrome (chrome (host w))); mrun; [|done].
  destruct (has_runtime (chrome (host w))); mrun; done.
Qed.

(** C10.  With the guard passing and a store call that does not throw,
    [safeSet] returns [true] and leaves the write pending, whether the
    write will later fail ([f = LastError m]) or not.  When it does fail,
    its completion invokes no callback and leaves the store as it was; a
    callback invocation can only come from a completion without error. *)
Theorem C10_safeSet_true_not_persisted (w : World) (data : gmap string bool)
    (callback : option Thunk) (f : Fault) (rest : list Fault) :
  available (chrome (host w)) = true ->
  next_fault (set_faults (host w)) = (f, rest) ->
  (forall msg, f <> ThrowSync msg) ->
  exists w1,
    safeSet data callback w = Done true w1 /\
    pending_io (host w1) = pending_io (host w) ++ [SetDone data callback (err_of f)] /\
    (forall m w2,
       f = LastError m ->
       let w3 := settle (complete_io (SetDone data callback (err_of f)) w2) in
       calls (ghost w3) = calls (ghost w2) /\ store (host w3) = store (host w2)) /\
    (forall err c w2,
       CallSet c ∈ calls (ghost (world_of (complete_set data callback err w2))) ->
       CallSet c ∉ calls (ghost w2) ->
       err = None).
Proof.
  intros Hav Hf Hsync.
  destruct (available_inv _ Hav) as (Hc1 & Hc2 & Hc3 & Hc4).
  unfold safeSet, isChromeAPIAvailable, storage_local_set, resolve_storage_local, enqueue_io.
  repeat (progress (mrun; rewrite ?Hav, ?Hc1, ?Hc2, ?Hc3, ?Hf)).
  destruct f as [|msg|m]; [| by destruct (Hsync msg) |].
  - eexists. split; [reflexivity|]. split; [reflexivity|]. split; [done|].
    intros [m|] c w2 Hin Hnot; [|done].
    rewrite complete_set_failed in Hin. done.
  - eexists. split; [reflexivity|]. split; [reflexivity|]. split.
    + intros m' w2 [= <-]. simpl.
      pose proof (complete_set_failed data callback m w2) as Hw.
      destruct (complete_set data callback (Some m) w2); simpl in *; subst; done.
    + intros [m'|] c w2 Hin Hnot; [|done].
      rewrite complete_set_failed in Hin. done.
Qed.

Lemma C10_safeSet_true_not_persisted_witness :
  let w := on_host (set_set_faults [LastError (Some "QUOTA_BYTES quota exceeded")])
             (started ∅) in
  let data : gmap string bool := {[ "feedBlockerEnabled" := false ]} in
  exists w1,
    safeSet data (Some (ApplyChanges false)) w = Done true w1 /\
    pending_io (host w1)
      = pending_io (host w)
        ++ [SetDone data (Some (ApplyChanges false))
              (err_of (LastError (Some "QUOTA_BYTES quota exceeded")))] /\
    (forall m w2,
       LastError (Some "QUOTA_BYTES quota exceeded") = LastError m ->
       let w3 := settle (complete_io
                   (SetDone data (Some (ApplyChanges false))
                      (err_of (LastError (Some "QUOTA_BYTES quota exceeded")))) w2) in
       calls (ghost w3) = calls (ghost w2) /\ store (host w3) = store (host w2)) /\
    (forall err c w2,
       CallSet c ∈ calls (ghost (world_of
                     (complete_set data (Some (ApplyChanges false)) err w2))) ->
       CallSet c ∉ calls (ghost w2) ->
       err = None).
Proof.
  apply (C10_safeSet_true_not_persisted _ _ _ _ []); [reflexivity | reflexivity | done].
Defined.

(** The same write on a concrete page: [true] is returned, the completion
    runs, and neither the store nor the callback log has moved. *)
Example safeSet_true_write_lost :
  let w := on_host (set_set_faults [LastError (Some "QUOTA_BYTES quota exceeded")])
             (run_events [Io 0; Io 0] (started ∅)) in
  let o := safeSet {[ "feedBlockerEnabled" := false ]} (Some (ApplyChanges false)) w in
  let w' := step (Io 0) (world_of o) in
  value_of o = Some true /\
  pending_io (host w') = [] /\
  store (host w') !! "feedBlockerEnabled" = Some true /\
  calls (ghost w') = calls (ghost w).
Proof. vm_compute. repeat split; reflexivity. Qed.

(** ** Invariant reasoning for computations *)

Section Preserves.
Context (I : World -> Prop).

Lemma preserves_ret {A} (a : A) : preserves I (ret a).
Proof. intros w H. exact H. Qed.

Lemma preserves_throw {A} (e : JsError) : preserves I (throw (A := A) e).
Proof. intros w H. exact H. Qed.

Lemma preserves_gets {A} (f : World -> A) : preserves I (gets f).
Proof. intros w H. exact H. Qed.

Lemma preserves_modify (f : World -> World) :
  (forall w, I w -> I (f w)) -> preserves I (modify f).
Proof. intros Hf w H. apply Hf, H. Qed.

Lemma preserves_bind {A B} (m : M A) (k : A -> M B) :
  preserves I m -> (forall a, preserves I (k a)) -> preserves I (bind m k).
Proof.
  intros Hm Hk w H. unfold bind. specialize (Hm w H).
  destruct (m w) as [a w'|e w']; simpl in *; [apply Hk, Hm | exact Hm].
Qed.

Lemma preserves_try_catch {A} (m : M A) (h : JsError -> M A) :
  preserves I m -> (forall e, preserves I (h e)) -> preserves I (try_catch m h).
Proof.
  intros Hm Hh w H. unfold try_catch. specialize (Hm w H).
  destruct (m w) as [a w'|e w']; simpl in *; [exact Hm | apply Hh, Hm].
Qed.

Lemma preserves_when (b : bool) (m : M unit) : preserves I m -> preserves I (when b m).
Proof. intros Hm. destruct b; [exact Hm | apply preserves_ret]. Qed.

Lemma preserves_forEach {A} (l : list A) (f : A -> M unit) :
  (forall a, preserves I (f a)) -> preserves I (forEach l f).
Proof.
  intros Hf. induction l as [|a l IH]; simpl; [apply preserves_ret|].
  apply preserves_bind; [apply Hf | intros _; exact IH].
Qed.

Lemma preserves_settle {A} (m : M A) (w : World) :
  (forall e w, I w -> I (on_ghost (log_uncaught e) w)) ->
  preserves I m -> I w -> I (settle (m w)).
Proof.
  intros Hg Hm H. specialize (Hm w H). destruct (m w); simpl in *; [exact Hm | apply Hg, Hm].
Qed.
End Preserves.

Create HintDb pres.

Ltac head_of t :=
  match t with
  | ?f _ => head_of f
  | _ => t
  end.

(** Walk the structure of a computation; [leaf] closes the primitive steps. *)
Ltac pres_with leaf :=
  repeat first
    [ solve [eauto with pres]
    | match goal with
      | |- preserves _ (ret _) => apply preserves_ret
      | |- preserves _ (throw _) => apply preserves_throw
      | |- preserves _ (gets _) => apply preserves_gets
      | |- preserves _ (bind _ _) => apply preserves_bind; [|intros ?]
      | |- preserves _ (try_catch _ _) => apply preserves_try_catch; [|intros ?]
      | |- preserves _ (when _ _) => apply preserves_when
      | |- preserves _ (forEach _ _) => apply preserves_forEach; intros ?
      | |- preserves _ (modify _) => solve [apply preserves_modify; intros ? ?; leaf]
      | |- preserves _ (setTimeout _ _) => solve [intros ? ?; leaf]
      | |- preserves _ (setInterval _ _) => solve [intros ? ?; leaf]
      | |- preserves _ new_MutationObserver => solve [intros ? ?; leaf]
      | |- preserves _ (match ?x with _ => _ end) => destruct x
      end
    | match goal with
      | |- preserves _ ?m =>
          let h := head_of m in
          lazymatch h with
          | @bind => fail
          | @try_catch => fail
          | @modify => fail
          | @setTimeout => fail
          | @setInterval => fail
          | @forEach => fail
          | _ => progress unfold h
          end
      end ].

(** An invariant of every handler is an invariant of the event loop. *)
Section StepInv.
Context (I : World -> Prop).
Hypothesis I_uncaught : forall e w, I w -> I (on_ghost (log_uncaught e) w).
Hypothesis I_doc : forall f w, I w -> I (on_doc f w).
Hypothesis I_clock : forall f w, I w -> I (on_host (fun h => set_clock (f h) h) w).
Hypothesis I_chrome : forall c w, I w -> I (on_host (set_chrome c) w).
Hypothesis I_dcl : forall w, I w -> I (on_script (set_dcl_once []) w).
Hypothesis I_load : forall w, I w -> I (on_script (set_load_once false) w).
Hypothesis I_fire : forall id w, I w -> I (fire id w).
Hypothesis I_complete : forall i w, I w -> I (complete i w).
Hypothesis I_mutation : forall obs o w,
  observer_objs (script w) !! obs = Some o -> I w -> I (settle (observer_callback obs w)).
Hypothesis I_message_listener : forall r c, preserves I (message_listener r c).
Hypothesis I_clickHandler : preserves I clickHandler.
Hypothesis I_dcl_thunk : forall w l, l ∈ dcl_once (script w) -> I w -> preserves I (run_thunk 0 l).
Hypothesis I_load_listener_body : preserves I load_listener_body.
Hypothesis I_cleanupResources : preserves I cleanupResources.
Hypothesis I_error_listener_body : forall m, preserves I (error_listener_body m).

Lemma step_inv (e : Event) (w : World) : I w -> I (step e w).
Proof.
  intros H. destruct e as [dt|id|i|obs|request chan| | | | |message|c|d]; cbn [step].
  - by apply I_clock.
  - by apply I_fire.
  - by apply I_complete.
  - destruct (observer_objs (script w) !! obs) as [o|] eqn:Eo; [|exact H].
    destruct (connected o); [|exact H].
    by apply (I_mutation obs o).
  - destruct (onMessage (script w)); [|exact H].
    apply preserves_settle; [done | apply I_message_listener | exact H].
  - destruct (click_listener (script w)); [|exact H].
    apply preserves_settle; [done | apply I_clickHandler | exact H].
  - assert (Hls : forall l, l ∈ dcl_once (script w) -> preserves I (run_thunk 0 l))
      by (intros l Hl; by apply (I_dcl_thunk w)).
    revert Hls. generalize (dcl_once (script w)). intros ls Hls.
    set (w1 := on_doc _ _). assert (H1 : I w1) by (subst w1; by apply I_doc, I_dcl).
    clearbody w1. revert w1 H1. induction ls as [|l ls IH]; intros w1 H1; [exact H1|].
    cbn [fold_left]. apply IH.
    + intros l' Hl'. apply Hls. by right.
    + apply preserves_settle; [done | apply Hls; by left | exact H1].
  - set (w1 := on_doc _ w). assert (H1 : I w1) by (subst w1; by apply I_doc).
    clearbody w1. destruct (load_once _); [|exact H1].
    apply preserves_settle; [done | apply I_load_listener_body | by apply I_load].
  - destruct (unload_listener (script w)); [|exact H].
    apply preserves_settle; [done | apply I_cleanupResources | exact H].
  - destruct (error_listener (script w)); [|exact H].
    apply preserves_settle; [done | apply I_error_listener_body | exact H].
  - by apply I_chrome.
  - by apply I_doc.
Qed.
End StepInv.

Lemma run_events_inv (I : World -> Prop) :
  (forall e w, I w -> I (step e w)) ->
  forall es w, I w -> I (run_events es w).
Proof.
  intros Hstep es. induction es as [|e es IH]; intros w H; [exact H|].
  apply IH. by apply Hstep.
Qed.

(** An invariant of every timer body is an invariant of firing. *)
Section FireInv.
Context (I : World -> Prop).
Hypothesis I_uncaught : forall e w, I w -> I (on_ghost (log_uncaught e) w).
Hypothesis I_drop : forall id w,
  I w -> I (on_host (fun h => set_host_timers (drop_timer id (host_timers h)) h) w).
Hypothesis I_reschedule : forall id f w,
  I w -> I (on_host (fun h => set_host_timers (reschedule id (f h) (host_timers h)) h) w).
Hypothesis I_fire_body : forall id b, preserves I (fire_body id b).

Lemma fire_inv (id : nat) (w : World) : I w -> I (fire id w).
Proof.
  intros H. unfold fire.
  destruct (find_timer id (host_timers (host w))) as [t|]; [|exact H].
  destruct (t_due t <=? clock (host w))%Z; [|exact H].
  apply preserves_settle; [done | apply I_fire_body |].
  destruct (t_period t); [by apply I_reschedule | by apply I_drop].
Qed.
End FireInv.

(** An invariant of every completion is an invariant of completing a call. *)
Section CompleteInv.
Context (I : World -> Prop).
Hypothesis I_uncaught : forall e w, I w -> I (on_ghost (log_uncaught e) w).
Hypothesis I_delete : forall i w,
  I w -> I (on_host (fun h => set_pending_io (delete i (pending_io h)) h) w).
Hypothesis I_complete_io : forall t, preserves I (complete_io t).

Lemma complete_inv (i : nat) (w : World) : I w -> I (complete i w).
Proof.
  intros H. unfold complete. destruct (pending_io (host w) !! i); [|exact H].
  apply preserves_settle; [done | apply I_complete_io | by apply I_delete].
Qed.
End CompleteInv.

(** ** Resource tracker *)

Lemma elem_of_drop_timer (t : Timer) (id : nat) (l : list Timer) :
  t ∈ drop_timer id l <-> t ∈ l /\ t_id t <> id.
Proof. unfold drop_timer. rewrite list_elem_of_filter. tauto. Qed.

Lemma elem_of_sweep (t : Timer) (bad ids : list nat) (l : list Timer) :
  t ∈ sweep bad ids l <-> t ∈ l /\ (t_id t ∈ ids -> t_id t ∈ bad).
Proof.
  revert l. induction ids as [|id ids IH]; intros l; unfold sweep; cbn [foldl].
  - split; [intros H; split; [exact H | intros Hin; inversion Hin] | tauto].
  - fold (sweep bad ids (if decide (id ∈ bad) then l else drop_timer id l)).
    rewrite IH. destruct (decide (id ∈ bad)) as [Hb|Hb].
    + split; intros [H1 H2]; (split; [exact H1|]); intros Hin.
      * apply elem_of_cons in Hin as [->|Hin]; [exact Hb | exact (H2 Hin)].
      * apply H2. by right.
    + rewrite elem_of_drop_timer.
      split.
      * intros [[H1 Hne] H2]. split; [exact H1|]. intros Hin.
        apply elem_of_cons in Hin as [Heq|Hin]; [done | exact (H2 Hin)].
      * intros [H1 H2]. split; [split; [exact H1|]|].
        -- intros Heq. apply Hb. rewrite <- Heq. apply H2. rewrite Heq. by left.
        -- intros Hin. apply H2. by right.
Qed.

Lemma elem_of_remove_first (x y : nat) (l : list nat) :
  x ∈ l -> x <> y -> x ∈ remove_first y l.
Proof.
  intros Hin Hne. induction l as [|z l IH]; simpl; [inversion Hin|].
  destruct (decide (y = z)) as [->|Hyz].
  - apply elem_of_cons in Hin as [->|Hin]; [done | exact Hin].
  - apply elem_of_cons in Hin as [->|Hin]; [by left | right; by apply IH].
Qed.

Lemma forEach_clearTimer (ids : list nat) (w : World) :
  forEach ids (fun id => try_catch (clearTimer id) (fun _ => ret tt)) w
  = Done tt (on_host (fun h =>
      set_host_timers (sweep (cancel_faults h) ids (host_timers h)) h) w).
Proof.
  revert w. induction ids as [|id ids IH]; intros w.
  - destruct w as [[] ? ? ?]; reflexivity.
  - cbn [forEach]. unfold clearTimer at 1. mrun.
    destruct (decide (id ∈ cancel_faults (host w))) as [Hin|Hin]; mrun; rewrite IH;
      unfold on_host, sweep; wsimpl; cbn [foldl].
    + rewrite decide_True by done. reflexivity.
    + rewrite decide_False by done. reflexivity.
Qed.

Lemma forEach_disconnect (obss : list nat) (w : World) :
  forEach obss (fun obs => try_catch (disconnect obs) (fun _ => ret tt)) w
  = Done tt (on_script (fun s =>
      set_observer_objs (foldl disconnect_one (observer_objs s) obss) s) w).
Proof.
  revert w. induction obss as [|obs obss IH]; intros w.
  - destruct w as [? ? [] ?]; reflexivity.
  - cbn [forEach]. unfold disconnect at 1. mrun.
    destruct (observer_objs (script w) !! obs) as [o|] eqn:E; mrun;
      [destruct (disconnect_throws o) eqn:Ed; mrun|];
      rewrite IH; unfold on_script; wsimpl; cbn [foldl]; unfold disconnect_one at 3;
      rewrite E, ?Ed; reflexivity.
Qed.

(** The teardown never throws and ends in [torn_down]. *)
Lemma cleanupResources_eq (w : World) : cleanupResources w = Done tt (torn_down w).
Proof.
  unfold cleanupResources, clearInterval, clearTimeout. mrun.
  rewrite forEach_clearTimer. wsimpl.
  rewrite forEach_clearTimer. wsimpl.
  rewrite forEach_disconnect. wsimpl.
  reflexivity.
Qed.

(** *** The bookkeeping invariant holds in every reachable state *)

Lemma tracked_safeSetTimeout (cb : Thunk) (delay : Z) :
  preserves tracked_inv (safeSetTimeout cb delay).
Proof.
  intros w H t. unfold safeSetTimeout, setTimeout. mrun.
  intros Hin. apply elem_of_app in Hin as [Hin|Hin].
  - specialize (H t Hin). destruct (t_body t); [done| |done].
    destruct H as [Hp [H|H]]; (split; [done|]); [left|right; done].
    apply elem_of_app. by left.
  - apply list_elem_of_singleton in Hin as ->. simpl. split; [done|]. left.
    apply elem_of_app. right. by apply list_elem_of_singleton.
Qed.

Lemma tracked_safeSetInterval (cb : Thunk) (delay : Z) :
  preserves tracked_inv (safeSetInterval cb delay).
Proof.
  intros w H t. unfold safeSetInterval, setInterval. mrun.
  intros Hin. apply elem_of_app in Hin as [Hin|Hin].
  - specialize (H t Hin). destruct (t_body t); [done|done|].
    destruct H as [H|H]; [left|right; done]. apply elem_of_app. by left.
  - apply list_elem_of_singleton in Hin as ->. simpl. left.
    apply elem_of_app. right. by apply list_elem_of_singleton.
Qed.

Lemma tracked_setTimeout_retry keys cb retries (delay : Z) :
  preserves tracked_inv (setTimeout (RetryGet keys cb retries) delay).
Proof.
  intros w H t. unfold setTimeout. wsimpl.
  intros Hin. apply elem_of_app in Hin as [Hin|Hin]; [exact (H t Hin)|].
  apply list_elem_of_singleton in Hin as ->. done.
Qed.

Lemma tracked_clearSafeInterval (id : nat) : preserves tracked_inv (clearSafeInterval id).
Proof.
  intros w H t. unfold clearSafeInterval, clearInterval, clearTimer. mrun.
  destruct (decide (id ∈ cancel_faults (host w))); mrun; [exact (H t)|].
  intros Hin. apply elem_of_drop_timer in Hin as [Hin Hne].
  specialize (H t Hin). destruct (t_body t); [done|done|].
  destruct H as [H|H]; [left|right; done]. by apply elem_of_remove_first.
Qed.

Lemma tracked_clearSafeTimeout (id : nat) : preserves tracked_inv (clearSafeTimeout id).
Proof.
  intros w H t. unfold clearSafeTimeout, clearTimeout, clearTimer. mrun.
  destruct (decide (id ∈ cancel_faults (host w))); mrun; [exact (H t)|].
  intros Hin. apply elem_of_drop_timer in Hin as [Hin Hne].
  specialize (H t Hin). destruct (t_body t); [done| |done].
  destruct H as [Hp [H|H]]; (split; [done|]); [left|right; done].
  by apply elem_of_remove_first.
Qed.

Lemma tracked_torn_down (w : World) : tracked_inv w -> tracked_inv (torn_down w).
Proof.
  intros H t. unfold torn_down. wsimpl. intros Hin.
  apply elem_of_sweep in Hin as [Hin Hto].
  apply elem_of_sweep in Hin as [Hin Hiv].
  specialize (H t Hin). destruct (t_body t); [done| |].
  - destruct H as [Hp [H|H]]; (split; [done|]); right; [by apply Hto | done].
  - destruct H as [H|H]; right; [by apply Hiv | done].
Qed.

Lemma tracked_cleanupResources : preserves tracked_inv cleanupResources.
Proof. intros w H. rewrite cleanupResources_eq. by apply tracked_torn_down. Qed.

#[local] Hint Resolve tracked_safeSetTimeout tracked_safeSetInterval tracked_setTimeout_retry
  tracked_clearSafeInterval tracked_clearSafeTimeout tracked_cleanupResources : pres.

Lemma tracked_run_getcb cb r : preserves tracked_inv (run_getcb cb r).
Proof. pres_with assumption. Qed.
#[local] Hint Resolve tracked_run_getcb : pres.

Lemma tracked_safeGet keys cb r : preserves tracked_inv (safeGet keys cb r).
Proof. pres_with assumption. Qed.
#[local] Hint Resolve tracked_safeGet : pres.

Lemma tracked_run_thunk self t : preserves tracked_inv (run_thunk self t).
Proof. pres_with assumption. Qed.
#[local] Hint Resolve tracked_run_thunk : pres.

Lemma tracked_complete_io t : preserves tracked_inv (complete_io t).
Proof. pres_with assumption. Qed.

Lemma tracked_message_listener request chan :
  preserves tracked_inv (message_listener request chan).
Proof. pres_with assumption. Qed.

Lemma tracked_observer_callback obs : preserves tracked_inv (observer_callback obs).
Proof. pres_with assumption. Qed.

Lemma tracked_clickHandler : preserves tracked_inv clickHandler.
Proof. pres_with assumption. Qed.

Lemma tracked_load_listener_body : preserves tracked_inv load_listener_body.
Proof. pres_with assumption. Qed.

Lemma tracked_error_listener_body m : preserves tracked_inv (error_listener_body m).
Proof. pres_with assumption. Qed.

Lemma tracked_content_script : preserves tracked_inv content_script.
Proof. pres_with assumption. Qed.

Lemma find_timer_Some (id : nat) (l : list Timer) (t : Timer) :
  find_timer id l = Some t -> t ∈ l /\ t_id t = id.
Proof.
  unfold find_timer. intros H. apply List.find_some in H as [Hin Hid].
  split; [by apply list_elem_of_In | by apply bool_decide_eq_true in Hid].
Qed.

Lemma find_timer_None (id : nat) (l : list Timer) :
  (forall t, t ∈ l -> t_id t <> id) -> find_timer id l = None.
Proof.
  intros H. unfold find_timer. destruct (List.find _ l) as [t|] eqn:E; [|done].
  apply List.find_some in E as [Hin Hid].
  apply list_elem_of_In in Hin. apply bool_decide_eq_true in Hid. by destruct (H t Hin).
Qed.

Lemma elem_of_reschedule (t' : Timer) (id : nat) (due : Z) (l : list Timer) :
  t' ∈ reschedule id due l ->
  exists t, t ∈ l /\ t_id t' = t_id t /\ t_body t' = t_body t /\ t_period t' = t_period t.
Proof.
  unfold reschedule. intros H. apply list_elem_of_fmap in H as [t [-> Hin]].
  exists t. split; [done|]. destruct (bool_decide (t_id t = id)); done.
Qed.

Lemma tracked_drop (id : nat) (w : World) :
  tracked_inv w ->
  tracked_inv (on_host (fun h => set_host_timers (drop_timer id (host_timers h)) h) w).
Proof.
  intros H t. wsimpl. intros Hin. apply elem_of_drop_timer in Hin as [Hin _]. exact (H t Hin).
Qed.

Lemma tracked_reschedule (id : nat) (f : Host -> Z) (w : World) :
  tracked_inv w ->
  tracked_inv (on_host (fun h => set_host_timers (reschedule id (f h) (host_timers h)) h) w).
Proof.
  intros H t'. wsimpl. intros Hin.
  apply elem_of_reschedule in Hin as (t & Hin & Hid & Hb & Hp).
  specialize (H t Hin). rewrite Hid, Hb, Hp. exact H.
Qed.

Lemma tracked_fire_body_interval id cb :
  preserves tracked_inv (fire_body id (TrackedInterval cb)).
Proof. pres_with assumption. Qed.

Lemma tracked_fire (id : nat) (w : World) : tracked_inv w -> tracked_inv (fire id w).
Proof.
  intros H. unfold fire.
  destruct (find_timer id (host_timers (host w))) as [t|] eqn:Ef; [|exact H].
  destruct (t_due t <=? clock (host w))%Z; [|exact H].
  apply find_timer_Some in Ef as [Hin Hid].
  pose proof (H t Hin) as Ht.
  destruct (t_body t) as [keys cb r|cb|cb] eqn:Eb.
  - apply preserves_settle; [done | apply tracked_safeGet |].
    destruct (t_period t); [by apply tracked_reschedule | by apply tracked_drop].
  - destruct Ht as [-> _].
    unfold fire_body. mrun.
    set (w1 := on_script _ _).
    assert (H1 : tracked_inv w1).
    { intros t' Hin'. subst w1. wsimpl. wsimpl.
      apply elem_of_drop_timer in Hin' as [Hin' Hne].
      specialize (H t' Hin'). destruct (t_body t'); [done| |done].
      destruct H as [Hp [H|H]]; (split; [done|]); [left|right; done].
      by apply elem_of_remove_first. }
    pose proof (tracked_run_thunk id cb w1 H1) as H2.
    destruct (run_thunk id cb w1); exact H2.
  - apply preserves_settle; [done | apply tracked_fire_body_interval |].
    destruct (t_period t); [by apply tracked_reschedule | by apply tracked_drop].
Qed.

Lemma tracked_step (e : Event) (w : World) : tracked_inv w -> tracked_inv (step e w).
Proof.
  apply step_inv; try done; intros;
    first [ by apply tracked_fire
          | by (apply complete_inv; try done; intros; pres_with assumption)
          | by (apply preserves_settle; [done | pres_with assumption | done])
          | pres_with assumption ].
Qed.

Lemma tracked_run_events (es : list Event) (w : World) :
  tracked_inv w -> tracked_inv (run_events es w).
Proof. apply run_events_inv. intros e w'. apply tracked_step. Qed.

Lemma tracked_reachable (w : World) : reachable w -> tracked_inv w.
Proof.
  intros (h & d & es & Hh & _ & _ & ->). apply tracked_run_events.
  unfold boot. apply preserves_settle; [done | apply tracked_content_script |].
  intros t. cbn. rewrite Hh. intros Hin. inversion Hin.
Qed.

(** *** Timer ids *)

Lemma reschedule_ids (id : nat) (due : Z) (l : list Timer) :
  t_id <$> reschedule id due l = t_id <$> l.
Proof.
  unfold reschedule. rewrite <- list_fmap_compose. apply list_fmap_ext.
  intros i t _. simpl. destruct (bool_decide (t_id t = id)); done.
Qed.

Lemma timers_wf_setTimeout b delay : preserves timers_wf (setTimeout b delay).
Proof.
  intros w (H0 & Hb & Hn). unfold setTimeout, timers_wf. wsimpl. repeat split.
  - lia.
  - apply elem_of_app in H as [H|H]; [apply Hb in H; lia|].
    apply list_elem_of_singleton in H as ->. simpl. lia.
  - apply elem_of_app in H as [H|H]; [apply Hb in H; lia|].
    apply list_elem_of_singleton in H as ->. simpl. lia.
  - rewrite fmap_app. apply NoDup_app. split; [exact Hn|]. split; [|apply NoDup_singleton].
    intros x Hx Hx'. apply list_elem_of_fmap in Hx as [t [-> Hin]].
    apply list_elem_of_singleton in Hx'. simpl in Hx'. apply Hb in Hin. lia.
Qed.

Lemma timers_wf_setInterval b delay : preserves timers_wf (setInterval b delay).
Proof.
  intros w (H0 & Hb & Hn). unfold setInterval, timers_wf. wsimpl. repeat split.
  - lia.
  - apply elem_of_app in H as [H|H]; [apply Hb in H; lia|].
    apply list_elem_of_singleton in H as ->. simpl. lia.
  - apply elem_of_app in H as [H|H]; [apply Hb in H; lia|].
    apply list_elem_of_singleton in H as ->. simpl. lia.
  - rewrite fmap_app. apply NoDup_app. split; [exact Hn|]. split; [|apply NoDup_singleton].
    intros x Hx Hx'. apply list_elem_of_fmap in Hx as [t [-> Hin]].
    apply list_elem_of_singleton in Hx'. simpl in Hx'. apply Hb in Hin. lia.
Qed.

Lemma timers_wf_drop (id : nat) (w : World) :
  timers_wf w ->
  timers_wf (on_host (fun h => set_host_timers (drop_timer id (host_timers h)) h) w).
Proof.
  intros (H0 & Hb & Hn). unfold timers_wf. repeat split; wsimpl; try done.
  - apply elem_of_drop_timer in H as [H _]. apply Hb in H. lia.
  - apply elem_of_drop_timer in H as [H _]. apply Hb in H. lia.
  - eapply sublist_NoDup; [exact Hn|]. apply fmap_sublist, sublist_filter.
Qed.

Lemma timers_wf_reschedule (id : nat) (f : Host -> Z) (w : World) :
  timers_wf w ->
  timers_wf (on_host (fun h => set_host_timers (reschedule id (f h) (host_timers h)) h) w).
Proof.
  intros (H0 & Hb & Hn). unfold timers_wf. repeat split; wsimpl; try done.
  - apply elem_of_reschedule in H as (t' & Hin & -> & _). apply Hb in Hin. lia.
  - apply elem_of_reschedule in H as (t' & Hin & -> & _). apply Hb in Hin. lia.
  - by rewrite reschedule_ids.
Qed.

#[local] Hint Resolve timers_wf_setTimeout timers_wf_setInterval : pres.

Ltac timers_wf_leaf := first [ assumption | by apply timers_wf_drop ].

Lemma timers_wf_fire (id : nat) (w : World) : timers_wf w -> timers_wf (fire id w).
Proof.
  apply fire_inv; try done; intros;
    first [ by apply timers_wf_drop | by apply timers_wf_reschedule
          | pres_with timers_wf_leaf ].
Qed.

Lemma timers_wf_step (e : Event) (w : World) : timers_wf w -> timers_wf (step e w).
Proof.
  apply step_inv; try done; intros;
    first [ by apply timers_wf_fire
          | by (apply complete_inv; try done; intros; pres_with timers_wf_leaf)
          | by (apply preserves_settle; [done | pres_with timers_wf_leaf | done])
          | pres_with timers_wf_leaf ].
Qed.

Lemma timers_wf_reachable (w : World) : reachable w -> timers_wf w.
Proof.
  intros (h & d & es & Hh & _ & H0 & ->). apply run_events_inv; [apply timers_wf_step|].
  unfold boot. apply preserves_settle; [done | pres_with timers_wf_leaf |].
  split; [exact H0|]. split.
  - intros t Hin. cbn in Hin. rewrite Hh in Hin. inversion Hin.
  - cbn. rewrite Hh. constructor.
Qed.

Lemma retired_setTimeout id b delay : preserves (retired id) (setTimeout b delay).
Proof.
  intros w (H0 & Hb). unfold setTimeout, retired. wsimpl. split; [lia|].
  intros t H. apply elem_of_app in H as [H|H]; [by apply Hb|].
  apply list_elem_of_singleton in H as ->. simpl. lia.
Qed.

Lemma retired_setInterval id b delay : preserves (retired id) (setInterval b delay).
Proof.
  intros w (H0 & Hb). unfold setInterval, retired. wsimpl. split; [lia|].
  intros t H. apply elem_of_app in H as [H|H]; [by apply Hb|].
  apply list_elem_of_singleton in H as ->. simpl. lia.
Qed.

Lemma retired_drop (id id' : nat) (w : World) :
  retired id w ->
  retired id (on_host (fun h => set_host_timers (drop_timer id' (host_timers h)) h) w).
Proof.
  intros (H0 & Hb). split; [exact H0|]. wsimpl. intros t H.
  apply elem_of_drop_timer in H as [H _]. by apply Hb.
Qed.

Lemma retired_reschedule (id id' : nat) (f : Host -> Z) (w : World) :
  retired id w ->
  retired id (on_host (fun h => set_host_timers (reschedule id' (f h) (host_timers h)) h) w).
Proof.
  intros (H0 & Hb). split; [exact H0|]. wsimpl. intros t H.
  apply elem_of_reschedule in H as (t' & Hin & -> & _). by apply Hb.
Qed.

#[local] Hint Resolve retired_setTimeout retired_setInterval : pres.

Ltac retired_leaf := first [ assumption | by apply retired_drop ].

Lemma retired_fire (id id' : nat) (w : World) : retired id w -> retired id (fire id' w).
Proof.
  apply fire_inv; try done; intros;
    first [ by apply retired_drop | by apply retired_reschedule
          | pres_with retired_leaf ].
Qed.

Lemma retired_step (id : nat) (e : Event) (w : World) : retired id w -> retired id (step e w).
Proof.
  apply step_inv; try done; intros;
    first [ by apply retired_fire
          | by (apply complete_inv; try done; intros; pres_with retired_leaf)
          | by (apply preserves_settle; [done | pres_with retired_leaf | done])
          | pres_with retired_leaf ].
Qed.

(** A retired id is never pending again, whatever happens next. *)
Lemma retired_forever (id : nat) (es : list Event) (w : World) :
  retired id w -> retired id (run_events es w).
Proof. apply run_events_inv. apply retired_step. Qed.

(** *** Teardown *)

Lemma disconnect_one_other (objs : gmap nat Observer) (obs k : nat) (o : Observer) :
  objs !! k = Some o ->
  exists o', disconnect_one objs obs !! k = Some o' /\
             disconnect_throws o' = disconnect_throws o /\
             (connected o = false -> connected o' = false).
Proof.
  intros Hk. unfold disconnect_one.
  destruct (objs !! obs) as [o1|] eqn:E; [|by exists o].
  destruct (disconnect_throws o1) eqn:Et; [by exists o|].
  destruct (decide (obs = k)) as [->|Hne].
  - rewrite lookup_insert_eq. eexists. split; [reflexivity|]. simpl.
    rewrite Hk in E. injection E as ->. done.
  - rewrite lookup_insert_ne by done. by exists o.
Qed.

Lemma foldl_disconnect_keeps (obss : list nat) (objs : gmap nat Observer) (k : nat)
    (o : Observer) :
  objs !! k = Some o ->
  exists o', foldl disconnect_one objs obss !! k = Some o' /\
             disconnect_throws o' = disconnect_throws o /\
             (connected o = false -> connected o' = false).
Proof.
  revert objs o. induction obss as [|obs obss IH]; intros objs o Hk; cbn [foldl].
  - by exists o.
  - destruct (disconnect_one_other objs obs k o Hk) as (o1 & H1 & Ht1 & Hc1).
    destruct (IH _ _ H1) as (o2 & H2 & Ht2 & Hc2).
    exists o2. split; [exact H2|]. split; [congruence | auto].
Qed.

(** Every registered observer whose [disconnect] works ends disconnected,
    whatever the other handles do. *)
Lemma foldl_disconnect_done (obss : list nat) (objs : gmap nat Observer) (obs : nat)
    (o : Observer) :
  obs ∈ obss -> objs !! obs = Some o -> disconnect_throws o = false ->
  exists o', foldl disconnect_one objs obss !! obs = Some o' /\ connected o' = false.
Proof.
  revert objs o. induction obss as [|x obss IH]; intros objs o Hin Hk Ht; [inversion Hin|].
  cbn [foldl]. apply elem_of_cons in Hin as [<-|Hin].
  - assert (H1 : disconnect_one objs obs !! obs
                 = Some (mkObserver false (disconnect_throws o) (obs_timeout o))).
    { unfold disconnect_one. rewrite Hk, Ht. by rewrite lookup_insert_eq. }
    destruct (foldl_disconnect_keeps obss _ obs _ H1) as (o' & H2 & _ & Hc).
    exists o'. split; [exact H2 | by apply Hc].
  - destruct (disconnect_one_other objs x obs o Hk) as (o1 & H1 & Ht1 & _).
    apply (IH _ o1 Hin H1). congruence.
Qed.

Lemma torn_down_idem (w : World) : torn_down (torn_down w) = torn_down w.
Proof. reflexivity. Qed.

Lemma fire_retired (id : nat) (w : World) : retired id w -> fire id w = w.
Proof.
  intros [_ H]. unfold fire. by rewrite (find_timer_None id _ H).
Qed.

(** A registered timer that can be cancelled is retired by the teardown. *)
Lemma torn_down_retires (id : nat) (w : World) :
  timers_wf w ->
  (exists t, t ∈ host_timers (host w) /\ t_id t = id) ->
  id ∈ timeouts (script w) \/ id ∈ intervals (script w) ->
  id ∉ cancel_faults (host w) ->
  retired id (torn_down w).
Proof.
  intros (_ & Hb & _) (t & Hin & <-) Hreg Hbad. split.
  - unfold torn_down. wsimpl. apply Hb in Hin. lia.
  - unfold torn_down. wsimpl. intros t' Hin' Heq.
    apply elem_of_sweep in Hin' as [Hin' Hto].
    apply elem_of_sweep in Hin' as [_ Hiv].
    rewrite Heq in Hto, Hiv. destruct Hreg as [Hreg|Hreg]; auto.
Qed.


Lemma started_reachable (st : gmap string bool) : reachable (started st).
Proof.
  exists (host0 st), page0, [Advance 200; Fire 2; Io 0].
  split; [reflexivity|]. split; [reflexivity|]. split; [simpl; lia | reflexivity].
Qed.


(** On the running page: three tracked timers and a connected observer
    before, nothing pending and nothing connected after. *)
Example teardown_started :
  let w := started ∅ in
  let w' := settle (cleanupResources w) in
  (t_id <$> host_timers (host w) = [1; 3; 4]%nat /\
   connected <$> (observer_objs (script w) !! 0%nat) = Some true) /\
  (host_timers (host w') = [] /\
   connected <$> (observer_objs (script w') !! 0%nat) = Some false /\
   timeouts (script w') = [] /\ intervals (script w') = [] /\ observers (script w') = []).
Proof. vm_compute. repeat split; reflexivity. Qed.

(** One handle that cannot be cancelled does not protect the others. *)
Example teardown_isolates_failure :
  let h := mkHost healthy [] [] [3%nat] ∅ [] 0 1 [] in
  let w := run_events [Advance 200; Fire 2; Io 0] (boot h page0) in
  let w' := settle (cleanupResources w) in
  t_id <$> host_timers (host w) = [1; 3; 4]%nat /\
  t_id <$> host_timers (host w') = [3%nat] /\
  uncaught (ghost w') = uncaught (ghost w).
Proof. vm_compute. repeat split; reflexivity. Qed.

(** ** Idempotence of the visibility policy *)

Lemma doc_ext (d1 d2 : Document) :
  body d1 = body d2 -> readyState d1 = readyState d2 -> classList d1 = classList d2 ->
  replacement d1 = replacement d2 -> elems d1 = elems d2 -> d1 = d2.
Proof. destruct d1, d2. cbn. by intros -> -> -> -> ->. Qed.

Lemma map_idem {A} (g : A -> A) (l : list A) :
  (forall x, g (g x) = g x) -> map g (map g l) = map g l.
Proof. intros H. rewrite map_map. apply map_ext. exact H. Qed.

Lemma map_fix {A} (g : A -> A) (l : list A) :
  (forall x, x ∈ l -> g x = x) -> map g l = l.
Proof.
  intros H. induction l as [|x l IH]; [done|]. cbn. f_equal.
  - apply H. by left.
  - apply IH. intros y Hy. apply H. by right.
Qed.

Lemma elem_of_classList_add (x c : string) (l : list string) :
  x ∈ classList_add c l <-> x = c \/ x ∈ l.
Proof.
  unfold classList_add. destruct (decide (c ∈ l)) as [Hin|Hin].
  - split; [tauto | intros [->|H]; done].
  - rewrite elem_of_app, list_elem_of_singleton. tauto.
Qed.

Lemma elem_of_classList_remove (x c : string) (l : list string) :
  x ∈ classList_remove c l <-> x <> c /\ x ∈ l.
Proof. unfold classList_remove. rewrite list_elem_of_filter. tauto. Qed.

Lemma classList_add_in (c : string) (l : list string) : c ∈ l -> classList_add c l = l.
Proof. intros H. unfold classList_add. by rewrite decide_True. Qed.

Lemma classList_remove_notin (c : string) (l : list string) :
  c ∉ l -> classList_remove c l = l.
Proof.
  intros H. unfold classList_remove. induction l as [|x l IH]; [done|].
  rewrite filter_cons. destruct (decide (x <> c)) as [Hne|Heq].
  - f_equal. apply IH. intros Hin. apply H. by right.
  - destruct H. apply dec_stable in Heq. subst. by left.
Qed.

Lemma policy_classes_spec (b : bool) (l : list string) :
  (if b then "feed-blocker-active" else "feed-blocker-disabled") ∈ policy_classes b l /\
  (if b then "feed-blocker-disabled" else "feed-blocker-active") ∉ policy_classes b l.
Proof.
  destruct b; unfold policy_classes; split.
  - apply elem_of_classList_remove. split; [done|]. apply elem_of_classList_add. by left.
  - intros H. apply elem_of_classList_remove in H as [H _]. done.
  - apply elem_of_classList_remove. split; [done|]. apply elem_of_classList_add. by left.
  - intros H. apply elem_of_classList_remove in H as [H _]. done.
Qed.

Lemma policy_classes_fix (b : bool) (l : list string) :
  (if b then "feed-blocker-active" else "feed-blocker-disabled") ∈ l ->
  (if b then "feed-blocker-disabled" else "feed-blocker-active") ∉ l ->
  policy_classes b l = l.
Proof.
  intros Ha Hr. destruct b; unfold policy_classes;
    rewrite (classList_add_in _ _ Ha); by apply classList_remove_notin.
Qed.

(** [applyChanges], field by field. *)
Lemma applyChanges_fields (b : bool) (d : Document) :
  body (applyChanges b d) = body d /\
  readyState (applyChanges b d) = readyState d /\
  classList (applyChanges b d)
    = (if body d then policy_classes b (classList d) else classList d) /\
  replacement (applyChanges b d)
    = (if body d then policy_placeholder b <$> replacement d else replacement d) /\
  elems (applyChanges b d) = (if body d then map (policy_element b) (elems d) else elems d).
Proof.
  destruct d as [[] rs cl [r|] els], b; cbn; repeat split; reflexivity.
Qed.

(** The feed block of the reconciliation pass, field by field. *)
Lemma reconcile_feed_fields (b : bool) (d : Document) :
  body (reconcile_feed b d) = body d /\
  readyState (reconcile_feed b d) = readyState d /\
  classList (reconcile_feed b d)
    = (if body d then policy_classes b (classList d) else classList d) /\
  replacement (reconcile_feed b d)
    = (if body d then policy_placeholder b <$> replacement d else replacement d) /\
  elems (reconcile_feed b d) = (if body d then map (pass_element b) (elems d) else elems d).
Proof.
  destruct d as [[] rs cl [r|] els], b; cbn; repeat split; reflexivity.
Qed.

Lemma reconcile_news_fields (d : Document) :
  body (reconcile_news d) = body d /\
  readyState (reconcile_news d) = readyState d /\
  classList (reconcile_news d)
    = (if body d then classList_add "news-blocker-active" (classList d) else classList d) /\
  replacement (reconcile_news d) = replacement d /\
  elems (reconcile_news d) = (if body d then map news_element (elems d) else elems d).
Proof.
  destruct d as [[] rs cl [r|] els]; cbn; repeat split; reflexivity.
Qed.

Lemma hasAttribute_true (n : string) (e : Element) (v : string) :
  attrs e !! n = Some v -> hasAttribute n e = true.
Proof. intros H. unfold hasAttribute. apply bool_decide_eq_true. eauto. Qed.

Lemma hasAttribute_false (n : string) (e : Element) :
  attrs e !! n = None -> hasAttribute n e = false.
Proof.
  intros H. unfold hasAttribute. apply bool_decide_eq_false. rewrite H. by intros [? ?].
Qed.

Lemma hasAttribute_cases (n : string) (e : Element) :
  (hasAttribute n e = true /\ exists v, attrs e !! n = Some v) \/
  (hasAttribute n e = false /\ attrs e !! n = None).
Proof.
  destruct (attrs e !! n) as [v|] eqn:E.
  - left. split; [by apply (hasAttribute_true n e v) | by exists v].
  - right. split; [by apply hasAttribute_false | done].
Qed.

(** What one application leaves on an element is converged. *)
Lemma policy_element_converged (b : bool) (e : Element) :
  matches_feed e = true -> converged_element b (policy_element b e).
Proof.
  intros Hm. unfold policy_element. rewrite Hm. destruct e, b; cbn.
  - split; [done | apply lookup_insert_eq].
  - repeat split; try done. apply lookup_delete_eq.
Qed.

Lemma policy_element_matches (b : bool) (e : Element) :
  matches_feed (policy_element b e) = matches_feed e.
Proof.
  unfold policy_element. destruct (matches_feed e) eqn:E; [|done].
  destruct e, b; exact E.
Qed.

(** A converged element is left alone, by the policy and by the pass. *)
Lemma policy_element_fix (b : bool) (e : Element) :
  (matches_feed e = true -> converged_element b e) -> policy_element b e = e.
Proof.
  intros H. unfold policy_element. destruct (matches_feed e) eqn:E; [|done].
  specialize (H eq_refl). destruct e, b; cbn in *.
  - destruct H as [-> H]. by rewrite (insert_id _ _ _ H).
  - destruct H as (-> & -> & -> & H). by rewrite (delete_id _ _ H).
Qed.

Lemma pass_element_fix (b : bool) (e : Element) :
  (matches_feed e = true -> converged_element b e) -> pass_element b e = e.
Proof.
  intros H. unfold pass_element. destruct (matches_feed e) eqn:E; [|done].
  specialize (H eq_refl). destruct b; cbn in H.
  - destruct H as [_ H]. by rewrite (hasAttribute_true _ _ _ H).
  - destruct H as (_ & _ & _ & H). by rewrite (hasAttribute_false _ _ H).
Qed.

Lemma applyChanges_converged (b : bool) (d : Document) : converged b (applyChanges b d).
Proof.
  destruct (applyChanges_fields b d) as (H1 & _ & H3 & H4 & H5).
  intros Hb. rewrite H1 in Hb. rewrite H3, H4, H5, Hb. split; [|split].
  - apply policy_classes_spec.
  - intros r Hr. destruct (replacement d) as [r0|]; [|done].
    cbn in Hr. injection Hr as <-. destruct r0, b; reflexivity.
  - intros e He Hm. apply list_elem_of_fmap in He as [e0 [-> He0]].
    apply policy_element_converged. by rewrite policy_element_matches in Hm.
Qed.

Lemma converged_fix (b : bool) (d : Document) :
  converged b d -> applyChanges b d = d /\ reconcile_feed b d = d.
Proof.
  intros H.
  destruct (applyChanges_fields b d) as (H1 & H2 & H3 & H4 & H5).
  destruct (reconcile_feed_fields b d) as (G1 & G2 & G3 & G4 & G5).
  destruct (body d) eqn:Hb.
  - destruct (H Hb) as ([Ha Hr] & Hp & He).
    assert (Hrep : policy_placeholder b <$> replacement d = replacement d).
    { destruct (replacement d) as [r|] eqn:Er; [|done]. cbn. f_equal.
      specialize (Hp r eq_refl). unfold policy_placeholder. destruct r. cbn in *.
      by rewrite Hp. }
    split; apply doc_ext; rewrite ?H1, ?H2, ?H3, ?H4, ?H5, ?G1, ?G2, ?G3, ?G4, ?G5, ?Hb;
      try done; try (by apply policy_classes_fix).
    + apply map_fix. intros e Hin. apply policy_element_fix. by apply He.
    + apply map_fix. intros e Hin. apply pass_element_fix. by apply He.
  - split; apply doc_ext; rewrite ?H1, ?H2, ?H3, ?H4, ?H5, ?G1, ?G2, ?G3, ?G4, ?G5, ?Hb; done.
Qed.

Lemma show_feed_idem (e : Element) :
  safeManipulateElement show_feed (safeManipulateElement show_feed e)
  = safeManipulateElement show_feed e.
Proof.
  destruct e. unfold safeManipulateElement, show_feed, opt_apply. cbn.
  unfold with_attrs. cbn. f_equal. apply delete_delete_eq.
Qed.

Lemma set_display_idem (v : string) (e : Element) :
  safeManipulateElement (set_display v) (safeManipulateElement (set_display v) e)
  = safeManipulateElement (set_display v) e.
Proof. destruct e. reflexivity. Qed.

Lemma reconcile_fields (f n : bool) (d : Document) :
  body (reconcile f n d) = body d /\
  readyState (reconcile f n d) = readyState d /\
  classList (reconcile f n d)
    = (if body d
       then policy_classes f (if n then classList_add "news-blocker-active" (classList d)
                              else classList d)
       else classList d) /\
  replacement (reconcile f n d)
    = (if body d then policy_placeholder f <$> replacement d else replacement d) /\
  elems (reconcile f n d)
    = (if body d
       then map (fun e => pass_element f (if n then news_element e else e)) (elems d)
       else elems d).
Proof.
  destruct d as [[] rs cl [r|] els], f, n; cbn; rewrite ?map_map; repeat split; reflexivity.
Qed.

Lemma manipulate_sel (a : Actions) (e : Element) :
  sel_news (safeManipulateElement a e) = sel_news e /\
  matches_feed (safeManipulateElement a e) = matches_feed e.
Proof. destruct a as [[?|] [?|] [?|] [?|] [?|]], e; split; reflexivity. Qed.

Lemma marked_hide_feed (e : Element) :
  hasAttribute marker (safeManipulateElement hide_feed e) = true.
Proof. apply (hasAttribute_true _ _ "true"). destruct e. apply lookup_insert_eq. Qed.

Lemma marked_hide_news (e : Element) :
  hasAttribute marker (safeManipulateElement hide_news e) = true.
Proof. apply (hasAttribute_true _ _ "true"). destruct e. apply lookup_insert_eq. Qed.

Lemma unmarked_show_feed (e : Element) :
  hasAttribute marker (safeManipulateElement show_feed e) = false.
Proof. apply hasAttribute_false. destruct e. apply lookup_delete_eq. Qed.

Lemma show_after_hide_news (e : Element) :
  safeManipulateElement show_feed (safeManipulateElement hide_news e)
  = safeManipulateElement show_feed e.
Proof.
  destruct e. unfold safeManipulateElement, show_feed, hide_news, opt_apply. cbn.
  unfold with_attrs. cbn. f_equal. apply delete_insert_eq.
Qed.

(** The pass on one element, by the element's selectors and marker. *)
Lemma news_element_cases (e : Element) :
  news_element e
  = if sel_news e && negb (hasAttribute marker e)
    then safeManipulateElement hide_news e else e.
Proof. unfold news_element. by destruct (sel_news e), (hasAttribute marker e). Qed.

Lemma pass_news_idem (f n : bool) (e : Element) :
  let h := fun e => pass_element f (if n then news_element e else e) in
  h (h e) = h e.
Proof.
  cbn zeta.
  assert (Hpass : forall x, pass_element f (pass_element f x) = pass_element f x).
  { intros x. unfold pass_element at 2 3.
    destruct (matches_feed x) eqn:Em; [|unfold pass_element; by rewrite Em].
    destruct f, (hasAttribute marker x) eqn:Ea; cbn [negb];
      unfold pass_element;
      rewrite ?(proj2 (manipulate_sel _ _)), ?Em, ?marked_hide_feed, ?unmarked_show_feed, ?Ea;
      reflexivity. }
  destruct n; [|apply Hpass].
  rewrite (news_element_cases e).
  destruct (sel_news e) eqn:En; cbn [andb].
  2:{ (* not a news element: the news block never touches it *)
      assert (Hn : forall x, sel_news x = false -> news_element x = x)
        by (intros x Hx; unfold news_element; by rewrite Hx).
      rewrite Hn; [apply Hpass|].
      unfold pass_element. destruct (matches_feed e); [|exact En].
      destruct f, (hasAttribute marker e); cbn [negb];
        rewrite ?(proj1 (manipulate_sel _ _)); exact En. }
  destruct (hasAttribute marker e) eqn:Ea; cbn [negb].
  - (* already marked: the news block skips it, before and after *)
    assert (Hskip : forall x, hasAttribute marker x = true -> news_element x = x).
    { intros x Hx. rewrite news_element_cases, Hx. by rewrite andb_false_r. }
    destruct (matches_feed e) eqn:Em.
    + destruct f.
      * assert (Hp : pass_element true e = e)
          by (unfold pass_element; by rewrite Em, Ea).
        rewrite Hp, (Hskip e Ea). exact Hp.
      * assert (Hp : pass_element false e = safeManipulateElement show_feed e)
          by (unfold pass_element; by rewrite Em, Ea).
        rewrite Hp.
        rewrite (news_element_cases (safeManipulateElement show_feed e)).
        rewrite (proj1 (manipulate_sel _ _)), En, unmarked_show_feed. cbn [andb negb].
        unfold pass_element.
        rewrite (proj2 (manipulate_sel _ _)), (proj2 (manipulate_sel _ _)), Em.
        rewrite marked_hide_news. rewrite show_after_hide_news. apply show_feed_idem.
    + assert (Hp : forall x, matches_feed x = false -> pass_element f x = x)
        by (intros x Hx; unfold pass_element; by rewrite Hx).
      rewrite (Hp e Em), (Hskip e Ea). by apply Hp.
  - (* unmarked news element: hidden and marked by the news block *)
    set (e1 := safeManipulateElement hide_news e).
    assert (E1m : hasAttribute marker e1 = true) by apply marked_hide_news.
    assert (E1n : sel_news e1 = true) by (subst e1; by rewrite (proj1 (manipulate_sel _ _))).
    assert (E1f : matches_feed e1 = matches_feed e)
      by (subst e1; apply (proj2 (manipulate_sel _ _))).
    destruct (matches_feed e) eqn:Em.
    + destruct f.
      * assert (Hp : pass_element true e1 = e1)
          by (unfold pass_element; by rewrite E1f, E1m).
        rewrite Hp. rewrite (news_element_cases e1), E1m, andb_false_r. exact Hp.
      * assert (Hp : pass_element false e1 = safeManipulateElement show_feed e)
          by (unfold pass_element; rewrite E1f, E1m; apply show_after_hide_news).
        rewrite Hp.
        rewrite (news_element_cases (safeManipulateElement show_feed e)).
        rewrite (proj1 (manipulate_sel _ _)), En, unmarked_show_feed. cbn [andb negb].
        unfold pass_element.
        rewrite (proj2 (manipulate_sel _ _)), (proj2 (manipulate_sel _ _)), Em.
        rewrite marked_hide_news. rewrite show_after_hide_news. apply show_feed_idem.
    + assert (Hp : forall x, matches_feed x = false -> pass_element f x = x)
        by (intros x Hx; unfold pass_element; by rewrite Hx).
      rewrite (Hp e1 E1f).
      rewrite (news_element_cases e1), E1m, andb_false_r. by apply Hp.
Qed.

Lemma reconcile_idem (f n : bool) (d : Document) :
  reconcile f n (reconcile f n d) = reconcile f n d.
Proof.
  destruct (reconcile_fields f n d) as (H1 & H2 & H3 & H4 & H5).
  destruct (reconcile_fields f n (reconcile f n d)) as (G1 & G2 & G3 & G4 & G5).
  apply doc_ext; rewrite ?G1, ?G2, ?G3, ?G4, ?G5, ?H1, ?H2, ?H3, ?H4, ?H5; try done.
  - destruct (body d); [|done].
    set (l := if n then classList_add "news-blocker-active" (classList d) else classList d).
    destruct (policy_classes_spec f l) as [Ha Hr].
    assert (Hn : (if n then classList_add "news-blocker-active" (policy_classes f l)
                  else policy_classes f l) = policy_classes f l).
    { destruct n; [|done]. apply classList_add_in.
      subst l. destruct f; unfold policy_classes;
        apply elem_of_classList_remove; (split; [done|]);
        apply elem_of_classList_add; right; apply elem_of_classList_add; by left. }
    rewrite Hn. by apply policy_classes_fix.
  - destruct (body d); [|done]. destruct (replacement d) as [r|]; [|done].
    cbn. f_equal; apply set_display_idem.
  - destruct (body d); [|done].
    apply (map_idem (fun e => pass_element f (if n then news_element e else e))).
    intros e. apply (pass_news_idem f n e).
Qed.

(** [safeSet] catches everything. *)
Lemma safeSet_never_throws data cb (w : World) : threw (safeSet data cb w) = None.
Proof.
  unfold safeSet, try_catch.
  match goal with |- threw (match ?m with _ => _ end) = _ => destruct m end; reflexivity.
Qed.

Lemma safeSet_doc (d : Document) data cb : preserves (fun w => doc w = d) (safeSet data cb).
Proof. pres_with assumption. Qed.

Lemma safeSet_chrome (c : Chrome) data cb :
  preserves (fun w => chrome (host w) = c) (safeSet data cb).
Proof. pres_with assumption. Qed.

Lemma updateBlockerState_chrome (c : Chrome) b :
  preserves (fun w => chrome (host w) = c) (updateBlockerState b).
Proof. pres_with assumption. Qed.

(** The DOM effect of [updateBlockerState]: one application of the policy
    when the guard passes, nothing otherwise. *)
Lemma updateBlockerState_doc (b : bool) (w : World) :
  doc (world_of (updateBlockerState b w))
  = if available (chrome (host w)) then applyChanges b (doc w) else doc w.
Proof.
  unfold updateBlockerState, isChromeAPIAvailable. mrun.
  destruct (available (chrome (host w))); mrun; [|done].
  pose proof (safeSet_doc (doc w) {[ "feedBlockerEnabled" := b ]} None w eq_refl) as Hd.
  pose proof (safeSet_never_throws {[ "feedBlockerEnabled" := b ]} None w) as Ht.
  destruct (safeSet _ None w) as [r w1|e w1]; cbn in Hd, Ht; [|discriminate].
  assert (Ha : applyChanges b (doc w1) = applyChanges b (doc w)) by (by rewrite Hd).
  assert (Hn : body (doc w1) = false -> doc w1 = applyChanges b (doc w)).
  { intros Hb. rewrite <- Ha. unfold applyChanges. by rewrite Hb. }
  unfold safeSetTimeout, setTimeout, add_dcl_once. mrun.
  destruct (body (doc w1)) eqn:Eb; mrun;
    match goal with
    | |- context [match readyState ?x with _ => _ end] => destruct (readyState x)
    end; mrun; first [exact Ha | by apply Hn].
Qed.

(** C7.  Applying the feed policy is idempotent on the DOM, where a DOM
    mutation is a change of the DOM's state (body classes, placeholder
    style, style and marker attribute of every element).  For either value
    of [isEnabled] and any DOM [d]: one application of [applyChanges]
    leaves a converged DOM; on a converged DOM neither [applyChanges] nor
    the feed block of the observer's reconciliation pass changes anything;
    so applying twice equals applying once, for [applyChanges], for the
    whole reconciliation pass (with or without its news block) and for two
    calls of [updateBlockerState] in a row. *)
Theorem C7_policy_idempotent (isEnabled : bool) (w : World) :
  let d := doc w in
  converged isEnabled (applyChanges isEnabled d) /\
  (forall d', converged isEnabled d' ->
     applyChanges isEnabled d' = d' /\ reconcile_feed isEnabled d' = d') /\
  applyChanges isEnabled (applyChanges isEnabled d) = applyChanges isEnabled d /\
  reconcile_feed isEnabled (applyChanges isEnabled d) = applyChanges isEnabled d /\
  (forall newsEnabled,
     reconcile isEnabled newsEnabled (reconcile isEnabled newsEnabled d)
     = reconcile isEnabled newsEnabled d) /\
  doc (world_of (updateBlockerState isEnabled (world_of (updateBlockerState isEnabled w))))
  = doc (world_of (updateBlockerState isEnabled w)).
Proof.
  cbn zeta.
  pose proof (applyChanges_converged isEnabled (doc w)) as Hc.
  split; [exact Hc|].
  split; [apply converged_fix|].
  split; [apply (converged_fix _ _ Hc)|].
  split; [apply (converged_fix _ _ Hc)|].
  split; [intros n; apply reconcile_idem|].
  rewrite !updateBlockerState_doc.
  rewrite (updateBlockerState_chrome (chrome (host w)) isEnabled w eq_refl).
  destruct (available (chrome (host w))); [apply (converged_fix _ _ Hc) | done].
Qed.

Lemma C7_policy_idempotent_witness :
  let d' := doc (started ∅) in
  applyChanges true d' = d' /\ reconcile_feed true d' = d'.
Proof.
  pose proof (C7_policy_idempotent true (started ∅)) as H.
  cbn zeta in H. destruct H as (Hc & Hfix & _).
  cbn zeta. apply Hfix.
  replace (doc (started ∅)) with (applyChanges true (doc (started ∅)))
    by (vm_compute; reflexivity).
  exact Hc.
Defined.

(** Three unmarked feed elements and a placeholder: blocked by the first
    application, untouched by the second. *)
Example block_three_feed_elements :
  let d := mkDocument true Complete [] (Some new_replacement) [feed_el; feed_el; main_feed_el] in
  let d1 := applyChanges true d in
  (display <$> elems d1 = ["none"; "none"; "none"] /\
   (fun e => attrs e !! marker) <$> elems d1 = [Some "true"; Some "true"; Some "true"] /\
   display <$> replacement d1 = Some "flex") /\
  applyChanges true d1 = d1.
Proof. vm_compute. repeat split; reflexivity. Qed.

(** ** Defensive call layer *)

Lemma run_getcb_calls (c : list Call) (cb : GetCb) (r : gmap string bool) :
  preserves (fun w => calls (ghost w) = c) (run_getcb cb r).
Proof. pres_with assumption. Qed.

(** [invoke] records exactly one call of the callback. *)
Lemma invoke_calls (cb : GetCb) (r : gmap string bool) (w : World) :
  calls (ghost (world_of (invoke cb r w))) = calls (ghost w) ++ [CallGet cb r].
Proof.
  unfold invoke. mrun.
  apply (run_getcb_calls (calls (ghost w) ++ [CallGet cb r]) cb r). reflexivity.
Qed.

Lemma calls_settle {A} (o : Outcome A) : calls (ghost (settle o)) = calls (ghost (world_of o)).
Proof. by destruct o. Qed.

(** The callbacks other than the initialisation callback cannot throw. *)
Lemma run_getcb_no_throw (cb : GetCb) (r : gmap string bool) (w : World) :
  cb <> InitPrefs -> threw (run_getcb cb r w) = None.
Proof.
  intros Hne. destruct cb; [done| | | |]; unfold run_getcb, sendResponse; mrun; try reflexivity.
  destruct (pref "feedBlockerEnabled" r); reflexivity.
Qed.

Lemma storage_local_get_throws (keys : list string) (cb : GetCb) (r : Z) (w : World) :
  get_throws w ->
  exists e w1, storage_local_get keys cb r w = Thrown e w1 /\
               calls (ghost w1) = calls (ghost w) /\
               pending_io (host w1) = pending_io (host w).
Proof.
  intros [Hm|(msg & rest & Hf)]; unfold storage_local_get, resolve_storage_local; mrun.
  - unfold storage_missing in Hm.
    destruct (has_chrome (chrome (host w))); mrun; [|by eauto].
    destruct (has_storage (chrome (host w))); mrun; [|by eauto].
    destruct (has_local (chrome (host w))); mrun; [done | by eauto].
  - destruct (has_chrome (chrome (host w))); mrun; [|by eauto].
    destruct (has_storage (chrome (host w))); mrun; [|by eauto].
    destruct (has_local (chrome (host w))); mrun; [|by eauto].
    rewrite Hf. mrun. by eauto.
Qed.

Lemma storage_local_set_throws data (cb : option Thunk) (w : World) :
  set_throws w ->
  exists e w1, storage_local_set data cb w = Thrown e w1 /\
               pending_io (host w1) = pending_io (host w).
Proof.
  intros [Hm|(msg & rest & Hf)]; unfold storage_local_set, resolve_storage_local; mrun.
  - unfold storage_missing in Hm.
    destruct (has_chrome (chrome (host w))); mrun; [|by eauto].
    destruct (has_storage (chrome (host w))); mrun; [|by eauto].
    destruct (has_local (chrome (host w))); mrun; [done | by eauto].
  - destruct (has_chrome (chrome (host w))); mrun; [|by eauto].
    destruct (has_storage (chrome (host w))); mrun; [|by eauto].
    destruct (has_local (chrome (host w))); mrun; [|by eauto].
    rewrite Hf. mrun. by eauto.
Qed.

(** C9, as amended.  Whenever the host call behind the read throws (in
    particular when [chrome], [chrome.storage] or [chrome.storage.local] is
    missing), [safeGet] dispatches nothing and invokes its callback exactly
    once, on the spot, with an empty result.  Whenever the guard reports
    false or the host call behind the write throws, [safeSet] returns
    [false] and dispatches nothing.  [safeSet] never throws, and [safeGet]
    throws only what its callback throws. *)
Theorem C9_defensive_layer (w : World) (keys : list string) (cb : GetCb) (retries : Z)
    (data : gmap string bool) (scb : option Thunk) :
  (get_throws w ->
   (exists w1, safeGet keys cb retries w = run_getcb cb ∅ w1 /\
               calls (ghost w1) = calls (ghost w) ++ [CallGet cb ∅] /\
               pending_io (host w1) = pending_io (host w)) /\
   calls (ghost (world_of (safeGet keys cb retries w))) = calls (ghost w) ++ [CallGet cb ∅]) /\
  (available (chrome (host w)) = false \/ set_throws w ->
   exists w1, safeSet data scb w = Done false w1 /\
              pending_io (host w1) = pending_io (host w)) /\
  threw (safeSet data scb w) = None /\
  (forall e, threw (safeGet keys cb retries w) = Some e ->
     exists w1, threw (run_getcb cb ∅ w1) = Some e).
Proof.
  split; [|split; [|split]].
  - intros Hg.
    destruct (storage_local_get_throws keys cb retries w Hg) as (e & w1 & Hs & Hc & Hp).
    split.
    + exists (on_ghost (log_call (CallGet cb ∅)) w1).
      unfold safeGet, try_catch. rewrite Hs. unfold invoke. mrun.
      split; [reflexivity|]. split; [by rewrite Hc | exact Hp].
    + unfold safeGet, try_catch. rewrite Hs. by rewrite invoke_calls, Hc.
  - intros [Ha|Hs]; unfold safeSet, isChromeAPIAvailable; mrun.
    + rewrite Ha. mrun. by eauto.
    + destruct (available (chrome (host w))); mrun; [|by eauto].
      destruct (storage_local_set_throws data scb w Hs) as (e & w1 & -> & Hp). by eauto.
  - apply safeSet_never_throws.
  - intros e. unfold safeGet, try_catch.
    destruct (storage_local_get keys cb retries w) as [a w1|e1 w1]; [done|].
    unfold invoke. mrun. intros H. by eexists.
Qed.

Lemma C9_defensive_layer_witness :
  let w := on_host (set_chrome (mkChrome false false false false)) (started ∅) in
  let data : gmap string bool := {[ "feedBlockerEnabled" := false ]} in
  ((exists w1, safeGet prefKeys (GetStateReply 8) 1 w = run_getcb (GetStateReply 8) ∅ w1 /\
               calls (ghost w1) = calls (ghost w) ++ [CallGet (GetStateReply 8) ∅] /\
               pending_io (host w1) = pending_io (host w)) /\
   calls (ghost (world_of (safeGet prefKeys (GetStateReply 8) 1 w)))
   = calls (ghost w) ++ [CallGet (GetStateReply 8) ∅]) /\
  (exists w1, safeSet data None w = Done false w1 /\
              pending_io (host w1) = pending_io (host w)).
Proof.
  pose proof (C9_defensive_layer
                (on_host (set_chrome (mkChrome false false false false)) (started ∅))
                prefKeys (GetStateReply 8) 1 {[ "feedBlockerEnabled" := false ]} None)
    as (Hget & Hset & _).
  split; [apply Hget; left; reflexivity | apply Hset; left; reflexivity].
Defined.

(** C9 as stated fails, twice over.  First, with [chrome.runtime] gone but
    [chrome.storage.local] still there the guard reports false, yet
    [safeGet] dispatches the read; its completion throws while reading
    [chrome.runtime.lastError], and the callback is never invoked: the
    exception reaches the event loop and no read is left in flight.
    Second, with a store call that throws, [safeGet] invokes the
    initialisation callback inside its [catch], and what that callback
    throws escapes [safeGet] to its caller. *)
Lemma C9_counterexample :
  (let w := on_host (set_chrome (mkChrome true true true false))
              (run_events [Io 0; Io 0] (started ∅)) in
   let o := safeGet ["feedBlockerEnabled"] EnsureFeedVisible 1 w in
   let w' := step (Io 0) (world_of o) in
   available (chrome (host w)) = false /\
   threw o = None /\
   calls (ghost w') = calls (ghost w) /\
   reads_in_flight w' = 0%nat /\
   uncaught (ghost w') = uncaught (ghost w) ++ [TypeError "reading 'lastError' of undefined"]) /\
  (let w := on_host (set_get_faults [ThrowSync "Extension context invalidated."])
              (run_events [Io 0; Io 0] (started ∅)) in
   available (chrome (host w)) = true /\
   threw (safeGet prefKeys InitPrefs 1 w)
   = Some (ReferenceError "updateNewsBlockerState is not defined")).
Proof. vm_compute. repeat split; reflexivity. Qed.

(** ** The retry delay of the defensive read *)

(** A read that fails with the transient signature while budget remains
    schedules its retry with the primitive [setTimeout]: the script's
    registries are not told. *)
Lemma complete_get_retry (keys : list string) (cb : GetCb) (retries : Z) (msg : string)
    (w : World) :
  has_chrome (chrome (host w)) = true ->
  has_runtime (chrome (host w)) = true ->
  (0 < retries)%Z ->
  includes transient msg = true ->
  complete_get keys cb retries (Some (Some msg)) w
  = Done tt (on_host (fun h =>
      set_next_timer (S (next_timer h))
        (set_host_timers
           (host_timers h
            ++ [mkTimer (next_timer h) (clock h + 100) None
                  (RetryGet keys cb (retries - 1))]) h)) w).
Proof.
  intros Hc Hr Hpos Hinc. unfold complete_get, read_lastError, setTimeout. mrun.
  rewrite Hc. mrun. rewrite Hr. mrun.
  replace (0 <? retries)%Z with true by (symmetry; by apply Z.ltb_lt).
  cbn [andb from_option]. rewrite Hinc. reflexivity.
Qed.

(** C2 fails on the code.  On a running page a click schedules a re-check;
    its read fails with the transient signature, and the retry delay,
    timer 6, is created outside the tracker.  The teardown empties the
    three registries and cancels the three tracked timers, but timer 6
    stays pending; 100 ms later it fires, the read is issued again and its
    callback runs on the torn-down page. *)
Theorem C2_retry_timer_survives_teardown :
  let h := mkHost healthy
             [NoFault; NoFault; LastError (Some "Extension context invalidated.")]
             [] [] ∅ [] 0 1 [] in
  let w := run_events
             [Advance 200; Fire 2; Io 0; Io 0; Io 0; Click; Advance 500; Fire 5; Io 0]
             (boot h page0) in
  let retry := mkTimer 6 800 None (RetryGet ["feedBlockerEnabled"] EnsureFeedVisible 0) in
  let w' := step BeforeUnload w in
  let w'' := run_events [Advance 100; Fire 6; Io 0] w' in
  (t_id <$> host_timers (host w) = [1; 3; 4; 6]%nat /\
   retry ∈ host_timers (host w) /\
   timeouts (script w) = [4%nat] /\ intervals (script w) = [1; 3]%nat) /\
  (timeouts (script w') = [] /\ intervals (script w') = [] /\ observers (script w') = [] /\
   host_timers (host w') = [retry]) /\
  (host_timers (host w'') = [] /\
   calls (ghost w'')
   = calls (ghost w') ++ [CallGet EnsureFeedVisible {[ "feedBlockerEnabled" := true ]}]).
Proof.
  vm_compute. repeat split; try reflexivity.
  do 3 apply list_elem_of_further. apply list_elem_of_here.
Qed.

Lemma find_timer_snoc_fresh (t : Timer) (l : list Timer) :
  (forall t', t' ∈ l -> t_id t' <> t_id t) -> find_timer (t_id t) (l ++ [t]) = Some t.
Proof.
  intros H. unfold find_timer. induction l as [|x l IH]; cbn.
  - by rewrite bool_decide_eq_true_2.
  - rewrite bool_decide_eq_false_2 by (apply H; by left).
    apply IH. intros t' Hin. apply H. by right.
Qed.

Lemma drop_timer_snoc_fresh (t : Timer) (l : list Timer) :
  (forall t', t' ∈ l -> t_id t' <> t_id t) -> drop_timer (t_id t) (l ++ [t]) = l.
Proof.
  intros H. unfold drop_timer. rewrite filter_app.
  rewrite (filter_cons_False _ t []) by (intros Hne; by apply Hne).
  rewrite filter_nil, app_nil_r.
  induction l as [|x l IH]; [done|].
  rewrite filter_cons_True by (apply H; by left).
  f_equal. apply IH. intros t' Hin. apply H. by right.
Qed.

(** A read whose store call does not throw is handed to the host. *)
Lemma safeGet_dispatch (keys : list string) (cb : GetCb) (r : Z) (f : Fault)
    (rest : list Fault) (w : World) :
  available (chrome (host w)) = true ->
  get_faults (host w) = f :: rest ->
  (forall m, f <> ThrowSync m) ->
  safeGet keys cb r w
  = Done tt (on_host (fun h => set_pending_io (pending_io h ++ [GetDone keys cb r (err_of f)]) h)
               (on_host (set_get_faults rest) w)).
Proof.
  intros Hav Hf Hns. destruct (available_inv _ Hav) as (Hc1 & Hc2 & Hc3 & Hc4).
  unfold safeGet, storage_local_get, resolve_storage_local, enqueue_io.
  repeat (progress (mrun; rewrite ?Hc1, ?Hc2, ?Hc3, ?Hf)).
  cbn [next_fault]. destruct f as [|m|m]; [reflexivity | by destruct (Hns m) | reflexivity].
Qed.

(** A read whose store call throws reports an empty result at once. *)
Lemma safeGet_sync_throw (keys : list string) (cb : GetCb) (r : Z) (m : string)
    (rest : list Fault) (w : World) :
  available (chrome (host w)) = true ->
  get_faults (host w) = ThrowSync m :: rest ->
  safeGet keys cb r w = invoke cb ∅ (on_host (set_get_faults rest) w).
Proof.
  intros Hav Hf. destruct (available_inv _ Hav) as (Hc1 & Hc2 & Hc3 & Hc4).
  unfold safeGet, storage_local_get, resolve_storage_local, enqueue_io.
  repeat (progress (mrun; rewrite ?Hc1, ?Hc2, ?Hc3, ?Hf)).
  reflexivity.
Qed.

(** The completion of a read with no retry left. *)
Lemma complete_get_final (keys : list string) (cb : GetCb) (err : option (option string))
    (w : World) :
  has_chrome (chrome (host w)) = true ->
  has_runtime (chrome (host w)) = true ->
  complete_get keys cb 0 err w
  = invoke cb (match err with
               | Some _ => ∅
               | None => get_result keys (store (host w))
               end) w.
Proof.
  intros Hc Hr. unfold complete_get, read_lastError. mrun.
  rewrite Hc. mrun. rewrite Hr. mrun. destruct err as [m|]; reflexivity.
Qed.

Lemma rif_enqueue_set (n : nat) data cb err :
  preserves (fun w => reads_in_flight w = n) (enqueue_io (SetDone data cb err)).
Proof.
  intros w H. unfold enqueue_io, reads_in_flight in *. mrun.
  rewrite filter_app. rewrite (filter_cons_False _ _ []) by done.
  by rewrite filter_nil, app_nil_r.
Qed.

Lemma rif_setTimeout_tracked (n : nat) cb delay :
  preserves (fun w => reads_in_flight w = n) (setTimeout (TrackedTimeout cb) delay).
Proof.
  intros w H. unfold setTimeout, reads_in_flight in *. wsimpl.
  rewrite filter_app. rewrite (filter_cons_False _ _ []) by done.
  by rewrite filter_nil, app_nil_r.
Qed.

#[local] Hint Resolve rif_enqueue_set rif_setTimeout_tracked : pres.

(** Running a callback of a read starts no further read. *)
Lemma rif_run_getcb (n : nat) (cb : GetCb) (r : gmap string bool) :
  preserves (fun w => reads_in_flight w = n) (run_getcb cb r).
Proof. pres_with assumption. Qed.

Lemma invoke_rif (cb : GetCb) (r : gmap string bool) (w : World) :
  reads_in_flight (settle (invoke cb r w)) = reads_in_flight w.
Proof.
  unfold invoke. mrun.
  pose proof (rif_run_getcb (reads_in_flight w) cb r
                (on_ghost (log_call (CallGet cb r)) w) eq_refl) as H.
  destruct (run_getcb cb r _); exact H.
Qed.

Lemma invoke_calls_settle (cb : GetCb) (r : gmap string bool) (w : World) :
  calls (ghost (settle (invoke cb r w))) = calls (ghost w) ++ [CallGet cb r].
Proof. by rewrite calls_settle, invoke_calls. Qed.

(** C3.  A read with the default budget of one retry, on a working
    runtime, whose store call completes with the transient error.  The
    failure is not reported: the callback is not invoked and a retry is
    scheduled 100 ms later, which cannot fire earlier.  When it fires, the
    read is issued again with no budget left, and whatever the store does
    then ([f]: throw, fail again, or succeed), the callback has been
    invoked exactly once in all, with the store's result if the retry
    succeeded and with an empty result otherwise, and nothing of the read
    is left in flight that could invoke it again. *)
Theorem C3_bounded_retry (w : World) (keys : list string) (cb : GetCb) (msg : string)
    (f : Fault) (rest : list Fault) (dt : Z) :
  available (chrome (host w)) = true ->
  get_faults (host w) = LastError (Some msg) :: f :: rest ->
  includes transient msg = true ->
  (forall t, t ∈ host_timers (host w) -> t_id t <> next_timer (host w)) ->
  (100 <= dt)%Z ->
  let i := length (pending_io (host w)) in
  let id := next_timer (host w) in
  let w1 := settle (safeGet keys cb 1 w) in
  let w2 := step (Io i) w1 in
  let w3 := step (Fire id) (step (Advance dt) w2) in
  let w4 := match f with ThrowSync _ => w3 | _ => step (Io i) w3 end in
  (calls (ghost w2) = calls (ghost w) /\
   host_timers (host w2)
   = host_timers (host w) ++ [mkTimer id (clock (host w) + 100) None (RetryGet keys cb 0)] /\
   pending_io (host w2) = pending_io (host w)) /\
  (forall dt', (0 <= dt' < 100)%Z ->
     step (Fire id) (step (Advance dt') w2) = step (Advance dt') w2) /\
  calls (ghost w4)
  = calls (ghost w)
    ++ [CallGet cb (match f with
                    | NoFault => get_result keys (store (host w))
                    | _ => ∅
                    end)] /\
  reads_in_flight w4 = reads_in_flight w.
Proof.
  intros Hav Hf Hinc Hfresh Hdt i id w1 w2 w3 w4.
  destruct (available_inv _ Hav) as (Hc1 & Hc2 & Hc3 & Hc4).
  set (t := mkTimer id (clock (host w) + 100) None (RetryGet keys cb 0)).
  (* the first attempt is handed to the host *)
  assert (E1 : w1 = on_host (fun h => set_pending_io
                       (pending_io h ++ [GetDone keys cb 1 (Some (Some msg))]) h)
                      (on_host (set_get_faults (f :: rest)) w)).
  { subst w1. by rewrite (safeGet_dispatch keys cb 1 _ _ w Hav Hf). }
  (* its completion schedules the retry *)
  assert (E2 : w2 = on_host (fun h =>
                      set_next_timer (S id) (set_host_timers (host_timers (host w) ++ [t]) h))
                      (on_host (set_pending_io (pending_io (host w)))
                         (on_host (set_get_faults (f :: rest)) w))).
  { subst w2. rewrite E1. cbn [step]. subst i.
    erewrite complete_last by (wsimpl; reflexivity).
    cbn [complete_io]. rewrite complete_get_retry by (wsimpl; done || lia).
    reflexivity. }
  assert (Hfind : find_timer id (host_timers (host w) ++ [t]) = Some t)
    by (apply (find_timer_snoc_fresh t); exact Hfresh).
  assert (Hdrop : drop_timer id (host_timers (host w) ++ [t]) = host_timers (host w))
    by (apply (drop_timer_snoc_fresh t); exact Hfresh).
  split; [|split].
  - rewrite E2. repeat split; reflexivity.
  - intros dt' Hdt'. rewrite E2. cbn [step]. unfold fire. wsimpl. rewrite Hfind.
    cbn [t_due t]. replace (_ <=? _)%Z with false; [reflexivity|].
    symmetry. apply Z.leb_gt. lia.
  - (* the retry fires *)
    set (w3' := on_host (set_host_timers (host_timers (host w)))
                  (on_host (set_clock (clock (host w) + Z.max 0 dt))
                     (on_host (set_next_timer (S id))
                        (on_host (set_pending_io (pending_io (host w)))
                           (on_host (set_get_faults (f :: rest)) w))))).
    assert (E3 : w3 = settle (safeGet keys cb 0 w3')).
    { subst w3. rewrite E2. cbn [step]. unfold fire. wsimpl. rewrite Hfind.
      cbn [t_due t_period t_body t].
      replace (_ <=? _)%Z with true by (symmetry; apply Z.leb_le; lia).
      cbn [fire_body]. do 2 f_equal. subst w3'. unfold on_host. wsimpl.
      rewrite Hdrop. reflexivity. }
    assert (Hav' : available (chrome (host w3')) = true) by exact Hav.
    assert (Hf' : get_faults (host w3') = f :: rest) by reflexivity.
    assert (Hfinal : forall err W,
              chrome (host W) = chrome (host w) ->
              complete_get keys cb 0 err W
              = invoke cb (match err with
                           | Some _ => ∅
                           | None => get_result keys (store (host W))
                           end) W).
    { intros err W HW. apply complete_get_final; by rewrite HW. }
    destruct f as [|m|m].
    + (* the retry succeeds *)
      assert (E4 : w4 = settle (invoke cb (get_result keys (store (host w)))
                                  (on_host (set_pending_io (pending_io (host w)))
                                     (on_host (set_get_faults rest) w3')))).
      { subst w4. rewrite E3.
        rewrite (safeGet_dispatch keys cb 0 NoFault rest w3' Hav' Hf') by done.
        cbn [settle step]. subst i.
        erewrite complete_last by (wsimpl; reflexivity).
        cbn [complete_io err_of]. rewrite Hfinal by reflexivity. reflexivity. }
      rewrite E4. split; [by rewrite invoke_calls_settle | by rewrite invoke_rif].
    + (* the retry throws: empty result, at once *)
      assert (E4 : w4 = settle (invoke cb ∅ (on_host (set_get_faults rest) w3'))).
      { subst w4. rewrite E3. by rewrite (safeGet_sync_throw keys cb 0 m rest w3' Hav' Hf'). }
      rewrite E4. split; [by rewrite invoke_calls_settle | by rewrite invoke_rif].
    + (* the retry fails again: budget exhausted, empty result *)
      assert (E4 : w4 = settle (invoke cb ∅
                                  (on_host (set_pending_io (pending_io (host w)))
                                     (on_host (set_get_faults rest) w3')))).
      { subst w4. rewrite E3.
        rewrite (safeGet_dispatch keys cb 0 (LastError m) rest w3' Hav' Hf') by done.
        cbn [settle step]. subst i.
        erewrite complete_last by (wsimpl; reflexivity).
        cbn [complete_io err_of]. rewrite Hfinal by reflexivity. reflexivity. }
      rewrite E4. split; [by rewrite invoke_calls_settle | by rewrite invoke_rif].
Qed.

Lemma C3_bounded_retry_witness :
  let w := on_host (set_get_faults [LastError (Some "Extension context invalidated."); NoFault])
             (started {[ "feedBlockerEnabled" := false ]}) in
  let keys := prefKeys in
  let cb := GetStateReply 8 in
  let f := NoFault in
  let i := length (pending_io (host w)) in
  let id := next_timer (host w) in
  let w1 := settle (safeGet keys cb 1 w) in
  let w2 := step (Io i) w1 in
  let w3 := step (Fire id) (step (Advance 100) w2) in
  let w4 := match f with ThrowSync _ => w3 | _ => step (Io i) w3 end in
  (calls (ghost w2) = calls (ghost w) /\
   host_timers (host w2)
   = host_timers (host w) ++ [mkTimer id (clock (host w) + 100) None (RetryGet keys cb 0)] /\
   pending_io (host w2) = pending_io (host w)) /\
  (forall dt', (0 <= dt' < 100)%Z ->
     step (Fire id) (step (Advance dt') w2) = step (Advance dt') w2) /\
  calls (ghost w4)
  = calls (ghost w)
    ++ [CallGet cb (match f with
                    | NoFault => get_result keys (store (host w))
                    | _ => ∅
                    end)] /\
  reads_in_flight w4 = reads_in_flight w.
Proof.
  apply (C3_bounded_retry
           (on_host (set_get_faults [LastError (Some "Extension context invalidated."); NoFault])
              (started {[ "feedBlockerEnabled" := false ]}))
           prefKeys (GetStateReply 8) "Extension context invalidated." NoFault [] 100).
  - reflexivity.
  - reflexivity.
  - vm_compute. reflexivity.
  - apply Forall_forall. apply (bool_decide_unpack _). vm_compute. exact I.
  - lia.
Defined.

(** The retry on a concrete page: one failure, one delay, one answer. *)
Example retry_then_success :
  let w := on_host (set_get_faults [LastError (Some "Extension context invalidated."); NoFault])
             (run_events [Io 0; Io 0] (started {[ "feedBlockerEnabled" := false ]})) in
  let w' := run_events [Message GetState 8; Io 0; Advance 100; Fire 5; Io 0] w in
  responses (ghost w') = [(8%nat, State false true)] /\
  pending_io (host w') = [] /\
  reads_in_flight w' = 0%nat.
Proof. vm_compute. repeat split; reflexivity. Qed.

(** ** Throttle of the mutation observer *)

#[local] Hint Extern 1 (not_pass _) => (intros ? ?; discriminate) : pres.
#[local] Hint Extern 1 (ok_body _) =>
  (cbn; first [exact I | intros ? ?; discriminate]) : pres.
#[local] Hint Extern 1 (ok_task _) =>
  (cbn; first [exact I | intros ? ?; discriminate]) : pres.

Lemma throttle_setTimeout (b : TimerBody) (delay : Z) :
  ok_body b -> preserves throttle_inv (setTimeout b delay).
Proof.
  intros Hok w (Ha & Hb & Hc & Hd & He). unfold setTimeout, throttle_inv. wsimpl.
  split; [|split; [|split; [|split]]]; try done.
  - intros t obs Hin Hbody. apply elem_of_app in Hin as [Hin|Hin]; [by apply Ha|].
    apply list_elem_of_singleton in Hin as ->. cbn in Hbody. subst b.
    by destruct (Hok obs).
  - intros t cb Hin Hbody. apply elem_of_app in Hin as [Hin|Hin]; [by apply (Hc t)|].
    apply list_elem_of_singleton in Hin as ->. cbn in Hbody. subst b. exact Hok.
Qed.

Lemma throttle_setInterval (b : TimerBody) (delay : Z) :
  ok_body b -> preserves throttle_inv (setInterval b delay).
Proof.
  intros Hok w (Ha & Hb & Hc & Hd & He). unfold setInterval, throttle_inv. wsimpl.
  split; [|split; [|split; [|split]]]; try done.
  - intros t obs Hin Hbody. apply elem_of_app in Hin as [Hin|Hin]; [by apply Ha|].
    apply list_elem_of_singleton in Hin as ->. cbn in Hbody. subst b.
    by destruct (Hok obs).
  - intros t cb Hin Hbody. apply elem_of_app in Hin as [Hin|Hin]; [by apply (Hc t)|].
    apply list_elem_of_singleton in Hin as ->. cbn in Hbody. subst b. exact Hok.
Qed.

Lemma throttle_drop (id : nat) (w : World) :
  throttle_inv w ->
  throttle_inv (on_host (fun h => set_host_timers (drop_timer id (host_timers h)) h) w).
Proof.
  intros (Ha & Hb & Hc & Hd & He). unfold throttle_inv. wsimpl.
  split; [|split; [|split; [|split]]]; try done.
  - intros t obs Hin. apply elem_of_drop_timer in Hin as [Hin _]. by apply Ha.
  - intros t cb Hin. apply elem_of_drop_timer in Hin as [Hin _]. by apply (Hc t).
Qed.

Lemma throttle_reschedule (id : nat) (f : Host -> Z) (w : World) :
  throttle_inv w ->
  throttle_inv (on_host (fun h => set_host_timers (reschedule id (f h) (host_timers h)) h) w).
Proof.
  intros (Ha & Hb & Hc & Hd & He). unfold throttle_inv. wsimpl.
  split; [|split; [|split; [|split]]]; try done.
  - intros t' obs Hin Hbody.
    apply elem_of_reschedule in Hin as (t & Hin & Hid & Hbd & Hp).
    rewrite Hid, Hp. apply Ha; [done | by rewrite <- Hbd].
  - intros t' cb Hin Hbody.
    apply elem_of_reschedule in Hin as (t & Hin & Hid & Hbd & Hp).
    apply (Hc t); [done | by rewrite <- Hbd].
Qed.

Lemma throttle_enqueue_io (t : IoTask) : ok_task t -> preserves throttle_inv (enqueue_io t).
Proof.
  intros Hok w (Ha & Hb & Hc & Hd & He). unfold enqueue_io, throttle_inv. mrun.
  split; [|split; [|split; [|split]]]; try done.
  intros t' Hin. apply elem_of_app in Hin as [Hin|Hin]; [by apply He|].
  by apply list_elem_of_singleton in Hin as ->.
Qed.

Lemma throttle_delete_io (i : nat) (w : World) :
  throttle_inv w ->
  throttle_inv (on_host (fun h => set_pending_io (delete i (pending_io h)) h) w).
Proof.
  intros (Ha & Hb & Hc & Hd & He). unfold throttle_inv. wsimpl.
  split; [|split; [|split; [|split]]]; try done.
  intros t Hin. apply He. eapply elem_of_sublist; [exact Hin | apply sublist_delete].
Qed.

Lemma throttle_add_dcl_once (t : Thunk) : not_pass t -> preserves throttle_inv (add_dcl_once t).
Proof.
  intros Hok w (Ha & Hb & Hc & Hd & He). unfold add_dcl_once, throttle_inv. mrun.
  split; [|split; [|split; [|split]]]; try done.
  intros l Hin. apply elem_of_app in Hin as [Hin|Hin]; [by apply Hd|].
  by apply list_elem_of_singleton in Hin as ->.
Qed.

Lemma throttle_clear_dcl (w : World) :
  throttle_inv w -> throttle_inv (on_script (set_dcl_once []) w).
Proof.
  intros (Ha & Hb & Hc & Hd & He). unfold throttle_inv. wsimpl.
  split; [|split; [|split; [|split]]]; try done.
  intros l Hin. inversion Hin.
Qed.

Lemma throttle_new_MutationObserver : preserves throttle_inv new_MutationObserver.
Proof.
  intros w (Ha & Hb & Hc & Hd & He). unfold new_MutationObserver, throttle_inv. wsimpl.
  split; [|split; [|split; [|split]]]; try done.
  - intros t obs Hin Hbody. destruct (Ha t obs Hin Hbody) as (Hp & o & Ho & Hto).
    split; [done|]. exists o. split; [|done].
    rewrite lookup_insert_ne; [done|]. apply Hb in Ho. lia.
  - intros obs o Ho. destruct (decide (next_observer (script w) = obs)) as [<-|Hne]; [lia|].
    rewrite lookup_insert_ne in Ho by done. apply Hb in Ho. lia.
Qed.

(** Updating an observer object without touching its [timeout] field. *)
Lemma throttle_observer_update (objs' : gmap nat Observer) (w : World) :
  (forall obs o, observer_objs (script w) !! obs = Some o ->
     exists o', objs' !! obs = Some o' /\ obs_timeout o' = obs_timeout o) ->
  (forall obs o', objs' !! obs = Some o' -> is_Some (observer_objs (script w) !! obs)) ->
  throttle_inv w ->
  throttle_inv (on_script (set_observer_objs objs') w).
Proof.
  intros Hfwd Hbwd (Ha & Hb & Hc & Hd & He). unfold throttle_inv. wsimpl.
  split; [|split; [|split; [|split]]]; try done.
  - intros t obs Hin Hbody. destruct (Ha t obs Hin Hbody) as (Hp & o & Ho & Hto).
    split; [done|]. destruct (Hfwd obs o Ho) as (o' & Ho' & Heq).
    exists o'. split; [done | congruence].
  - intros obs o' Ho'. destruct (Hbwd obs o' Ho') as [o Ho]. by apply (Hb obs o).
Qed.

Lemma throttle_disconnect (obs : nat) : preserves throttle_inv (disconnect obs).
Proof.
  intros w H. unfold disconnect. mrun.
  destruct (observer_objs (script w) !! obs) as [o|] eqn:Eo; mrun; [|exact H].
  destruct (disconnect_throws o); mrun; [exact H|].
  apply throttle_observer_update; [| |exact H].
  - intros k o1 Hk. destruct (decide (obs = k)) as [<-|Hne].
    + rewrite lookup_insert_eq. eexists. split; [reflexivity|]. cbn. congruence.
    + rewrite lookup_insert_ne by done. by exists o1.
  - intros k o' Hk. destruct (decide (obs = k)) as [<-|Hne]; [by eauto|].
    rewrite lookup_insert_ne in Hk by done. by eauto.
Qed.

Lemma throttle_startObserving (obs : nat) : preserves throttle_inv (startObserving obs).
Proof.
  intros w H. unfold startObserving. mrun.
  destruct (body (doc w)); mrun; [|exact H].
  apply (throttle_observer_update _ w); [| |exact H].
  - intros k o1 Hk. destruct (decide (obs = k)) as [<-|Hne].
    + rewrite lookup_alter_eq, Hk. eexists. split; [reflexivity|]. done.
    + rewrite lookup_alter_ne by done. by exists o1.
  - intros k o' Hk. destruct (decide (obs = k)) as [<-|Hne].
    + rewrite lookup_alter_eq in Hk. destruct (observer_objs (script w) !! obs); [eauto|done].
    + rewrite lookup_alter_ne in Hk by done. by eauto.
Qed.

#[local] Hint Resolve throttle_setTimeout throttle_setInterval throttle_enqueue_io
  throttle_add_dcl_once throttle_new_MutationObserver throttle_disconnect
  throttle_startObserving : pres.

Ltac throttle_leaf := first [ assumption | by apply throttle_drop ].

Lemma throttle_run_getcb cb r : preserves throttle_inv (run_getcb cb r).
Proof. pres_with throttle_leaf. Qed.
#[local] Hint Resolve throttle_run_getcb : pres.

Lemma throttle_safeGet keys cb r : preserves throttle_inv (safeGet keys cb r).
Proof. pres_with throttle_leaf. Qed.
#[local] Hint Resolve throttle_safeGet : pres.

Lemma throttle_complete_get keys cb r err : preserves throttle_inv (complete_get keys cb r err).
Proof. pres_with throttle_leaf. Qed.

Lemma throttle_cleanupResources : preserves throttle_inv cleanupResources.
Proof. pres_with throttle_leaf. Qed.
#[local] Hint Resolve throttle_cleanupResources : pres.

Lemma throttle_run_thunk (self : nat) (t : Thunk) :
  not_pass t -> preserves throttle_inv (run_thunk self t).
Proof.
  intros Hnp. destruct t; try (by destruct (Hnp obs)); pres_with throttle_leaf.
Qed.

Lemma throttle_complete_set data (cb : option Thunk) err :
  ok_task (SetDone data cb err) -> preserves throttle_inv (complete_set data cb err).
Proof.
  intros Hok. destruct cb as [c|]; cbn in Hok.
  - unfold complete_set.
    apply preserves_bind; [pres_with throttle_leaf | intros _].
    apply preserves_bind; [pres_with throttle_leaf | intros [m|]]; [apply preserves_ret|].
    apply preserves_bind; [pres_with throttle_leaf | intros _; by apply throttle_run_thunk].
  - pres_with throttle_leaf.
Qed.

Lemma throttle_uncaught (e : JsError) (w : World) :
  throttle_inv w -> throttle_inv (on_ghost (log_uncaught e) w).
Proof. done. Qed.

Lemma throttle_complete (i : nat) (w : World) : throttle_inv w -> throttle_inv (complete i w).
Proof.
  intros H. unfold complete. destruct (pending_io (host w) !! i) as [t|] eqn:Et; [|exact H].
  assert (Hok : ok_task t).
  { destruct H as (_ & _ & _ & _ & He). apply He. eapply list_elem_of_lookup_2, Et. }
  apply preserves_settle; [apply throttle_uncaught | | by apply throttle_delete_io].
  destruct t as [keys cb r err|data cb err]; cbn [complete_io];
    [apply throttle_complete_get | by apply throttle_complete_set].
Qed.

(** Firing the reconciliation timer of [obs]: once it has left the timer
    table no timer of [obs] is pending, so its [timeout] field can be
    reset. *)
Lemma throttle_fire_pass (id obs : nat) (w : World) (t : Timer) :
  throttle_inv w ->
  t ∈ host_timers (host w) -> t_id t = id ->
  t_body t = TrackedTimeout (ThrottledReconcile obs) ->
  throttle_inv
    (settle (fire_body id (TrackedTimeout (ThrottledReconcile obs))
               (on_host (fun h => set_host_timers (drop_timer id (host_timers h)) h) w))).
Proof.
  intros H Hin Hid Hbody.
  pose proof H as (Ha & Hb & Hc & Hd & He).
  destruct (Ha t obs Hin Hbody) as (_ & o & Ho & Hto). rewrite Hid in Hto.
  unfold fire_body. cbn [run_thunk]. unfold set_observer_timeout. mrun.
  set (w1 := on_script _ (on_script _ (on_host _ w))).
  assert (H1 : throttle_inv w1).
  { subst w1. unfold throttle_inv. wsimpl.
    split; [|split; [|split; [|split]]]; try done.
    - intros t' obs' Hin' Hbody'. apply elem_of_drop_timer in Hin' as [Hin' Hne].
      destruct (Ha t' obs' Hin' Hbody') as (Hp & o' & Ho' & Hto').
      split; [done|].
      destruct (decide (obs = obs')) as [<-|Hno].
      + rewrite Ho in Ho'. injection Ho' as <-. congruence.
      + exists o'. by rewrite lookup_alter_ne.
    - intros k o' Hk. destruct (decide (obs = k)) as [<-|Hno].
      + by apply (Hb obs o).
      + rewrite lookup_alter_ne in Hk by done. by apply (Hb k o').
    - intros t' cb Hin'. apply elem_of_drop_timer in Hin' as [Hin' _]. by apply (Hc t'). }
  pose proof (throttle_safeGet prefKeys ReconcilePass 1 w1 H1) as H2.
  destruct (safeGet prefKeys ReconcilePass 1 w1); exact H2.
Qed.

Lemma throttle_fire (id : nat) (w : World) : throttle_inv w -> throttle_inv (fire id w).
Proof.
  intros H. unfold fire.
  destruct (find_timer id (host_timers (host w))) as [t|] eqn:Ef; [|exact H].
  destruct (t_due t <=? clock (host w))%Z; [|exact H].
  apply find_timer_Some in Ef as [Hin Hid].
  pose proof H as (Ha & Hb & Hc & Hd & He).
  assert (Hw1 : throttle_inv
            match t_period t with
            | Some p =>
                on_host (fun h => set_host_timers
                                    (reschedule id (clock h + p) (host_timers h)) h) w
            | None => on_host (fun h => set_host_timers (drop_timer id (host_timers h)) h) w
            end).
  { destruct (t_period t); [by apply throttle_reschedule | by apply throttle_drop]. }
  destruct (t_body t) as [keys cb r|cb|cb] eqn:Eb.
  - apply preserves_settle; [done | apply throttle_safeGet | exact Hw1].
  - assert (Hcases : not_pass cb \/ exists obs, cb = ThrottledReconcile obs).
    { destruct cb; try (left; intros ? ?; discriminate). right. by eexists. }
    destruct Hcases as [Hnp|[obs ->]].
    + apply preserves_settle; [done | | exact Hw1].
      unfold fire_body. apply preserves_try_catch; [|intros _; apply preserves_ret].
      apply preserves_bind; [pres_with throttle_leaf | intros _; by apply throttle_run_thunk].
    + destruct (Ha t obs Hin Eb) as (-> & _).
      by apply (throttle_fire_pass id obs w t).
  - apply preserves_settle; [done | | exact Hw1].
    unfold fire_body. apply preserves_try_catch; [|intros _; pres_with throttle_leaf].
    apply preserves_bind; [pres_with throttle_leaf | intros ok].
    destruct (negb ok); [pres_with throttle_leaf|].
    apply throttle_run_thunk. by apply (Hc t).
Qed.

(** The observer callback keeps the throttle's invariant: it schedules a
    reconciliation timer only when the [timeout] field is falsy, and then
    no timer of this observer can be pending, ids being positive. *)
Lemma throttle_observer_callback (obs : nat) (o : Observer) (w : World) :
  observer_objs (script w) !! obs = Some o ->
  timers_wf w -> throttle_inv w ->
  throttle_inv (settle (observer_callback obs w)).
Proof.
  intros Ho Hwf H. pose proof H as (Ha & Hb & Hc & Hd & He).
  unfold observer_callback, isChromeAPIAvailable, get_observer_timeout. mrun.
  destruct (available (chrome (host w))); mrun.
  - destruct (body (doc w)); mrun; [|exact H].
    rewrite Ho. cbn [mbind option_bind]. 
    destruct (is_truthy (obs_timeout o)) eqn:Etr; mrun; [exact H|].
    unfold safeSetTimeout, setTimeout, set_observer_timeout. mrun.
    unfold throttle_inv. wsimpl.
    split; [|split; [|split; [|split]]]; try done.
    + intros t obs' Hin Hbody. apply elem_of_app in Hin as [Hin|Hin].
      * destruct (Ha t obs' Hin Hbody) as (Hp & o' & Ho' & Hto').
        split; [done|].
        destruct (decide (obs = obs')) as [<-|Hno].
        -- exfalso. rewrite Ho in Ho'. injection Ho' as <-.
           destruct Hwf as (_ & Hids & _). specialize (Hids t Hin).
           rewrite Hto' in Etr. destruct (t_id t); [lia | discriminate].
        -- exists o'. by rewrite lookup_alter_ne.
      * apply list_elem_of_singleton in Hin as ->. cbn in Hbody. injection Hbody as <-.
        split; [done|]. rewrite lookup_alter_eq, Ho. eexists. split; reflexivity.
    + intros k o' Hk. destruct (decide (obs = k)) as [<-|Hno].
      * by apply (Hb obs o).
      * rewrite lookup_alter_ne in Hk by done. by apply (Hb k o').
    + intros t cb Hin Hbody. apply elem_of_app in Hin as [Hin|Hin]; [by apply (Hc t)|].
      apply list_elem_of_singleton in Hin as ->. discriminate.
  - pose proof (throttle_disconnect obs w H) as Hd'.
    destruct (disconnect obs w) as [[] w1|e w1]; exact Hd'.
Qed.

Lemma preserves_conj {A} (I J : World -> Prop) (m : M A) :
  preserves I m -> preserves J m -> preserves (fun w => I w /\ J w) m.
Proof. intros HI HJ w [H1 H2]. split; [by apply HI | by apply HJ]. Qed.

Lemma timers_wf_complete (i : nat) (w : World) : timers_wf w -> timers_wf (complete i w).
Proof. apply complete_inv; try done; intros; pres_with timers_wf_leaf. Qed.

Lemma throttle_ok_step (e : Event) (w : World) : throttle_ok w -> throttle_ok (step e w).
Proof.
  unfold throttle_ok. apply (step_inv (fun w => timers_wf w /\ throttle_inv w)).
  - intros e' w' [H1 H2]. split; done.
  - intros f w' [H1 H2]. split; done.
  - intros f w' [H1 H2]. split; done.
  - intros c w' [H1 H2]. split; done.
  - intros w' [H1 H2]. split; [done | by apply throttle_clear_dcl].
  - intros w' [H1 H2]. split; done.
  - intros id w' [H1 H2]. split; [by apply timers_wf_fire | by apply throttle_fire].
  - intros i w' [H1 H2]. split; [by apply timers_wf_complete | by apply throttle_complete].
  - intros obs o w' Ho [H1 H2]. split.
    + apply preserves_settle; [done | pres_with timers_wf_leaf | done].
    + by apply (throttle_observer_callback obs o).
  - intros r c. apply preserves_conj; [pres_with timers_wf_leaf | pres_with throttle_leaf].
  - apply preserves_conj; [pres_with timers_wf_leaf | pres_with throttle_leaf].
  - intros w' l Hl [H1 H2]. apply preserves_conj; [pres_with timers_wf_leaf|].
    apply throttle_run_thunk. destruct H2 as (_ & _ & _ & Hd & _). by apply Hd.
  - apply preserves_conj; [pres_with timers_wf_leaf | pres_with throttle_leaf].
  - apply preserves_conj; [pres_with timers_wf_leaf | pres_with throttle_leaf].
  - intros m. apply preserves_conj; [pres_with timers_wf_leaf | pres_with throttle_leaf].
Qed.

Lemma throttle_ok_reachable (w : World) : reachable w -> throttle_ok w.
Proof.
  intros Hr. split; [by apply timers_wf_reachable|].
  destruct Hr as (h & d & es & Hh & Hio & H0 & ->).
  assert (Hboot : throttle_ok (boot h d)).
  { split; [apply timers_wf_reachable; exists h, d, []; done|].
    unfold boot. apply preserves_settle; [done | pres_with throttle_leaf |].
    unfold throttle_inv. cbn. rewrite Hh, Hio.
    split; [|split; [|split; [|split]]].
    - intros t obs Hin. inversion Hin.
    - intros obs o Ho. by rewrite lookup_empty in Ho.
    - intros t cb Hin. inversion Hin.
    - intros l Hin. inversion Hin.
    - intros t Hin. inversion Hin. }
  apply (run_events_inv throttle_ok throttle_ok_step es _ Hboot).
Qed.

Lemma is_pass_body (obs : nat) (t : Timer) :
  is_pass obs t = true <-> t_body t = TrackedTimeout (ThrottledReconcile obs).
Proof.
  unfold is_pass. destruct (t_body t) as [| [] |]; try (split; [discriminate | congruence]).
  rewrite bool_decide_eq_true. split; congruence.
Qed.

Lemma NoDup_all_equal (l : list nat) :
  NoDup l -> (forall x y, x ∈ l -> y ∈ l -> x = y) -> (length l <= 1)%nat.
Proof.
  intros Hnd Heq. destruct l as [|a [|b l]]; cbn; [lia | lia |].
  exfalso. apply NoDup_cons in Hnd as [Hnot _]. apply Hnot.
  rewrite (Heq a b); [by left | by left | right; by left].
Qed.

(** The invariant bounds the pending reconciliation timers of an observer. *)
Lemma at_most_one_pass (obs : nat) (w : World) :
  throttle_ok w -> (length (pending_passes obs w) <= 1)%nat.
Proof.
  intros [(_ & _ & Hnd) (Ha & _)].
  rewrite <- (length_fmap t_id). apply NoDup_all_equal.
  - eapply sublist_NoDup; [exact Hnd|]. apply fmap_sublist, sublist_filter.
  - intros x y Hx Hy.
    apply list_elem_of_fmap in Hx as (tx & -> & Hx). apply list_elem_of_fmap in Hy as (ty & -> & Hy).
    apply list_elem_of_filter in Hx as [Hpx Hx]. apply list_elem_of_filter in Hy as [Hpy Hy].
    apply is_pass_body in Hpx, Hpy.
    destruct (Ha tx obs Hx Hpx) as (_ & ox & Hox & Htx).
    destruct (Ha ty obs Hy Hpy) as (_ & oy & Hoy & Hty).
    congruence.
Qed.

Lemma filter_none {A} (P : A -> Prop) `{forall x, Decision (P x)} (l : list A) :
  (forall x, x ∈ l -> ~ P x) -> filter P l = [].
Proof.
  intros Hn. induction l as [|a l IH]; [done|].
  rewrite filter_cons_False by (apply Hn; by left).
  apply IH. intros x Hx. apply Hn. by right.
Qed.

(** A falsy [timeout] field means nothing is pending for the observer. *)
Lemma falsy_no_pending (obs : nat) (o : Observer) (w : World) :
  throttle_ok w ->
  observer_objs (script w) !! obs = Some o ->
  is_truthy (obs_timeout o) = false ->
  pending_passes obs w = [].
Proof.
  intros [(_ & Hids & _) (Ha & _)] Ho Hf.
  unfold pending_passes. apply filter_none. intros t Hin Hp.
  apply is_pass_body in Hp. destruct (Ha t obs Hin Hp) as (_ & o' & Ho' & Hto).
  rewrite Ho in Ho'. injection Ho' as <-. rewrite Hto in Hf.
  specialize (Hids t Hin). destruct (t_id t); [lia | discriminate].
Qed.

(** The first notification of a burst schedules the pass. *)
Lemma mutation_schedules (obs : nat) (o : Observer) (w : World) :
  observer_objs (script w) !! obs = Some o -> connected o = true ->
  available (chrome (host w)) = true -> body (doc w) = true ->
  is_truthy (obs_timeout o) = false ->
  step (Mutation obs) w = scheduled obs (clock (host w) + 200) w.
Proof.
  intros Ho Hc Hav Hb Hf. cbn [step]. rewrite Ho, Hc.
  unfold observer_callback, isChromeAPIAvailable, get_observer_timeout. mrun.
  rewrite Hav. mrun. rewrite Hb. mrun. rewrite Ho. cbn [mbind option_bind].
  rewrite Hf. unfold safeSetTimeout, setTimeout, set_observer_timeout. mrun.
  reflexivity.
Qed.

(** Every further notification finds the [timeout] field set and returns. *)
Lemma mutation_throttled (obs : nat) (o : Observer) (w : World) :
  observer_objs (script w) !! obs = Some o -> connected o = true ->
  available (chrome (host w)) = true -> body (doc w) = true ->
  is_truthy (obs_timeout o) = true ->
  step (Mutation obs) w = w.
Proof.
  intros Ho Hc Hav Hb Hf. cbn [step]. rewrite Ho, Hc.
  unfold observer_callback, isChromeAPIAvailable, get_observer_timeout. mrun.
  rewrite Hav. mrun. rewrite Hb. mrun. rewrite Ho. cbn [mbind option_bind].
  rewrite Hf. reflexivity.
Qed.

Lemma burst_throttled (obs : nat) (o : Observer) (ds : list Z) (W : World) (c : Z) :
  observer_objs (script W) !! obs = Some o -> connected o = true ->
  available (chrome (host W)) = true -> body (doc W) = true ->
  is_truthy (obs_timeout o) = true ->
  run_events (burst obs ds) (on_host (set_clock c) W)
  = on_host (set_clock (c + elapsed ds)) W.
Proof.
  intros Ho Hc Hav Hb Hf. revert c. induction ds as [|d ds IH]; intros c.
  - cbn. by rewrite Z.add_0_r.
  - cbn [burst flat_map app run_events fold_left].
    change (fold_left (fun w e => step e w) (burst obs ds)
              (step (Mutation obs) (step (Advance d) (on_host (set_clock c) W)))
            = on_host (set_clock (c + elapsed (d :: ds))) W).
    change (step (Advance d) (on_host (set_clock c) W))
      with (on_host (set_clock (c + Z.max 0 d)) W).
    rewrite (mutation_throttled obs o) by done.
    fold (run_events (burst obs ds) (on_host (set_clock (c + Z.max 0 d)) W)).
    rewrite IH. cbn [elapsed foldr]. by rewrite Z.add_assoc.
Qed.

(** Issuing the reconciliation read: one more pass started, no timer and
    no script state touched. *)
Lemma safeGet_pass (w : World) :
  let w1 := world_of (safeGet prefKeys ReconcilePass 1 w) in
  host_timers (host w1) = host_timers (host w) /\
  script w1 = script w /\
  passes_started w1 = S (passes_started w).
Proof.
  assert (Hcall : forall W,
            host_timers (host W) = host_timers (host w) -> script W = script w ->
            pending_io (host W) = pending_io (host w) -> calls (ghost W) = calls (ghost w) ->
            let w1 := world_of (invoke ReconcilePass ∅ W) in
            host_timers (host w1) = host_timers (host w) /\
            script w1 = script w /\
            passes_started w1 = S (passes_started w)).
  { intros W Ht Hs Hp Hc. unfold invoke. cbn [run_getcb]. mrun.
    split; [exact Ht|]. split; [exact Hs|].
    unfold passes_started. wsimpl. rewrite Hp, Ht, Hc.
    rewrite filter_app, length_app. cbn. rewrite decide_True by done. cbn. lia. }
  assert (Hdisp : forall W e,
            host_timers (host W) = host_timers (host w) -> script W = script w ->
            pending_io (host W) = pending_io (host w) -> calls (ghost W) = calls (ghost w) ->
            let w1 := world_of (enqueue_io (GetDone prefKeys ReconcilePass 1 e) W) in
            host_timers (host w1) = host_timers (host w) /\
            script w1 = script w /\
            passes_started w1 = S (passes_started w)).
  { intros W e Ht Hs Hp Hc. unfold enqueue_io. mrun.
    split; [exact Ht|]. split; [exact Hs|].
    unfold passes_started. wsimpl. rewrite Hp, Ht, Hc.
    rewrite filter_app, length_app. cbn. rewrite decide_True by done. cbn. lia. }
  unfold safeGet, storage_local_get, resolve_storage_local. mrun.
  destruct (has_chrome (chrome (host w))); mrun; [|by apply Hcall].
  destruct (has_storage (chrome (host w))); mrun; [|by apply Hcall].
  destruct (has_local (chrome (host w))); mrun; [|by apply Hcall].
  destruct (next_fault (get_faults (host w))) as [f rest]. mrun.
  destruct f as [|m|m]; mrun; [by apply Hdisp | by apply Hcall | by apply Hdisp].
Qed.

Lemma elapsed_nonneg (ds : list Z) : (0 <= elapsed ds)%Z.
Proof.
  induction ds as [|d ds IH]; [done|].
  change (0 <= Z.max 0 d + elapsed ds)%Z. lia.
Qed.

(** What firing the reconciliation timer runs. *)
Lemma fire_body_pass (id obs : nat) (W : World) :
  settle (fire_body id (TrackedTimeout (ThrottledReconcile obs)) W)
  = world_of (safeGet prefKeys ReconcilePass 1
      (on_script (fun s =>
         set_observer_objs
           (alter (fun o => mkObserver (connected o) (disconnect_throws o) None) obs
                  (observer_objs s)) s)
         (on_script (fun s => set_timeouts (remove_first id (timeouts s)) s) W))).
Proof.
  unfold fire_body. cbn [run_thunk]. unfold set_observer_timeout. mrun.
  match goal with |- context [safeGet ?k ?c ?r ?x] => destruct (safeGet k c r x) end;
    reflexivity.
Qed.



(** The scenario: 50 notifications within 49 ms, starting at time 200.
    One timer, due at 400; when it fires, one pass. *)
Example burst_of_fifty :
  let w := started ∅ in
  let w' := run_events (burst 0 (0 :: replicate 49 1)) w in
  let w'' := run_events [Advance 151; Fire 5] w' in
  (clock (host w) = 200 /\ clock (host w') = 249 /\
   t_due <$> pending_passes 0 w' = [400] /\
   length (host_timers (host w')) = S (length (host_timers (host w)))) /\
  (pending_passes 0 w'' = [] /\
   passes_started w'' = S (passes_started w') /\
   obs_timeout <$> (observer_objs (script w'') !! 0%nat) = Some None).
Proof. vm_compute. repeat split; reflexivity. Qed.

(** * Further properties of the content script *)

(** ** Messages from the popup *)

Lemma storage_local_set_cases (data : gmap string bool) (cb : option Thunk) (w : World) :
  available (chrome (host w)) = true ->
  storage_local_set data cb w
  = let fr := next_fault (set_faults (host w)) in
    let w1 := on_host (set_set_faults fr.2) w in
    match fr.1 with
    | ThrowSync msg => Thrown (HostError msg) w1
    | f => Done tt (on_host (fun h => set_pending_io (pending_io h ++ [SetDone data cb (err_of f)]) h) w1)
    end.
Proof.
  intros Hav. destruct (available_inv _ Hav) as (Hc1 & Hc2 & Hc3 & Hc4).
  unfold storage_local_set, resolve_storage_local, enqueue_io.
  repeat (progress (mrun; rewrite ?Hc1, ?Hc2, ?Hc3)).
  destruct (next_fault (set_faults (host w))) as [f rest]. mrun.
  destruct f; reflexivity.
Qed.

(** X1.  A [toggleFeedBlocker] message that reaches the listener while the
    guard passes is acknowledged with [{success: true}] on its channel,
    exactly once, and the listener returns undefined.  The policy is applied
    to the DOM at once, a tracked timer applies it again 100 ms later, and
    nothing has reached the store yet.  All of this holds whatever the store
    call does: when it throws, nothing is even left pending, and the
    acknowledgement is sent all the same. *)
Theorem toggle_feed_acknowledged (b : bool) (chan : nat) (w : World) :
  available (chrome (host w)) = true ->
  let o := message_listener (ToggleFeedBlocker b) chan w in
  let w' := world_of o in
  value_of o = Some Undefined /\
  responses (ghost w') = responses (ghost w) ++ [(chan, Success)] /\
  doc w' = applyChanges b (doc w) /\
  host_timers (host w')
  = host_timers (host w)
    ++ [mkTimer (next_timer (host w)) (clock (host w) + 100) None
          (TrackedTimeout (ApplyChanges b))] /\
  store (host w') = store (host w) /\
  (set_throws w -> pending_io (host w') = pending_io (host w)).
Proof.
  intros Hav. cbn zeta.
  assert (Hid : forall d, body d = false -> applyChanges b d = d).
  { intros d Hb. unfold applyChanges. by rewrite Hb. }
  unfold message_listener, updateBlockerState, safeSet, isChromeAPIAvailable, safeSetTimeout,
    setTimeout, sendResponse, add_dcl_once.
  repeat (progress (mrun; rewrite ?Hav)).
  rewrite (storage_local_set_cases _ _ _ Hav). cbn zeta.
  destruct (next_fault (set_faults (host w))) as [f rest] eqn:Ef. cbn [fst snd].
  assert (Hthrows : set_throws w -> exists m, f = ThrowSync m).
  { intros [Hm|(m & r & Hs)].
    - destruct (available_inv _ Hav) as (Hc1 & Hc2 & Hc3 & Hc4).
      unfold storage_missing in Hm. rewrite Hc1, Hc2, Hc3 in Hm. done.
    - rewrite Hs in Ef. cbn in Ef. exists m. congruence. }
  pose proof (applyChanges_fields b (doc w)) as (_ & Hrs & _).
  destruct f as [|m|m]; mrun;
    destruct (body (doc w)) eqn:Eb; mrun; rewrite ?Hrs;
    destruct (readyState (doc w)) eqn:Er; mrun;
    repeat split; rewrite ?Hid by done; try done;
    intros Ht; destruct (Hthrows Ht); done.
Qed.

Lemma toggle_feed_acknowledged_witness :
  let b := false in
  let chan := 8%nat in
  let w := started ∅ in
  let o := message_listener (ToggleFeedBlocker b) chan w in
  let w' := world_of o in
  value_of o = Some Undefined /\
  responses (ghost w') = responses (ghost w) ++ [(chan, Success)] /\
  doc w' = applyChanges b (doc w) /\
  host_timers (host w')
  = host_timers (host w)
    ++ [mkTimer (next_timer (host w)) (clock (host w) + 100) None
          (TrackedTimeout (ApplyChanges b))] /\
  store (host w') = store (host w) /\
  (set_throws w -> pending_io (host w') = pending_io (host w)).
Proof.
  apply (toggle_feed_acknowledged false 8 (started ∅)). vm_compute. reflexivity.
Defined.

(** X2.  What was toggled is what a later query reports.  With the guard
    passing and store calls that do not fail: after a [toggleFeedBlocker]
    message with value [b], once its write has completed, the store holds
    [feedBlockerEnabled = b]; a [getState] message then answers
    [enabled = b], with [newsEnabled] read from the store as it was. *)
Theorem toggle_then_getState (b : bool) (c1 c2 : nat) (w : World) :
  available (chrome (host w)) = true ->
  onMessage (script w) = true ->
  (next_fault (set_faults (host w))).1 = NoFault ->
  (next_fault (get_faults (host w))).1 = NoFault ->
  let i := length (pending_io (host w)) in
  let w1 := step (Message (ToggleFeedBlocker b) c1) w in
  let w2 := step (Io i) w1 in
  let w3 := step (Message GetState c2) w2 in
  let w4 := step (Io i) w3 in
  store (host w2) = <["feedBlockerEnabled" := b]> (store (host w)) /\
  responses (ghost w4)
  = responses (ghost w)
    ++ [(c1, Success); (c2, State b (pref "newsBlockerEnabled" (store (host w))))].
Proof.
  intros Hav Hon Hsf Hgf i w1 w2 w3 w4. subst i.
  destruct (available_inv _ Hav) as (Hc1 & Hc2 & Hc3 & Hc4).
  pose proof (applyChanges_fields b (doc w)) as (_ & Hrs & _).
  destruct (next_fault (set_faults (host w))) as [f rest] eqn:Ef. cbn [fst snd] in *. subst f.
  (* the toggle *)
  assert (exists s d, w1 =
    mkWorld (set_next_timer (S (next_timer (host w)))
               (set_host_timers
                 (host_timers (host w) ++
                    [mkTimer (next_timer (host w)) (clock (host w) + 100) None
                       (TrackedTimeout (ApplyChanges b))])
                 (set_pending_io
                    (pending_io (host w) ++ [SetDone {["feedBlockerEnabled" := b]} None None])
                    (set_set_faults rest (host w)))))
            d s (log_response (c1, Success) (ghost w)) /\ onMessage s = true)
    as (s & d & E1 & Hs).
  { subst w1. cbn [step]. rewrite Hon.
    unfold message_listener, updateBlockerState, safeSet, isChromeAPIAvailable, safeSetTimeout,
      setTimeout, sendResponse, add_dcl_once.
    repeat (progress (mrun; rewrite ?Hav)).
    rewrite (storage_local_set_cases _ _ _ Hav). cbn zeta. rewrite Ef. mrun.
    destruct (body (doc w)) eqn:Eb; mrun; rewrite ?Hrs;
      destruct (readyState (doc w)) eqn:Er; mrun; unfold on_host, on_script, on_doc, on_ghost;
      wsimpl; eexists _, _; (split; [reflexivity|]); wsimpl; exact Hon. }
  clearbody w1. subst w1.
  (* the write completes *)
  assert (E2 : w2 =
    mkWorld (set_store (<["feedBlockerEnabled" := b]> (store (host w)))
              (set_next_timer (S (next_timer (host w)))
               (set_host_timers
                 (host_timers (host w) ++
                    [mkTimer (next_timer (host w)) (clock (host w) + 100) None
                       (TrackedTimeout (ApplyChanges b))])
                 (set_set_faults rest (host w)))))
            d s (log_response (c1, Success) (ghost w))).
  { subst w2. cbn [step]. erewrite complete_last by (wsimpl; reflexivity).
    unfold complete_io, complete_set, read_lastError, on_host.
    repeat (progress (mrun; rewrite ?Hc1, ?Hc4)).
    rewrite bool_decide_eq_true_2 by done. unfold on_host. mrun. rewrite ?Hc1. mrun.
    rewrite ?Hc4. mrun. rewrite insert_union_singleton_l. reflexivity. }
  clearbody w2. subst w2. split; [reflexivity|].
  (* the query and its answer *)
  subst w4 w3. cbn [step]. wsimpl. rewrite Hs.
  unfold message_listener, isChromeAPIAvailable, safeGet, storage_local_get,
    resolve_storage_local, enqueue_io.
  repeat (progress (mrun; rewrite ?Hav, ?Hc1, ?Hc2, ?Hc3)).
  destruct (next_fault (get_faults (host w))) as [f rest'] eqn:Eg. cbn [fst snd] in *. subst f.
  mrun.
  erewrite complete_last by (wsimpl; reflexivity).
  unfold complete_io, complete_get, read_lastError, invoke, run_getcb, sendResponse.
  repeat (progress (mrun; rewrite ?Hc1, ?Hc4)).
  rewrite !pref_get_result by (unfold prefKeys; set_solver).
  rewrite lookup_insert_eq, lookup_insert_ne by done.
  rewrite <- app_assoc. reflexivity.
Qed.

Lemma toggle_then_getState_witness :
  let b := false in
  let c1 := 8%nat in
  let c2 := 9%nat in
  let w := started ∅ in
  let i := length (pending_io (host w)) in
  let w1 := step (Message (ToggleFeedBlocker b) c1) w in
  let w2 := step (Io i) w1 in
  let w3 := step (Message GetState c2) w2 in
  let w4 := step (Io i) w3 in
  store (host w2) = <["feedBlockerEnabled" := b]> (store (host w)) /\
  responses (ghost w4)
  = responses (ghost w)
    ++ [(c1, Success); (c2, State b (pref "newsBlockerEnabled" (store (host w))))].
Proof.
  apply (toggle_then_getState false 8 9 (started ∅)); vm_compute; reflexivity.
Defined.


(** ** The store *)

Section KeyUntouched.
Context (k : string) (v : option bool).
Hypothesis Hk : k <> "feedBlockerEnabled".

Lemma key_enqueue_get keys cb r err :
  preserves (key_untouched k v) (enqueue_io (GetDone keys cb r err)).
Proof.
  intros w [Hs Hp]. unfold enqueue_io. mrun. split; [done|].
  intros data c e Hin. wsimpl. apply elem_of_app in Hin as [Hin|Hin]; [by eapply Hp|].
  by apply list_elem_of_singleton in Hin.
Qed.

Lemma key_enqueue_set_feed b cb err :
  preserves (key_untouched k v) (enqueue_io (SetDone {[ "feedBlockerEnabled" := b ]} cb err)).
Proof.
  intros w [Hs Hp]. unfold enqueue_io. mrun. split; [done|].
  intros data c e Hin. wsimpl. apply elem_of_app in Hin as [Hin|Hin]; [by eapply Hp|].
  apply list_elem_of_singleton in Hin. injection Hin as -> _ _.
  by apply lookup_singleton_ne.
Qed.

#[local] Hint Resolve key_enqueue_get key_enqueue_set_feed : pres.

Lemma key_safeSet_feed b cb :
  preserves (key_untouched k v) (safeSet {[ "feedBlockerEnabled" := b ]} cb).
Proof. pres_with assumption. Qed.
#[local] Hint Resolve key_safeSet_feed : pres.

Lemma key_run_getcb cb r : preserves (key_untouched k v) (run_getcb cb r).
Proof. pres_with assumption. Qed.
#[local] Hint Resolve key_run_getcb : pres.

Lemma key_safeGet keys cb r : preserves (key_untouched k v) (safeGet keys cb r).
Proof. pres_with assumption. Qed.
#[local] Hint Resolve key_safeGet : pres.

Lemma key_run_thunk self t : preserves (key_untouched k v) (run_thunk self t).
Proof. pres_with assumption. Qed.
#[local] Hint Resolve key_run_thunk : pres.

Lemma key_complete (i : nat) (w : World) : key_untouched k v w -> key_untouched k v (complete i w).
Proof.
  intros H. unfold complete. destruct (pending_io (host w) !! i) as [t|] eqn:Et; [|exact H].
  assert (Hin : t ∈ pending_io (host w)) by (eapply list_elem_of_lookup_2, Et).
  assert (H1 : key_untouched k v
                 (on_host (fun h => set_pending_io (delete i (pending_io h)) h) w)).
  { destruct H as [Hs Hp]. split; [done|]. intros data c e Hd. wsimpl.
    eapply Hp. eapply elem_of_sublist; [exact Hd | apply sublist_delete]. }
  apply preserves_settle; [done | | exact H1].
  destruct t as [keys cb r err|data cb err]; cbn [complete_io]; [pres_with assumption|].
  assert (Hd : data !! k = None) by (destruct H as [_ Hp]; by eapply Hp).
  unfold complete_set.
  apply preserves_bind; [|intros _; pres_with assumption].
  apply preserves_when, preserves_modify. intros w' [Hs Hp]. split; [|done].
  wsimpl. rewrite lookup_union_r by done. exact Hs.
Qed.

Lemma key_step (e : Event) (w : World) : key_untouched k v w -> key_untouched k v (step e w).
Proof.
  apply step_inv; try done; intros;
    first [ by apply key_complete
          | by (apply fire_inv; try done; intros; pres_with assumption)
          | by (apply preserves_settle; [done | pres_with assumption | done])
          | pres_with assumption ].
Qed.
End KeyUntouched.

(** X3.  The content script writes one key only.  When no store call is
    pending as the script starts, then whatever happens on the page, every
    key of the store other than [feedBlockerEnabled] keeps the value it had
    at the start; in particular the script never stores
    [newsBlockerEnabled]. *)
Theorem only_feed_key_written (h : Host) (d : Document) (es : list Event) (k : string) :
  pending_io h = [] ->
  k <> "feedBlockerEnabled" ->
  store (host (run_events es (boot h d))) !! k = store h !! k.
Proof.
  intros Hio Hk.
  enough (key_untouched k (store h !! k) (run_events es (boot h d))) as [H _] by exact H.
  apply run_events_inv; [intros e w; by apply key_step|].
  unfold boot. apply preserves_settle; [done | pres_with assumption |].
  split; [done|]. cbn. rewrite Hio. intros data cb err Hin. inversion Hin.
Qed.

Lemma only_feed_key_written_witness :
  let h := host0 {[ "newsBlockerEnabled" := false ]} in
  let es := [Advance 200; Fire 2; Io 0; Message (ToggleFeedBlocker false) 8; Io 0;
             Message (ToggleNewsBlocker true) 9] in
  let k := "newsBlockerEnabled" in
  store (host (run_events es (boot h page0))) !! k = store h !! k.
Proof.
  apply (only_feed_key_written (host0 {[ "newsBlockerEnabled" := false ]}) page0
           [Advance 200; Fire 2; Io 0; Message (ToggleFeedBlocker false) 8; Io 0;
            Message (ToggleNewsBlocker true) 9]
           "newsBlockerEnabled").
  - reflexivity.
  - intros H. discriminate H.
Defined.


(** ** Initialisation *)

Lemma length_remove_first (x : nat) (l : list nat) :
  (length (remove_first x l) <= length l)%nat.
Proof.
  induction l as [|y l IH]; cbn; [lia|]. destruct (decide (x = y)); cbn; lia.
Qed.

Ltac init_frame_leaf := idtac;
  match goal with
  | H : init_frame _ _ |- _ =>
      destruct H as (? & ? & ?); unfold init_frame; wsimpl;
      repeat split; try done;
      try (etrans; [apply length_remove_first|]; done); cbn; lia
  end.

Lemma init_frame_initFeedBlocker n : preserves (init_frame n) initFeedBlocker.
Proof.
  intros w H. unfold initFeedBlocker. mrun. destruct H as (Hi & ?). rewrite Hi. done.
Qed.
#[local] Hint Resolve init_frame_initFeedBlocker : pres.

Lemma init_frame_run_getcb n cb r : preserves (init_frame n) (run_getcb cb r).
Proof. pres_with init_frame_leaf. Qed.
#[local] Hint Resolve init_frame_run_getcb : pres.

Lemma init_frame_safeGet n keys cb r : preserves (init_frame n) (safeGet keys cb r).
Proof. pres_with init_frame_leaf. Qed.
#[local] Hint Resolve init_frame_safeGet : pres.

Lemma init_frame_createReplacementContent n : preserves (init_frame n) createReplacementContent.
Proof. pres_with init_frame_leaf. Qed.

Lemma init_frame_init_once (n : nat) (w : World) : (n <= 1)%nat -> init_frame n w -> init_once w.
Proof.
  intros Hn (Hi & Hk & Hl). unfold init_once. rewrite Hi, Hk. repeat split; try done.
Qed.

Lemma bind_post {A B} (P Q R : World -> Prop) (m : M A) (k : A -> M B) :
  (forall w, P w -> Q (world_of (m w))) ->
  (forall w, Q w -> R w) ->
  (forall a w, Q w -> R (world_of (k a w))) ->
  forall w, P w -> R (world_of (bind m k w)).
Proof.
  intros Hm HQR Hk w HP. unfold bind. specialize (Hm w HP).
  destruct (m w) as [a w'|e w']; cbn in *; [by apply Hk | by apply HQR].
Qed.

Lemma setupMutationObserver_frame (w : World) :
  init_frame 0 w -> init_frame 1 (world_of (setupMutationObserver w)).
Proof.
  intros (Hi & Hn & Hl).
  unfold setupMutationObserver, new_MutationObserver, startObserving, add_dcl_once,
    safeSetInterval, setInterval. mrun.
  destruct (body (doc w)); mrun; unfold init_frame; wsimpl; rewrite Hi, Hn;
    repeat split; rewrite length_app; cbn; lia.
Qed.

Lemma bind_gets {A B} (f : World -> A) (k : A -> M B) (w : World) :
  bind (gets f) k w = k (f w) w.
Proof. reflexivity. Qed.

Lemma bind_modify {B} (f : World -> World) (k : unit -> M B) (w : World) :
  bind (modify f) k w = k tt (f w).
Proof. reflexivity. Qed.

Lemma init_once_initFeedBlocker : preserves init_once initFeedBlocker.
Proof.
  intros w H. unfold initFeedBlocker. rewrite bind_gets.
  destruct (initialized (script w)) eqn:Ei; [exact H|].
  destruct H as (H1 & H2 & H3). destruct (H3 Ei) as (Hn & Hm & Hc).
  rewrite bind_modify.
  set (w1 := on_script (set_initialized true) w).
  assert (F : init_frame 0 w1).
  { subst w1. unfold init_frame. wsimpl. repeat split; [done|lia]. }
  clearbody w1. unfold isChromeAPIAvailable. rewrite bind_gets.
  destruct (available (chrome (host w1))); cbn [negb];
    [|by apply (init_frame_init_once 0); [lia|]].
  revert w1 F.
  apply (bind_post (init_frame 0) (init_frame 0) init_once);
    [apply init_frame_safeGet | intros; by apply (init_frame_init_once 0); [lia|] |].
  intros ?; cbv beta.
  apply (bind_post (init_frame 0) (init_frame 0) init_once);
    [ change (preserves (init_frame 0)
        (try_catch
           (do c <- gets (fun w => chrome (host w));
            if has_chrome c && has_runtime c
            then modify (on_script (set_onMessage true))
            else throw (TypeError "reading 'onMessage' of undefined"))
           (fun _ => ret tt))); pres_with init_frame_leaf
    | intros; by apply (init_frame_init_once 0); [lia|] |].
  intros ?; cbv beta.
  apply (bind_post (init_frame 0) (init_frame 0) init_once);
    [apply init_frame_createReplacementContent | intros; by apply (init_frame_init_once 0); [lia|] |].
  intros ? w1 F; cbv beta. apply (init_frame_init_once 1); [lia|]. by apply setupMutationObserver_frame.
Qed.
#[local] Hint Resolve init_once_initFeedBlocker : pres.

Ltac init_once_leaf := idtac;
  match goal with
  | H : init_once _ |- _ =>
      destruct H as (? & ? & ?); unfold init_once; wsimpl;
      repeat split; try tauto; try lia;
      try (etrans; [apply length_remove_first|]; done);
      try (cbn; lia)
  end.

Lemma init_once_step (e : Event) (w : World) : init_once w -> init_once (step e w).
Proof.
  apply step_inv; try done; intros;
    first [ by (apply fire_inv; try done; intros; pres_with init_once_leaf)
          | by (apply complete_inv; try done; intros; pres_with init_once_leaf)
          | by (apply preserves_settle; [done | pres_with init_once_leaf | done])
          | pres_with init_once_leaf ].
Qed.

(** X4.  Initialisation runs at most once on a page: in every state the
    script can reach at most one mutation observer has ever been created and
    at most one is registered, and as long as [initialized] is false there
    is no observer, no message listener and no click listener. *)
Theorem initialised_at_most_once (w : World) : reachable w -> init_once w.
Proof.
  intros (h & d & es & _ & _ & _ & ->). apply run_events_inv; [apply init_once_step|].
  unfold boot. apply preserves_settle; [done | pres_with init_once_leaf |].
  unfold init_once. cbn. repeat split; lia.
Qed.

Lemma initialised_at_most_once_witness : init_once (started ∅).
Proof.
  apply (initialised_at_most_once (started ∅)).
  exists (host0 ∅), page0, [Advance 200; Fire 2; Io 0].
  split; [reflexivity|]. split; [reflexivity|]. split; [simpl; lia | reflexivity].
Defined.

Lemma storage_local_get_cases (keys : list string) (cb : GetCb) (r : Z) (w : World) :
  available (chrome (host w)) = true ->
  storage_local_get keys cb r w
  = let fr := next_fault (get_faults (host w)) in
    let w1 := on_host (set_get_faults fr.2) w in
    match fr.1 with
    | ThrowSync msg => Thrown (HostError msg) w1
    | f => Done tt (on_host (fun h =>
             set_pending_io (pending_io h ++ [GetDone keys cb r (err_of f)]) h) w1)
    end.
Proof.
  intros Hav. destruct (available_inv _ Hav) as (Hc1 & Hc2 & Hc3 & Hc4).
  unfold storage_local_get, resolve_storage_local, enqueue_io.
  repeat (progress (mrun; rewrite ?Hc1, ?Hc2, ?Hc3)).
  destruct (next_fault (get_faults (host w))) as [f rest]. mrun.
  destruct f; reflexivity.
Qed.

(** The step of [createReplacement] and of the give-up timer that stops the
    polling interval. *)
Lemma stop_polling (w : World) :
  exists w1,
    (match checkIntervalId (script w) with
     | Some id =>
         when (is_truthy (checkIntervalId (script w)))
           (run clearSafeInterval id; set_var_checkIntervalId None)
     | None => ret tt
     end) w = Done tt w1 /\
    doc w1 = doc w /\ pending_io (host w1) = pending_io (host w) /\
    chrome (host w1) = chrome (host w) /\ get_faults (host w1) = get_faults (host w) /\
    store (host w1) = store (host w) /\ ghost w1 = ghost w /\
    is_truthy (checkIntervalId (script w1)) = false.
Proof.
  destruct (checkIntervalId (script w)) as [[|id]|] eqn:Ec; mrun.
  - eexists. split; [reflexivity|]. by rewrite Ec.
  - unfold clearSafeInterval, clearInterval, clearTimer, set_var_checkIntervalId.
    cbn [is_truthy]. mrun.
    destruct (decide (S id ∈ cancel_faults (host w))); mrun;
      eexists; (split; [reflexivity|]); done.
  - eexists. split; [reflexivity|]. by rewrite Ec.
Qed.

(** X5.  [createReplacement] never throws and returns whether the feed
    container is on the page.  Without the container it changes nothing.
    With it, the polling interval is stopped; a placeholder that is already
    there is left as it is and no read is issued; otherwise one placeholder
    is inserted, shown at once ([display: flex]) when the runtime is not
    available.  Body, body classes and page elements are never touched. *)
Theorem createReplacement_once (w : World) :
  let found := existsb sel_main_feed (elems (doc w)) in
  let o := createReplacement w in
  let w' := world_of o in
  o = Done found w' /\
  (found = false -> w' = w) /\
  (found = true -> is_truthy (checkIntervalId (script w')) = false) /\
  (forall r, found = true -> replacement (doc w) = Some r ->
     doc w' = doc w /\ pending_io (host w') = pending_io (host w)) /\
  (found = true -> replacement (doc w) = None ->
     exists v, doc w' = set_replacement (Some (with_display v new_replacement)) (doc w) /\
       (available (chrome (host w)) = false -> v = "flex")) /\
  body (doc w') = body (doc w) /\ classList (doc w') = classList (doc w) /\
  elems (doc w') = elems (doc w).
Proof.
  cbn zeta. unfold createReplacement. mrun.
  destruct (existsb sel_main_feed (elems (doc w))) eqn:Ef; mrun;
    [|repeat split; done].
  destruct (stop_polling w) as (w1 & Em & Hd & Hp & Hc & _ & _ & _ & Ht).
  cbv beta delta [bind ret throw try_catch gets modify when] in Em. rewrite Em. clear Em.
  destruct (replacement (doc w)) as [r|] eqn:Er.
  - mrun. rewrite ?Hd. repeat split; intros; try done; congruence.
  - unfold isChromeAPIAvailable. mrun. rewrite Hc.
    destruct (available (chrome (host w))) eqn:Hav.
    + unfold safeGet. mrun.
      rewrite storage_local_get_cases by (wsimpl; by rewrite Hc). cbn zeta.
      destruct (next_fault (get_faults (host (on_doc (set_replacement (Some new_replacement)) w1))))
        as [f rest].
      cbn [fst snd]. destruct f as [|msg|msg]; mrun;
        unfold invoke, run_getcb; mrun; rewrite ?Hd;
        repeat split; intros; try done; try congruence;
        eexists; (split; [reflexivity|]); done.
    + mrun. rewrite ?Hd. repeat split; intros; try done; try congruence.
      eexists. split; [reflexivity|]. done.
Qed.

(** X6.  A freshly inserted placeholder takes its visibility from the
    store: once the read issued by [createReplacement] completes, its inline
    display is [flex] when feed blocking is enabled (or not stored) and
    [none] when it is stored as disabled. *)
Theorem placeholder_follows_preference (w : World) :
  existsb sel_main_feed (elems (doc w)) = true ->
  replacement (doc w) = None ->
  available (chrome (host w)) = true ->
  (next_fault (get_faults (host w))).1 = NoFault ->
  let i := length (pending_io (host w)) in
  let w1 := world_of (createReplacement w) in
  let w2 := step (Io i) w1 in
  replacement (doc w1) = Some new_replacement /\
  replacement (doc w2)
  = Some (with_display (if pref "feedBlockerEnabled" (store (host w)) then "flex" else "none")
            new_replacement).
Proof.
  intros Hf Hr Hav Hgf i w1 w2. subst w2 w1 i.
  destruct (available_inv _ Hav) as (Hc1 & Hc2 & Hc3 & Hc4).
  unfold createReplacement. mrun. rewrite Hf. mrun.
  destruct (stop_polling w) as (w1 & Em & Hd & Hp & Hc & Hg & Hs & _ & Ht).
  cbv beta delta [bind ret throw try_catch gets modify when] in Em. rewrite Em. clear Em.
  rewrite Hr. unfold isChromeAPIAvailable. mrun. rewrite Hc, Hav.
  unfold safeGet. mrun.
  rewrite storage_local_get_cases by (wsimpl; by rewrite Hc). cbn zeta. wsimpl. rewrite Hg.
  destruct (next_fault (get_faults (host w))) as [f rest]. cbn [fst snd] in *. subst f.
  mrun. split; [reflexivity|].
  cbn [step]. rewrite <- Hp.
  erewrite complete_last by (wsimpl; reflexivity).
  unfold complete_io, complete_get, read_lastError, invoke, run_getcb.
  cbn [err_of]. repeat (progress (mrun; rewrite ?Hc, ?Hc1, ?Hc4)).
  rewrite pref_get_result by set_solver. rewrite Hs. reflexivity.
Qed.

Lemma placeholder_follows_preference_witness :
  let w := boot (host0 {[ "feedBlockerEnabled" := false ]}) page0 in
  let i := length (pending_io (host w)) in
  let w1 := world_of (createReplacement w) in
  let w2 := step (Io i) w1 in
  replacement (doc w1) = Some new_replacement /\
  replacement (doc w2)
  = Some (with_display (if pref "feedBlockerEnabled" (store (host w)) then "flex" else "none")
            new_replacement).
Proof.
  apply (placeholder_follows_preference (boot (host0 {[ "feedBlockerEnabled" := false ]}) page0));
    vm_compute; reflexivity.
Defined.

Lemma try_catch_ret_no_throw {A} (m : M A) (a : A) (w : World) :
  threw (try_catch m (fun _ => ret a) w) = None.
Proof. unfold try_catch, ret. by destruct (m w). Qed.

Lemma bind_no_throw {A B} (m : M A) (k : A -> M B) (w : World) :
  threw (m w) = None -> (forall a w', threw (k a w') = None) -> threw (bind m k w) = None.
Proof. intros Hm Hk. unfold bind. destruct (m w); [apply Hk | done]. Qed.

Lemma createReplacementContent_no_throw (w : World) :
  threw (createReplacementContent w) = None.
Proof.
  unfold createReplacementContent.
  apply bind_no_throw; [done | intros _ w1].
  apply bind_no_throw; [apply try_catch_ret_no_throw | intros [] w2]; [done|].
  apply bind_no_throw; [apply try_catch_ret_no_throw | intros id w3].
  apply bind_no_throw; [done | intros _ w4].
  apply bind_no_throw; [apply try_catch_ret_no_throw | intros _ w5]. done.
Qed.

Ltac midway_leaf := idtac;
  match goal with
  | H : init_midway _ _ _ _ _ _ |- _ =>
      destruct H as (? & ? & ? & ? & ? & ? & ?); unfold init_midway; wsimpl;
      rewrite ?(proj1 (applyChanges_fields _ _)), ?(proj1 (reconcile_fields _ _ _));
      repeat split; try done;
      try (apply elem_of_app; by left);
      try (match goal with |- context [replacement ?d] => destruct (replacement d) end; done)
  end.

Lemma midway_createReplacementContent n l m bd t :
  preserves (init_midway n l m bd t) createReplacementContent.
Proof. pres_with midway_leaf. Qed.

Lemma initFeedBlocker_midway (w : World) :
  initialized (script w) = false ->
  available (chrome (host w)) = true ->
  (forall m, (next_fault (get_faults (host w))).1 <> ThrowSync m) ->
  exists w3,
    initFeedBlocker w = (run createReplacementContent; setupMutationObserver) w3 /\
    init_midway (next_observer (script w)) (observers (script w)) (observer_objs (script w))
      (body (doc w))
      (GetDone prefKeys InitPrefs 1 (err_of (next_fault (get_faults (host w))).1)) w3.
Proof.
  intros Hin Hav Hf.
  destruct (available_inv _ Hav) as (Hc1 & Hc2 & Hc3 & Hc4).
  unfold initFeedBlocker. rewrite bind_gets, Hin, bind_modify.
  unfold isChromeAPIAvailable. rewrite bind_gets. wsimpl. rewrite Hav. cbn [negb].
  unfold safeGet at 1. unfold bind at 1. unfold try_catch at 1.
  rewrite storage_local_get_cases by (wsimpl; exact Hav). cbn zeta. wsimpl.
  destruct (next_fault (get_faults (host w))) as [f rest]. cbn [fst snd] in *.
  destruct f as [|m|m]; [|by destruct (Hf m)|].
  all: unfold bind at 1; unfold try_catch at 1; rewrite bind_gets; wsimpl.
  all: rewrite Hc1, Hc4; cbn [andb]; unfold modify at 1.
  all: eexists; (split; [reflexivity|]).
  all: unfold init_midway; wsimpl; repeat split; try done.
  all: apply elem_of_app; right; by apply list_elem_of_singleton.
Qed.

(** X7.  The first call of [initFeedBlocker], with the guard passing and a
    store call that does not throw, does not throw and sets everything up:
    the flag, the message listener, the click listener, one new registered
    observer (observing at once when the document has a body, and again on
    [DOMContentLoaded]), the preference read handed to the host, and the
    periodic visibility check every second. *)
Theorem initFeedBlocker_sets_up (w : World) :
  initialized (script w) = false ->
  available (chrome (host w)) = true ->
  (forall m, (next_fault (get_faults (host w))).1 <> ThrowSync m) ->
  let o := initFeedBlocker w in
  let w' := world_of o in
  let obs := next_observer (script w) in
  threw o = None /\
  initialized (script w') = true /\ onMessage (script w') = true /\
  click_listener (script w') = true /\
  observers (script w') = observers (script w) ++ [obs] /\
  connected <$> (observer_objs (script w') !! obs) = Some (body (doc w)) /\
  GetDone prefKeys InitPrefs 1 (err_of (next_fault (get_faults (host w))).1)
    ∈ pending_io (host w') /\
  StartObserving obs ∈ dcl_once (script w') /\
  exists t, t ∈ host_timers (host w') /\ t_body t = TrackedInterval VisibilityCheck /\
            t_period t = Some 1000.
Proof.
  intros Hin Hav Hf. cbn zeta.
  destruct (initFeedBlocker_midway w Hin Hav Hf) as (w3 & -> & P3).
  unfold bind.
  pose proof (createReplacementContent_no_throw w3) as Hnt.
  pose proof (midway_createReplacementContent _ _ _ _ _ w3 P3) as P4.
  destruct (createReplacementContent w3) as [u w4|e w4]; [|discriminate]. cbn in P4.
  destruct P4 as (Hi & Hm & Hn & Ho & Hobj & Hb & Ht).
  unfold setupMutationObserver, new_MutationObserver, startObserving, add_dcl_once,
    safeSetInterval, setInterval. mrun. rewrite ?Hb, ?Hn, ?Ho, ?Hobj.
  destruct (body (doc w)); mrun; rewrite ?Hb, ?Hn, ?Ho, ?Hobj;
    (repeat split; try done;
     [ try (rewrite lookup_alter_eq); rewrite lookup_insert_eq; done
     | apply elem_of_app; right; by apply list_elem_of_singleton
     | eexists; split; [apply elem_of_app; right; by apply list_elem_of_singleton|done] ]).
Qed.

Lemma initFeedBlocker_sets_up_witness :
  let w := boot (host0 ∅) page0 in
  let o := initFeedBlocker w in
  let w' := world_of o in
  let obs := next_observer (script w) in
  threw o = None /\
  initialized (script w') = true /\ onMessage (script w') = true /\
  click_listener (script w') = true /\
  observers (script w') = observers (script w) ++ [obs] /\
  connected <$> (observer_objs (script w') !! obs) = Some (body (doc w)) /\
  GetDone prefKeys InitPrefs 1 (err_of (next_fault (get_faults (host w))).1)
    ∈ pending_io (host w') /\
  StartObserving obs ∈ dcl_once (script w') /\
  exists t, t ∈ host_timers (host w') /\ t_body t = TrackedInterval VisibilityCheck /\
            t_period t = Some 1000.
Proof.
  apply (initFeedBlocker_sets_up (boot (host0 ∅) page0)).
  - vm_compute. reflexivity.
  - vm_compute. reflexivity.
  - intros m H. vm_compute in H. discriminate H.
Defined.

(** X8.  When the store call of the first preference read throws,
    [safeGet] calls the initialisation callback on the spot with an empty
    result: the feed policy is applied with its default [true], and the call
    of the undeclared [updateNewsBlockerState] throws out of
    [initFeedBlocker].  The flag is set, but no message listener, no click
    listener and no observer has been set up. *)
Theorem initFeedBlocker_aborts (w : World) (msg : string) (rest : list Fault) :
  initialized (script w) = false ->
  available (chrome (host w)) = true ->
  get_faults (host w) = ThrowSync msg :: rest ->
  let o := initFeedBlocker w in
  let w' := world_of o in
  threw o = Some (ReferenceError "updateNewsBlockerState is not defined") /\
  initialized (script w') = true /\
  onMessage (script w') = onMessage (script w) /\
  click_listener (script w') = click_listener (script w) /\
  observers (script w') = observers (script w) /\
  next_observer (script w') = next_observer (script w) /\
  doc w' = applyChanges true (doc w) /\
  calls (ghost w') = calls (ghost w) ++ [CallGet InitPrefs ∅].
Proof.
  intros Hin Hav Hf. cbn zeta.
  destruct (available_inv _ Hav) as (Hc1 & Hc2 & Hc3 & Hc4).
  pose proof (applyChanges_fields true (doc w)) as (_ & Hrs & _).
  assert (Hid : forall d, body d = false -> applyChanges true d = d).
  { intros d Hb. unfold applyChanges. by rewrite Hb. }
  assert (E : exists w1,
    initFeedBlocker w = Thrown (ReferenceError "updateNewsBlockerState is not defined") w1 /\
    initialized (script w1) = true /\
    onMessage (script w1) = onMessage (script w) /\
    click_listener (script w1) = click_listener (script w) /\
    observers (script w1) = observers (script w) /\
    next_observer (script w1) = next_observer (script w) /\
    doc w1 = applyChanges true (doc w) /\
    calls (ghost w1) = calls (ghost w) ++ [CallGet InitPrefs ∅]).
  { unfold initFeedBlocker. rewrite bind_gets, Hin, bind_modify.
    unfold isChromeAPIAvailable at 1. rewrite bind_gets. wsimpl. rewrite Hav. cbn [negb].
    unfold safeGet at 1. unfold bind at 1. unfold try_catch at 1.
    rewrite storage_local_get_cases by (wsimpl; exact Hav). cbn zeta. wsimpl.
    rewrite Hf. cbn [next_fault fst snd].
    unfold invoke, run_getcb, updateBlockerState, updateNewsBlockerState, safeSet,
      isChromeAPIAvailable, safeSetTimeout, setTimeout, add_dcl_once.
    unfold pref. rewrite lookup_empty. cbn [default].
    unfold bind at 1. unfold modify at 1. unfold bind at 1. unfold bind at 1.
    unfold gets at 1. wsimpl. rewrite Hav. cbn [negb].
    unfold bind at 1. unfold try_catch at 1. unfold bind at 1. unfold gets at 1.
    wsimpl. rewrite Hav. cbn [negb]. unfold bind at 1.
    rewrite storage_local_set_cases by (wsimpl; exact Hav). cbn zeta. wsimpl.
    destruct (next_fault (set_faults (host w))) as [f rest']. cbn [fst snd].
    destruct f as [|m|m]; mrun;
      destruct (body (doc w)) eqn:Eb; mrun; rewrite ?Hrs;
      destruct (readyState (doc w)) eqn:Er; mrun;
      eexists; (split; [reflexivity|]); wsimpl;
      repeat split; rewrite ?Hid by done; done. }
  destruct E as (w1 & -> & E). exact (conj eq_refl E).
Qed.

Lemma initFeedBlocker_aborts_witness :
  let w := boot (mkHost healthy [ThrowSync "Extension context invalidated."] [] [] ∅ [] 0 1 [])
             page0 in
  let o := initFeedBlocker w in
  let w' := world_of o in
  threw o = Some (ReferenceError "updateNewsBlockerState is not defined") /\
  initialized (script w') = true /\
  onMessage (script w') = onMessage (script w) /\
  click_listener (script w') = click_listener (script w) /\
  observers (script w') = observers (script w) /\
  next_observer (script w') = next_observer (script w) /\
  doc w' = applyChanges true (doc w) /\
  calls (ghost w') = calls (ghost w) ++ [CallGet InitPrefs ∅].
Proof.
  apply (initFeedBlocker_aborts
           (boot (mkHost healthy [ThrowSync "Extension context invalidated."] [] [] ∅ [] 0 1 [])
              page0)
           "Extension context invalidated." []);
    vm_compute; reflexivity.
Defined.


(** ** Without the runtime *)

Lemma torn_down_dormant (w : World) : dormant w -> torn_down w = w.
Proof.
  intros (Ht & Hp & Ho & Hi & Hto & _). unfold torn_down.
  rewrite Ho, Hi, Hto. cbn. rewrite Ht.
  destruct w as [[] d [] g]. cbn in *. subst. reflexivity.
Qed.

Lemma dormant_step (e : Event) (w : World) :
  available (chrome (host w)) = false ->
  is_host_change e = false ->
  dormant w ->
  dormant (step e w) /\ doc (step e w) = page_step (doc w) e /\
  chrome (host (step e w)) = chrome (host w) /\ store (host (step e w)) = store (host w).
Proof.
  intros Hav He Hd.
  pose proof Hd as (Ht & Hp & Ho & Hi & Hto & Hin & Hobj & Hm & Hc & Her & Hdcl & Hg).
  destruct e as [dt|id|i|obs|request chan| | | | |message|c|d]; try discriminate; cbn [step].
  - repeat split; done.
  - unfold fire. rewrite Ht. cbn. done.
  - unfold complete. rewrite Hp. cbn. done.
  - rewrite Hobj, lookup_empty. done.
  - rewrite Hm. done.
  - rewrite Hc. done.
  - set (w1 := on_doc _ _).
    assert (H1 : (dormant w1 /\ dcl_once (script w1) = []) /\
                 doc w1 = page_step (doc w) DOMContentLoaded /\
                 chrome (host w1) = chrome (host w) /\ store (host w1) = store (host w)).
    { subst w1. cbn [page_step]. unfold dormant. wsimpl. repeat split; try done.
      intros l Hl. inversion Hl. }
    clearbody w1. revert w1 H1 Hdcl. generalize (dcl_once (script w)).
    intros ls. induction ls as [|l ls IH]; intros w1 H1 Hls; cbn [fold_left].
    + destruct H1 as ((H1 & _) & H2). done.
    + apply IH; [|intros l' Hl'; apply Hls; by right].
      rewrite (Hls l) by (by left). cbn [run_thunk].
      unfold safeInit, isChromeAPIAvailable. mrun.
      destruct H1 as ((H1 & H1') & H2 & H3 & H4). rewrite H3, Hav. mrun. done.
  - unfold load_listener_body, isChromeAPIAvailable. mrun. rewrite Hin, Hav. mrun.
    destruct (load_once (script w)); mrun; repeat split; done.
  - destruct (unload_listener (script w)); [|done].
    rewrite cleanupResources_eq, torn_down_dormant by done. done.
  - rewrite Her. done.
  - unfold dormant. wsimpl. repeat split; done.
Qed.

Lemma dormant_run (es : list Event) (w : World) :
  available (chrome (host w)) = false ->
  forallb (fun e => negb (is_host_change e)) es = true ->
  dormant w ->
  dormant (run_events es w) /\ doc (run_events es w) = page_of es (doc w) /\
  store (host (run_events es w)) = store (host w).
Proof.
  revert w. induction es as [|e es IH]; intros w Ha Hes Hd; [done|].
  cbn in Hes. apply andb_true_iff in Hes as [He Hes]. apply negb_true_iff in He.
  destruct (dormant_step e w Ha He Hd) as (Hd' & Hdoc' & Hc' & Hs').
  cbn [run_events fold_left page_of].
  destruct (IH (step e w)) as (H1 & H2 & H3); [by rewrite Hc' | done | done |].
  split; [exact H1|]. split; [by rewrite <- Hdoc' | by rewrite <- Hs'].
Qed.

(** X9.  A script that starts while the guard fails, with no timer and no
    store call pending, stays dormant as long as the host runtime does not
    change: it sets no timer, issues no store call, creates no observer,
    registers no message, click or error listener, calls no callback, lets
    no exception escape, and the page is exactly what the page itself and
    its life cycle make of it. *)
Theorem dormant_without_runtime (h : Host) (d : Document) (es : list Event) :
  available (chrome h) = false ->
  host_timers h = [] ->
  pending_io h = [] ->
  forallb (fun e => negb (is_host_change e)) es = true ->
  let w := run_events es (boot h d) in
  dormant w /\ doc w = page_of es d /\ store (host w) = store h.
Proof.
  intros Hav Ht Hp Hes. cbn zeta.
  assert (H0 : dormant (boot h d) /\ host (boot h d) = h /\ doc (boot h d) = d).
  { unfold boot, content_script, safeInit, isChromeAPIAvailable, add_dcl_once. mrun.
    destruct (readyState d); mrun; rewrite ?Hav; mrun; unfold dormant; wsimpl;
      repeat split; try done; intros l Hl; try (by inversion Hl).
    apply list_elem_of_singleton in Hl. done. }
  destruct H0 as (Hd & Hh & Hdoc).
  destruct (dormant_run es (boot h d)) as (H1 & H2 & H3); [by rewrite Hh | done | done |].
  rewrite Hdoc in H2. rewrite Hh in H3. done.
Qed.

Lemma dormant_without_runtime_witness :
  let h := mkHost (mkChrome true true true false) [] [] [] ∅ [] 0 1 [] in
  let d := mkDocument true Loading [] None [feed_el; main_feed_el] in
  let es := [DOMContentLoaded; Load; Click; Advance 5000; Message GetState 3; Mutation 0;
             PageChange page0; BeforeUnload] in
  let w := run_events es (boot h d) in
  dormant w /\ doc w = page_of es d /\ store (host w) = store h.
Proof.
  apply (dormant_without_runtime (mkHost (mkChrome true true true false) [] [] [] ∅ [] 0 1 [])
           (mkDocument true Loading [] None [feed_el; main_feed_el])
           [DOMContentLoaded; Load; Click; Advance 5000; Message GetState 3; Mutation 0;
            PageChange page0; BeforeUnload]);
    reflexivity.
Defined.

Lemma drop_timer_reschedule (id : nat) (due : Z) (l : list Timer) :
  drop_timer id (reschedule id due l) = drop_timer id l.
Proof.
  unfold drop_timer, reschedule. induction l as [|t l IH]; [done|]. cbn [map].
  destruct (decide (t_id t = id)) as [E|E].
  - rewrite bool_decide_eq_true_2 by done.
    rewrite !filter_cons_False by (cbn; intros H; by apply H). exact IH.
  - rewrite bool_decide_eq_false_2 by done.
    rewrite !filter_cons_True by done. by rewrite IH.
Qed.

Lemma drop_timer_idem (id : nat) (l : list Timer) :
  drop_timer id (drop_timer id l) = drop_timer id l.
Proof.
  unfold drop_timer. induction l as [|t l IH]; [done|].
  destruct (decide (t_id t = id)) as [E|E].
  - rewrite !filter_cons_False by (intros H; by apply H). exact IH.
  - rewrite !filter_cons_True by done. by rewrite IH.
Qed.

(** X10.  A tracked interval that is due and fires while the guard fails
    does not run its callback: when its handle can be cancelled, it is
    cancelled and leaves the registry of intervals, and nothing else
    changes. *)
Theorem interval_stops_without_runtime (id : nat) (t : Timer) (cb : Thunk) (w : World) :
  find_timer id (host_timers (host w)) = Some t ->
  t_body t = TrackedInterval cb ->
  (t_due t <= clock (host w))%Z ->
  available (chrome (host w)) = false ->
  id ∉ cancel_faults (host w) ->
  fire id w
  = on_script (fun s => set_intervals (remove_first id (intervals s)) s)
      (on_host (fun h => set_host_timers (drop_timer id (host_timers h)) h) w).
Proof.
  intros Hf Hb Hdue Hav Hc. unfold fire. rewrite Hf.
  rewrite (proj2 (Z.leb_le _ _) Hdue). rewrite Hb.
  unfold fire_body, isChromeAPIAvailable, clearSafeInterval, clearInterval, clearTimer.
  destruct (t_period t) as [p|]; mrun; rewrite Hav; mrun;
    (destruct (decide (id ∈ cancel_faults (host w))); [done|]); mrun;
    unfold on_script, on_host; wsimpl;
    rewrite ?drop_timer_reschedule, ?drop_timer_idem; reflexivity.
Qed.

Lemma interval_stops_without_runtime_witness :
  let id := 1%nat in
  let w := run_events [HostChange (mkChrome true true true false); Advance 5000] (started ∅) in
  fire id w
  = on_script (fun s => set_intervals (remove_first id (intervals s)) s)
      (on_host (fun h => set_host_timers (drop_timer id (host_timers h)) h) w).
Proof.
  apply (interval_stops_without_runtime 1
           (mkTimer 1 5000 (Some 5000) (TrackedInterval Watchdog)) Watchdog
           (run_events [HostChange (mkChrome true true true false); Advance 5000] (started ∅))).
  - vm_compute. reflexivity.
  - reflexivity.
  - vm_compute. discriminate.
  - vm_compute. reflexivity.
  - apply not_elem_of_nil.
Defined.

(** X11.  The watchdog never gets to its cleanup.  When the guard passes
    its callback does nothing, and when the guard fails the interval wrapper
    has already cancelled the interval before the callback could run: a
    firing of the watchdog leaves the observers, their registry, the
    registry of timeouts and every other timer alone. *)
Theorem watchdog_never_cleans (id : nat) (w : World) :
  fire_body id (TrackedInterval Watchdog) w
  = Done tt (if available (chrome (host w)) then w else world_of (clearSafeInterval id w)) /\
  let w' := world_of (fire_body id (TrackedInterval Watchdog) w) in
  observers (script w') = observers (script w) /\
  observer_objs (script w') = observer_objs (script w) /\
  timeouts (script w') = timeouts (script w) /\
  (forall t, t ∈ host_timers (host w) -> t_id t <> id -> t ∈ host_timers (host w')).
Proof.
  cbn zeta.
  unfold fire_body, run_thunk, isChromeAPIAvailable, clearSafeInterval, clearInterval, clearTimer.
  mrun. destruct (available (chrome (host w))) eqn:Hav; mrun.
  - rewrite Hav. mrun. repeat split; done.
  - destruct (decide (id ∈ cancel_faults (host w))); mrun; repeat split; try done.
    intros t Hin Hne. apply elem_of_drop_timer. done.
Qed.

(** X12.  While the guard fails, a message, a click and a mutation
    notification touch neither the host (store, pending calls, timers), nor
    the DOM, nor the log: no response is sent.  The click listener removes
    itself, and delivering the same event again changes nothing more. *)
Theorem guarded_entry_inert (e : Event) (w : World) :
  guarded_event e = true ->
  available (chrome (host w)) = false ->
  let w' := step e w in
  host w' = host w /\ doc w' = doc w /\ ghost w' = ghost w /\
  (e = Click -> click_listener (script w') = false) /\
  step e w' = w'.
Proof.
  intros He Hav. cbn zeta.
  destruct e as [dt|id|i|obs|request chan| | | | |message|c|d]; try discriminate; cbn [step].
  - destruct (observer_objs (script w) !! obs) as [o|] eqn:Eo; [|by rewrite ?Eo].
    destruct (connected o) eqn:Ec; [|by rewrite ?Eo, ?Ec].
    unfold observer_callback, isChromeAPIAvailable, disconnect. mrun. rewrite Hav. mrun.
    rewrite Eo. destruct (disconnect_throws o) eqn:Et; mrun.
    + rewrite Eo, Ec. mrun. rewrite Hav. mrun. rewrite Eo, Et. mrun. done.
    + rewrite lookup_insert_eq. mrun. done.
  - destruct (onMessage (script w)) eqn:Eo; [|by rewrite ?Eo].
    unfold message_listener, isChromeAPIAvailable. mrun. rewrite Hav. mrun.
    rewrite Eo. mrun. rewrite Hav. mrun. done.
  - destruct (click_listener (script w)) eqn:Eo; [|by rewrite ?Eo].
    unfold clickHandler, isChromeAPIAvailable. mrun. rewrite Hav. mrun. done.
Qed.

Lemma guarded_entry_inert_witness :
  let e := Click in
  let w := step (HostChange (mkChrome true true true false)) (started ∅) in
  let w' := step e w in
  host w' = host w /\ doc w' = doc w /\ ghost w' = ghost w /\
  (e = Click -> click_listener (script w') = false) /\
  step e w' = w'.
Proof.
  apply (guarded_entry_inert Click
           (step (HostChange (mkChrome true true true false)) (started ∅)));
    vm_compute; reflexivity.
Defined.


(** ** The registries of the tracker *)



Lemma remove_first_sub (x y : nat) (l : list nat) : x ∈ remove_first y l -> x ∈ l.
Proof.
  induction l as [|z l IH]; cbn; [done|]. destruct (decide (y = z)) as [->|Hne].
  - intros H. by right.
  - intros H. apply elem_of_cons in H as [->|H]; [by left | right; by apply IH].
Qed.

Lemma NoDup_remove_first (y : nat) (l : list nat) :
  NoDup l -> NoDup (remove_first y l) /\ y ∉ remove_first y l.
Proof.
  induction 1 as [|z l Hz Hl IH]; cbn; [split; [constructor | by intros H; inversion H]|].
  destruct (decide (y = z)) as [->|Hne]; [done|].
  destruct IH as [IH1 IH2]. split.
  - constructor; [|done]. intros H. apply Hz. by apply remove_first_sub in H.
  - intros H. apply elem_of_cons in H as [->|H]; done.
Qed.

Lemma timer_unique (w : World) (t1 t2 : Timer) :
  timers_wf w -> t1 ∈ host_timers (host w) -> t2 ∈ host_timers (host w) ->
  t_id t1 = t_id t2 -> t1 = t2.
Proof.
  intros (_ & _ & Hn) H1 H2 He.
  apply list_elem_of_lookup in H1 as [i1 H1]. apply list_elem_of_lookup in H2 as [i2 H2].
  assert (i1 = i2).
  { eapply NoDup_lookup; [exact Hn | |]; rewrite list_lookup_fmap.
    - by rewrite H1.
    - rewrite H2. cbn. by rewrite He. }
  subst. congruence.
Qed.

Lemma registry_ok_zero (self : nat) (w : World) : registry_ok self w -> registry_ok 0 w.
Proof.
  intros (Hwf & Hd1 & Hd2 & Hc & Hd & He & Hf & _ & _). split; [done|].
  split; [|split; [|split; [|split; [|split; [|split; [|split]]]]]]; try done.
  - intros Hin. destruct (Hc 0%nat Hin) as (t & cb & Ht & Hid & _).
    destruct Hwf as (_ & Hb & _). apply Hb in Ht. lia.
  - by destruct Hwf.
Qed.

Lemma registry_ok_self (self : nat) (w : World) :
  registry_ok 0 w -> self ∉ timeouts (script w) -> (self < next_timer (host w))%nat ->
  registry_ok self w.
Proof.
  intros (Hwf & Hd1 & Hd2 & Hc & Hd & He & Hf & _ & _) H1 H2. split; [done|].
  split; [|split; [|split; [|split; [|split; [|split; [|split]]]]]]; done.
Qed.

Lemma listed_below (self : nat) (w : World) (id : nat) :
  registry_ok self w -> id ∈ timeouts (script w) \/ id ∈ intervals (script w) ->
  (id < next_timer (host w))%nat.
Proof.
  intros ((_ & Hb & _) & _ & _ & Hc & Hd & _) [H|H].
  - destruct (Hc id H) as (t & cb & Ht & <- & _). apply Hb in Ht. lia.
  - destruct (Hd id H) as (t & cb & Ht & <- & _). apply Hb in Ht. lia.
Qed.

Lemma registry_safeSetTimeout self cb delay :
  preserves (registry_ok self) (safeSetTimeout cb delay).
Proof.
  intros w H. split; [apply (ltac:(pres_with timers_wf_leaf) :
                        preserves timers_wf (safeSetTimeout cb delay)); apply H|].
  pose proof (listed_below self w) as Hlt.
  destruct H as (Hwf & Hd1 & Hd2 & Hc & Hd & He & Hf & Hs1 & Hs2).
  specialize (fun id Hin => Hlt id (conj Hwf (conj Hd1 (conj Hd2 (conj Hc (conj Hd (conj He
                (conj Hf (conj Hs1 Hs2)))))))) Hin).
  unfold safeSetTimeout, setTimeout, reg_inv. mrun.
  split; [|split; [|split; [|split; [|split; [|split; [|split]]]]]].
  - apply NoDup_app. split; [done|]. split; [|apply NoDup_singleton].
    intros x Hx Hx'. apply list_elem_of_singleton in Hx' as ->.
    specialize (Hlt _ (or_introl Hx)). lia.
  - done.
  - intros id Hin. apply elem_of_app in Hin as [Hin|Hin].
    + destruct (Hc id Hin) as (t & c & Ht & Hid & Hb). exists t, c.
      split; [apply elem_of_app; by left | done].
    + apply list_elem_of_singleton in Hin as ->. eexists _, _.
      split; [apply elem_of_app; right; by apply list_elem_of_singleton | done].
  - intros id Hin. destruct (Hd id Hin) as (t & c & Ht & Hid & Hb). exists t, c.
    split; [apply elem_of_app; by left | done].
  - intros t c Hin Hb. apply elem_of_app in Hin as [Hin|Hin]; [by eapply He|].
    apply list_elem_of_singleton in Hin as ->. discriminate.
  - intros n Hn. destruct (Hf n Hn) as [Hn1 Hn2]. split; [|lia].
    intros Hin. apply elem_of_app in Hin as [Hin|Hin]; [done|].
    apply list_elem_of_singleton in Hin. lia.
  - intros Hin. apply elem_of_app in Hin as [Hin|Hin]; [done|].
    apply list_elem_of_singleton in Hin. lia.
  - lia.
Qed.

Lemma registry_safeSetInterval self cb delay :
  preserves (registry_ok self) (safeSetInterval cb delay).
Proof.
  intros w H. split; [apply (ltac:(pres_with timers_wf_leaf) :
                        preserves timers_wf (safeSetInterval cb delay)); apply H|].
  pose proof (listed_below self w) as Hlt.
  destruct H as (Hwf & Hd1 & Hd2 & Hc & Hd & He & Hf & Hs1 & Hs2).
  specialize (fun id Hin => Hlt id (conj Hwf (conj Hd1 (conj Hd2 (conj Hc (conj Hd (conj He
                (conj Hf (conj Hs1 Hs2)))))))) Hin).
  unfold safeSetInterval, setInterval, reg_inv. mrun.
  split; [|split; [|split; [|split; [|split; [|split; [|split]]]]]].
  - done.
  - apply NoDup_app. split; [done|]. split; [|apply NoDup_singleton].
    intros x Hx Hx'. apply list_elem_of_singleton in Hx' as ->.
    specialize (Hlt _ (or_intror Hx)). lia.
  - intros id Hin. destruct (Hc id Hin) as (t & c & Ht & Hid & Hb). exists t, c.
    split; [apply elem_of_app; by left | done].
  - intros id Hin. apply elem_of_app in Hin as [Hin|Hin].
    + destruct (Hd id Hin) as (t & c & Ht & Hid & Hb). exists t, c.
      split; [apply elem_of_app; by left | done].
    + apply list_elem_of_singleton in Hin as ->. eexists _, _.
      split; [apply elem_of_app; right; by apply list_elem_of_singleton | done].
  - intros t c Hin Hb. apply elem_of_app in Hin as [Hin|Hin]; [by eapply He|].
    apply list_elem_of_singleton in Hin as ->. cbn. eauto.
  - intros n Hn. destruct (Hf n Hn) as [Hn1 Hn2]. split; [done|lia].
  - done.
  - lia.
Qed.

Lemma registry_setTimeout_retry self keys cb r delay :
  preserves (registry_ok self) (setTimeout (RetryGet keys cb r) delay).
Proof.
  intros w H. split; [apply timers_wf_setTimeout; apply H|].
  destruct H as (Hwf & Hd1 & Hd2 & Hc & Hd & He & Hf & Hs1 & Hs2).
  unfold setTimeout, reg_inv. wsimpl.
  split; [|split; [|split; [|split; [|split; [|split; [|split]]]]]]; try done.
  - intros id Hin. destruct (Hc id Hin) as (t & c & Ht & Hid & Hb). exists t, c.
    split; [apply elem_of_app; by left | done].
  - intros id Hin. destruct (Hd id Hin) as (t & c & Ht & Hid & Hb). exists t, c.
    split; [apply elem_of_app; by left | done].
  - intros t c Hin Hb. apply elem_of_app in Hin as [Hin|Hin]; [by eapply He|].
    apply list_elem_of_singleton in Hin as ->. discriminate.
  - intros n Hn. destruct (Hf n Hn) as [Hn1 Hn2]. split; [done|lia].
  - lia.
Qed.

(** Cancelling an interval by an id that is not a listed one-shot timer. *)
Lemma registry_clear (self id : nat) (w : World) :
  registry_ok self w -> id ∉ timeouts (script w) ->
  registry_ok self (world_of (clearSafeInterval id w)).
Proof.
  intros H Hid. unfold clearSafeInterval, clearInterval, clearTimer. mrun.
  destruct (decide (id ∈ cancel_faults (host w))); mrun; [exact H|].
  split; [apply timers_wf_drop; apply H|].
  destruct H as (Hwf & Hd1 & Hd2 & Hc & Hd & He & Hf & Hs1 & Hs2).
  destruct (NoDup_remove_first id _ Hd2) as [Hn1 Hn2].
  unfold reg_inv. wsimpl.
  split; [|split; [|split; [|split; [|split; [|split; [|split]]]]]]; try done.
  - intros i Hin. destruct (Hc i Hin) as (t & c & Ht & Hi & Hb). exists t, c.
    split; [|done]. apply elem_of_drop_timer. split; [done|]. intros E. apply Hid. congruence.
  - intros i Hin. destruct (Hd i (remove_first_sub _ _ _ Hin)) as (t & c & Ht & Hi & Hb).
    exists t, c. split; [|done]. apply elem_of_drop_timer. split; [done|].
    intros E. apply Hn2. congruence.
  - intros t c Hin Hb. apply elem_of_drop_timer in Hin as [Hin _]. by eapply He.
Qed.

Lemma registry_clear_self self : preserves (registry_ok self) (clearSafeInterval self).
Proof. intros w H. apply registry_clear; [done|]. apply H. Qed.

Lemma registry_cleanupResources self : preserves (registry_ok self) cleanupResources.
Proof.
  intros w H. rewrite cleanupResources_eq. cbn [world_of].
  split.
  - pose proof (ltac:(pres_with timers_wf_leaf) : preserves timers_wf cleanupResources) as P.
    specialize (P w (proj1 H)). by rewrite cleanupResources_eq in P.
  - destruct H as (Hwf & Hd1 & Hd2 & Hc & Hd & He & Hf & Hs1 & Hs2).
    unfold torn_down, reg_inv. wsimpl.
    split; [constructor|]. split; [constructor|].
    split; [intros id Hin; inversion Hin|]. split; [intros id Hin; inversion Hin|].
    split.
    { intros t c Hin Hb. apply elem_of_sweep in Hin as [Hin _].
      apply elem_of_sweep in Hin as [Hin _]. by eapply He. }
    split; [|split; [by intros Hin; inversion Hin | done]].
    intros n Hn. split; [by intros Hin; inversion Hin | by apply Hf].
Qed.

Lemma registry_set_var_None self :
  preserves (registry_ok self) (set_var_checkIntervalId None).
Proof.
  intros w (Hwf & Hd1 & Hd2 & Hc & Hd & He & Hf & Hs1 & Hs2).
  unfold set_var_checkIntervalId. mrun. split; [done|].
  unfold reg_inv. wsimpl.
  split; [|split; [|split; [|split; [|split; [|split; [|split]]]]]]; done.
Qed.

#[local] Hint Resolve registry_safeSetTimeout registry_safeSetInterval
  registry_setTimeout_retry registry_clear_self registry_cleanupResources
  registry_set_var_None : pres.

(** The polling interval is stopped by the id kept in [checkIntervalId]. *)
Lemma registry_stop_polling self (w : World) :
  registry_ok self w ->
  registry_ok self
    (world_of ((match checkIntervalId (script w) with
                | Some id =>
                    when (is_truthy (checkIntervalId (script w)))
                      (run clearSafeInterval id; set_var_checkIntervalId None)
                | None => ret tt
                end) w)).
Proof.
  intros H. destruct (checkIntervalId (script w)) as [n|] eqn:En; [|exact H].
  destruct (is_truthy (Some n)); [|exact H]. cbn [when].
  assert (Hn : n ∉ timeouts (script w)).
  { destruct H as (_ & _ & _ & _ & _ & _ & Hf & _). by apply Hf. }
  pose proof (registry_clear self n w H Hn) as H1.
  unfold bind. destruct (clearSafeInterval n w) as [u w1|e w1]; cbn in H1 |- *; [|exact H1].
  by apply registry_set_var_None.
Qed.

Lemma registry_run_getcb self cb r : preserves (registry_ok self) (run_getcb cb r).
Proof. pres_with assumption. Qed.
#[local] Hint Resolve registry_run_getcb : pres.

Lemma registry_safeGet self keys cb r : preserves (registry_ok self) (safeGet keys cb r).
Proof. pres_with assumption. Qed.
#[local] Hint Resolve registry_safeGet : pres.

Lemma preserves_bind_gets {A B} (I : World -> Prop) (f : World -> A) (k : A -> M B) :
  (forall w, I w -> I (world_of (k (f w) w))) -> preserves I (bind (gets f) k).
Proof. intros H w Hw. by apply H. Qed.

Lemma registry_createReplacement self : preserves (registry_ok self) createReplacement.
Proof.
  unfold createReplacement.
  apply preserves_try_catch; [|intros ?; apply preserves_ret].
  apply preserves_bind; [apply preserves_gets | intros d].
  destruct (negb (existsb sel_main_feed (elems d))); [apply preserves_ret|].
  apply preserves_bind_gets. intros w H.
  pose proof (registry_stop_polling self w H) as H1.
  unfold bind at 1.
  match goal with |- registry_ok _ (world_of (match ?m with _ => _ end)) =>
    destruct m as [u w1|e w1] end; cbn in H1; [|exact H1].
  revert w1 H1. clear w H.
  change (preserves (registry_ok self)
            (match replacement d with
             | Some _ => ret true
             | None =>
                 run modify (on_doc (set_replacement (Some new_replacement)));
                 run try_catch
                       (do ok <- isChromeAPIAvailable;
                        if ok then safeGet ["feedBlockerEnabled"] ReplacementVisibility 1
                        else modify (on_doc (set_replacement
                                       (Some (with_display "flex" new_replacement)))))
                       (fun _ => ret tt);
                 ret true
             end)).
  pres_with assumption.
Qed.
#[local] Hint Resolve registry_createReplacement : pres.

Lemma registry_createReplacementContent self :
  preserves (registry_ok self) createReplacementContent.
Proof.
  unfold createReplacementContent.
  apply preserves_bind; [apply registry_set_var_None | intros _].
  apply preserves_bind; [apply registry_createReplacement | intros created].
  destruct created; [apply preserves_ret|].
  (* the polling interval and its give-up timer *)
  intros w2 H2.
  pose proof (registry_safeSetInterval self CreateReplacement 500 w2 H2) as H3.
  unfold bind at 1. unfold safeSetInterval, setInterval in H3 |- *.
  unfold try_catch, bind, modify, ret in H3 |- *. cbn [world_of] in H3 |- *.
  set (w3 := on_script _ (on_host _ w2)) in *.
  assert (H4 : registry_ok self (on_script (set_checkIntervalId (Some (next_timer (host w2)))) w3)).
  { destruct H3 as (Hwf & Hd1 & Hd2 & Hc & Hd & He & Hf & Hs1 & Hs2). split; [done|].
    unfold reg_inv. wsimpl.
    split; [|split; [|split; [|split; [|split; [|split; [|split]]]]]]; try done.
    intros n [= <-]. subst w3. wsimpl. split; [|lia].
    intros Hin. pose proof (listed_below self w2 (next_timer (host w2)) H2 (or_introl Hin)).
    lia. }
  unfold set_var_checkIntervalId, modify.
  pose proof (registry_safeSetTimeout self GiveUpReplacement 10000 _ H4) as H5.
  destruct (safeSetTimeout GiveUpReplacement 10000 _); exact H5.
Qed.
#[local] Hint Resolve registry_createReplacementContent : pres.

Lemma registry_run_thunk self t : preserves (registry_ok self) (run_thunk self t).
Proof.
  destruct t; try solve [pres_with assumption].
  (* the give-up timer *)
  cbn [run_thunk]. apply preserves_bind_gets. intros w H. by apply registry_stop_polling.
Qed.

#[local] Hint Resolve registry_run_thunk : pres.

(** A timer that leaves the table, or is rescheduled, when no registry
    lists its id. *)
Lemma registry_drop (self id : nat) (w : World) :
  registry_ok self w -> id ∉ timeouts (script w) -> id ∉ intervals (script w) ->
  registry_ok self (on_host (fun h => set_host_timers (drop_timer id (host_timers h)) h) w).
Proof.
  intros H Ht Hi. split; [apply timers_wf_drop; apply H|].
  destruct H as (Hwf & Hd1 & Hd2 & Hc & Hd & He & Hf & Hs1 & Hs2).
  unfold reg_inv. wsimpl.
  split; [|split; [|split; [|split; [|split; [|split; [|split]]]]]]; try done.
  - intros i Hin. destruct (Hc i Hin) as (t & c & Hin' & Hid & Hb). exists t, c.
    split; [|done]. apply elem_of_drop_timer. split; [done|]. intros E. apply Ht. congruence.
  - intros i Hin. destruct (Hd i Hin) as (t & c & Hin' & Hid & Hb). exists t, c.
    split; [|done]. apply elem_of_drop_timer. split; [done|]. intros E. apply Hi. congruence.
  - intros t c Hin Hb. apply elem_of_drop_timer in Hin as [Hin _]. by eapply He.
Qed.

Lemma elem_of_reschedule_2 (t : Timer) (id : nat) (due : Z) (l : list Timer) :
  t ∈ l ->
  exists t', t' ∈ reschedule id due l /\ t_id t' = t_id t /\ t_body t' = t_body t /\
             t_period t' = t_period t.
Proof.
  intros Hin. unfold reschedule.
  exists (if bool_decide (t_id t = id) then mkTimer (t_id t) due (t_period t) (t_body t) else t).
  split; [apply list_elem_of_fmap; by exists t|].
  destruct (bool_decide (t_id t = id)); done.
Qed.

Lemma registry_reschedule (self id : nat) (f : Host -> Z) (w : World) :
  registry_ok self w ->
  registry_ok self
    (on_host (fun h => set_host_timers (reschedule id (f h) (host_timers h)) h) w).
Proof.
  intros H. split; [apply timers_wf_reschedule; apply H|].
  destruct H as (Hwf & Hd1 & Hd2 & Hc & Hd & He & Hf & Hs1 & Hs2).
  unfold reg_inv. wsimpl.
  split; [|split; [|split; [|split; [|split; [|split; [|split]]]]]]; try done.
  - intros i Hin. destruct (Hc i Hin) as (t & c & Hin' & Hid & Hb).
    destruct (elem_of_reschedule_2 t id (f (host w)) _ Hin') as (t' & H1 & H2 & H3 & H4).
    exists t', c. split; [done|]. split; congruence.
  - intros i Hin. destruct (Hd i Hin) as (t & c & Hin' & Hid & Hb).
    destruct (elem_of_reschedule_2 t id (f (host w)) _ Hin') as (t' & H1 & H2 & H3 & H4).
    exists t', c. split; [done|]. split; congruence.
  - intros t' c Hin Hb. apply elem_of_reschedule in Hin as (t & Hin & H2 & H3 & H4).
    rewrite H4. eapply He; [exact Hin | by rewrite <- H3].
Qed.

(** The id of a pending timer is listed only in the registry of its kind. *)
Lemma listed_kind (self : nat) (w : World) (t : Timer) :
  registry_ok self w -> t ∈ host_timers (host w) ->
  (t_id t ∈ timeouts (script w) -> exists cb, t_body t = TrackedTimeout cb) /\
  (t_id t ∈ intervals (script w) -> exists cb, t_body t = TrackedInterval cb).
Proof.
  intros (Hwf & _ & _ & Hc & Hd & _) Hin. split; intros Hl.
  - destruct (Hc _ Hl) as (t' & c & Hin' & Hid & Hb).
    rewrite <- (timer_unique w t' t Hwf Hin' Hin Hid). eauto.
  - destruct (Hd _ Hl) as (t' & c & Hin' & Hid & Hb).
    rewrite <- (timer_unique w t' t Hwf Hin' Hin Hid). eauto.
Qed.

Lemma registry_fire (id : nat) (w : World) : registry_ok 0 w -> registry_ok 0 (fire id w).
Proof.
  intros H. unfold fire.
  destruct (find_timer id (host_timers (host w))) as [t|] eqn:Ef; [|exact H].
  destruct (t_due t <=? clock (host w))%Z; [|exact H].
  apply find_timer_Some in Ef as [Hin Hid].
  destruct (listed_kind 0 w t H Hin) as [Hk1 Hk2]. rewrite Hid in Hk1, Hk2.
  assert (Hlt : (id < next_timer (host w))%nat).
  { destruct H as ((_ & Hb & _) & _). apply Hb in Hin. lia. }
  destruct (t_body t) as [keys cb r|cb|cb] eqn:Eb.
  - (* a retry of a read *)
    assert (H1 : id ∉ timeouts (script w)) by (intros Hl; by destruct (Hk1 Hl)).
    assert (H2 : id ∉ intervals (script w)) by (intros Hl; by destruct (Hk2 Hl)).
    apply preserves_settle; [done | apply registry_safeGet |].
    destruct (t_period t); [by apply registry_reschedule | by apply registry_drop].
  - (* a tracked one-shot timer: the wrapper forgets the id, then runs the callback *)
    assert (H2 : id ∉ intervals (script w)) by (intros Hl; by destruct (Hk2 Hl)).
    set (w1 := match t_period t with Some p => _ | None => _ end).
    cbn [fire_body]. unfold try_catch, bind at 1, modify at 1.
    set (w2 := on_script _ w1).
    assert (Hw2 : registry_ok id w2).
    { destruct H as (Hwf & Hd1 & Hd2 & Hc & Hd & He & Hf & Hs1 & Hs2).
      destruct (NoDup_remove_first id _ Hd1) as [Hn1 Hn2].
      assert (Hwf1 : timers_wf w1).
      { subst w1. destruct (t_period t);
          [by apply timers_wf_reschedule | by apply timers_wf_drop]. }
      assert (Hkeep : forall t0, t0 ∈ host_timers (host w) -> t_id t0 <> id ->
                exists t', t' ∈ host_timers (host w1) /\ t_id t' = t_id t0 /\
                           t_body t' = t_body t0).
      { intros t0 Hin0 Hne. subst w1. destruct (t_period t) as [p|]; wsimpl.
        - destruct (elem_of_reschedule_2 t0 id (clock (host w) + p) _ Hin0)
            as (t' & ? & ? & ? & ?). eauto.
        - exists t0. split; [|done]. by apply elem_of_drop_timer. }
      assert (Hsub : forall t', t' ∈ host_timers (host w1) ->
                exists t0, t0 ∈ host_timers (host w) /\ t_body t' = t_body t0 /\
                           t_period t' = t_period t0).
      { intros t' Hin'. subst w1. destruct (t_period t) as [p|]; wsimpl.
        - apply elem_of_reschedule in Hin' as (t0 & ? & ? & ? & ?). eauto.
        - apply elem_of_drop_timer in Hin' as [Hin' _]. eauto. }
      assert (Hnext : next_timer (host w1) = next_timer (host w))
        by (subst w1; by destruct (t_period t)).
      assert (Hscr : script w1 = script w) by (subst w1; by destruct (t_period t)).
      split; [exact Hwf1|]. subst w2. unfold reg_inv. wsimpl. rewrite Hscr, Hnext.
      split; [|split; [|split; [|split; [|split; [|split; [|split]]]]]]; try done.
      - intros i Hi. assert (Hne : i <> id) by (intros ->; done).
        destruct (Hc i (remove_first_sub _ _ _ Hi)) as (t0 & c & Hin0 & Hid0 & Hb0).
        destruct (Hkeep t0 Hin0) as (t' & ? & ? & ?); [congruence|].
        exists t', c. split; [done|]. split; congruence.
      - intros i Hi. assert (Hne : i <> id) by (intros ->; done).
        destruct (Hd i Hi) as (t0 & c & Hin0 & Hid0 & Hb0).
        destruct (Hkeep t0 Hin0) as (t' & ? & ? & ?); [congruence|].
        exists t', c. split; [done|]. split; congruence.
      - intros t' c Hin' Hb'. destruct (Hsub t' Hin') as (t0 & Hin0 & Hb0 & Hp0).
        rewrite Hp0. eapply He; [exact Hin0 | by rewrite <- Hb0].
      - intros n Hn. destruct (Hf n Hn) as [Hn3 Hn4]. split; [|done].
        intros Hi. apply Hn3. by apply remove_first_sub in Hi. }
    clearbody w2. pose proof (registry_run_thunk id cb w2 Hw2) as H3.
    destruct (run_thunk id cb w2); cbn in H3 |- *; by apply (registry_ok_zero id).
  - (* a tracked interval *)
    pose proof H as H0.
    destruct H as (Hwf & Hd1 & Hd2 & Hc & Hd & He & Hf & Hs1 & Hs2).
    destruct (He t cb Hin Eb) as [p Hp]. rewrite Hp.
    assert (H1 : id ∉ timeouts (script w)) by (intros Hl; by destruct (Hk1 Hl)).
    pose proof (registry_reschedule 0 id (fun h => clock h + p) w H0) as H2.
    set (w1 := on_host _ w) in *.
    assert (Hw1 : registry_ok id w1) by (apply registry_ok_self; subst w1; done).
    assert (P : preserves (registry_ok id) (fire_body id (TrackedInterval cb)))
      by pres_with assumption.
    apply (registry_ok_zero id). apply preserves_settle; [done | exact P | exact Hw1].
Qed.

Lemma registry_step (e : Event) (w : World) : registry_ok 0 w -> registry_ok 0 (step e w).
Proof.
  apply step_inv; try done; intros;
    first [ by apply registry_fire
          | by (apply complete_inv; try done; intros; pres_with assumption)
          | by (apply preserves_settle; [done | pres_with assumption | done])
          | pres_with assumption ].
Qed.

Lemma registry_reachable (w : World) : reachable w -> registry_ok 0 w.
Proof.
  intros (h & d & es & Hh & Hio & H0 & ->).
  apply run_events_inv; [apply registry_step|].
  unfold boot. apply preserves_settle; [done | pres_with assumption |].
  split.
  - split; [exact H0|]. cbn. rewrite Hh. split; [intros t Hin; inversion Hin | constructor].
  - unfold reg_inv. cbn. rewrite Hh.
    split; [constructor|]. split; [constructor|].
    split; [intros id Hin; inversion Hin|]. split; [intros id Hin; inversion Hin|].
    split; [intros t cb Hin; inversion Hin|]. split; [done|].
    split; [intros Hin; inversion Hin | exact H0].
Qed.

(** X13.  The tracker's bookkeeping is exact in every state the script can
    reach.  The registries hold no duplicate and no stale id: every id in
    [timeouts] names a pending timer made by [safeSetTimeout], every id in
    [intervals] a pending timer made by [safeSetInterval].  Conversely every
    pending timer made by [safeSetTimeout] is one-shot and listed in
    [timeouts], and every one made by [safeSetInterval] is listed in
    [intervals], unless it is a handle that cannot be cancelled. *)
Theorem registries_exact (w : World) :
  reachable w ->
  NoDup (timeouts (script w)) /\ NoDup (intervals (script w)) /\
  (forall id, id ∈ timeouts (script w) ->
     exists t cb, t ∈ host_timers (host w) /\ t_id t = id /\ t_body t = TrackedTimeout cb) /\
  (forall id, id ∈ intervals (script w) ->
     exists t cb, t ∈ host_timers (host w) /\ t_id t = id /\ t_body t = TrackedInterval cb) /\
  (forall t cb, t ∈ host_timers (host w) -> t_body t = TrackedTimeout cb ->
     t_period t = None /\
     (t_id t ∈ timeouts (script w) \/ t_id t ∈ cancel_faults (host w))) /\
  (forall t cb, t ∈ host_timers (host w) -> t_body t = TrackedInterval cb ->
     is_Some (t_period t) /\
     (t_id t ∈ intervals (script w) \/ t_id t ∈ cancel_faults (host w))).
Proof.
  intros Hr.
  destruct (registry_reachable w Hr) as (_ & H1 & H2 & H3 & H4 & H5 & _).
  pose proof (tracked_reachable w Hr) as Ht.
  split; [exact H1|]. split; [exact H2|]. split; [exact H3|]. split; [exact H4|].
  split.
  - intros t cb Hin Eb. specialize (Ht t Hin). rewrite Eb in Ht. exact Ht.
  - intros t cb Hin Eb. split; [by eapply H5|].
    specialize (Ht t Hin). rewrite Eb in Ht. exact Ht.
Qed.

Lemma registries_exact_witness :
  let w := started ∅ in
  NoDup (timeouts (script w)) /\ NoDup (intervals (script w)) /\
  (forall id, id ∈ timeouts (script w) ->
     exists t cb, t ∈ host_timers (host w) /\ t_id t = id /\ t_body t = TrackedTimeout cb) /\
  (forall id, id ∈ intervals (script w) ->
     exists t cb, t ∈ host_timers (host w) /\ t_id t = id /\ t_body t = TrackedInterval cb) /\
  (forall t cb, t ∈ host_timers (host w) -> t_body t = TrackedTimeout cb ->
     t_period t = None /\
     (t_id t ∈ timeouts (script w) \/ t_id t ∈ cancel_faults (host w))) /\
  (forall t cb, t ∈ host_timers (host w) -> t_body t = TrackedInterval cb ->
     is_Some (t_period t) /\
     (t_id t ∈ intervals (script w) \/ t_id t ∈ cancel_faults (host w))).
Proof.
  apply (registries_exact (started ∅)).
  exists (host0 ∅), page0, [Advance 200; Fire 2; Io 0].
  split; [reflexivity|]. split; [reflexivity|]. split; [simpl; lia | reflexivity].
Defined.

Lemma remove_first_snoc_fresh (x : nat) (l : list nat) :
  x ∉ l -> remove_first x (l ++ [x]) = l.
Proof.
  intros H. induction l as [|y l IH]; cbn.
  - by rewrite decide_True.
  - rewrite decide_False by (intros ->; apply H; by left).
    f_equal. apply IH. intros Hin. apply H. by right.
Qed.

(** X14.  Setting a tracked timer and clearing it again leaves no trace
    but the id that was used up: [safeSetTimeout] followed by
    [clearSafeTimeout] of the id it returned, and likewise for intervals,
    restores the timer table and the registries.  When the cancellation
    throws, nothing is changed and nothing is thrown. *)
Theorem tracked_timer_roundtrip (cb : Thunk) (delay : Z) (w : World) :
  (forall t, t ∈ host_timers (host w) -> t_id t <> next_timer (host w)) ->
  next_timer (host w) ∉ timeouts (script w) ->
  next_timer (host w) ∉ intervals (script w) ->
  let n := next_timer (host w) in
  let w0 := on_host (set_next_timer (S n)) w in
  let o1 := safeSetTimeout cb delay w in
  let o2 := safeSetInterval cb delay w in
  value_of o1 = Some (Some n) /\ value_of o2 = Some (Some n) /\
  clearSafeTimeout n (world_of o1)
  = Done tt (if decide (n ∈ cancel_faults (host w)) then world_of o1 else w0) /\
  clearSafeInterval n (world_of o2)
  = Done tt (if decide (n ∈ cancel_faults (host w)) then world_of o2 else w0).
Proof.
  intros Hfresh Ht Hi n w0 o1 o2. subst o1 o2 w0.
  unfold safeSetTimeout, safeSetInterval, setTimeout, setInterval,
    clearSafeTimeout, clearSafeInterval, clearTimeout, clearInterval, clearTimer.
  mrun. split; [reflexivity|]. split; [reflexivity|]. fold n.
  destruct (decide (n ∈ cancel_faults (host w))); mrun; [done|].
  unfold on_host, on_script. wsimpl.
  set (t1 := mkTimer n (clock (host w) + delay) None (TrackedTimeout cb)).
  set (t2 := mkTimer n (clock (host w) + delay) (Some delay) (TrackedInterval cb)).
  rewrite (drop_timer_snoc_fresh t1), (drop_timer_snoc_fresh t2) by exact Hfresh.
  rewrite !remove_first_snoc_fresh by done.
  destruct w as [[] d [] g]. done.
Qed.

Lemma tracked_timer_roundtrip_witness :
  let cb := ClickRecheck in
  let delay := 500 in
  let w := started ∅ in
  let n := next_timer (host w) in
  let w0 := on_host (set_next_timer (S n)) w in
  let o1 := safeSetTimeout cb delay w in
  let o2 := safeSetInterval cb delay w in
  value_of o1 = Some (Some n) /\ value_of o2 = Some (Some n) /\
  clearSafeTimeout n (world_of o1)
  = Done tt (if decide (n ∈ cancel_faults (host w)) then world_of o1 else w0) /\
  clearSafeInterval n (world_of o2)
  = Done tt (if decide (n ∈ cancel_faults (host w)) then world_of o2 else w0).
Proof.
  apply (tracked_timer_roundtrip ClickRecheck 500 (started ∅)).
  - intros t Ht. apply (bool_decide_unpack _).
    revert t Ht. apply Forall_forall. vm_compute. repeat constructor.
  - apply (bool_decide_unpack _). vm_compute. exact I.
  - apply (bool_decide_unpack _). vm_compute. exact I.
Defined.

(** X15.  The two triggers of the teardown.  [beforeunload] tears down; a
    document error event tears down exactly when its error has a message
    that contains the invalidation signature, and is ignored otherwise. *)
Theorem teardown_triggers (w : World) (m : option string) :
  unload_listener (script w) = true ->
  error_listener (script w) = true ->
  step BeforeUnload w = torn_down w /\
  step (ErrorEvent m) w
  = (if from_option (includes transient) false m then torn_down w else w).
Proof.
  intros Hu He. cbn [step]. rewrite Hu, He. unfold error_listener_body.
  rewrite cleanupResources_eq.
  destruct (from_option (includes transient) false m); cbn [when];
    rewrite ?cleanupResources_eq; done.
Qed.

Lemma teardown_triggers_witness :
  let w := started ∅ in
  let m := Some "Uncaught Error: Extension context invalidated." in
  step BeforeUnload w = torn_down w /\
  step (ErrorEvent m) w
  = (if from_option (includes transient) false m then torn_down w else w).
Proof.
  apply (teardown_triggers (started ∅) (Some "Uncaught Error: Extension context invalidated."));
    vm_compute; reflexivity.
Defined.


(** ** Reads *)

(** X16.  A read is retried for the transient error only, and only while
    budget remains.  A read whose store call completes with any other error
    (or with an error without a message), or with no budget left, is not
    reported before it completes, and then invokes its callback exactly once
    with an empty result; no read is left in flight. *)
Theorem read_failure_reported_once (w : World) (keys : list string) (cb : GetCb)
    (retries : Z) (m : option string) (rest : list Fault) :
  available (chrome (host w)) = true ->
  get_faults (host w) = LastError m :: rest ->
  (retries <= 0)%Z \/ from_option (includes transient) false m = false ->
  let i := length (pending_io (host w)) in
  let w1 := settle (safeGet keys cb retries w) in
  let w2 := step (Io i) w1 in
  calls (ghost w1) = calls (ghost w) /\
  calls (ghost w2) = calls (ghost w) ++ [CallGet cb ∅] /\
  reads_in_flight w2 = reads_in_flight w.
Proof.
  intros Hav Hf Hcase i w1 w2.
  destruct (available_inv _ Hav) as (Hc1 & Hc2 & Hc3 & Hc4).
  assert (E1 : w1 = on_host (fun h =>
                 set_pending_io (pending_io h ++ [GetDone keys cb retries (Some m)]) h)
               (on_host (set_get_faults rest) w)).
  { subst w1. rewrite (safeGet_dispatch keys cb retries (LastError m) rest) by done.
    reflexivity. }
  clearbody w1. subst w1. split; [reflexivity|].
  subst w2 i. cbn [step]. erewrite complete_last by (wsimpl; reflexivity).
  set (w0 := on_host (set_pending_io (pending_io (host w))) _).
  assert (E : complete_io (GetDone keys cb retries (Some m)) w0 = invoke cb ∅ w0).
  { cbn [complete_io]. unfold complete_get, read_lastError. subst w0.
    repeat (progress (mrun; rewrite ?Hc1, ?Hc4)).
    replace ((0 <? retries)%Z && from_option (includes transient) false m) with false;
      [reflexivity|].
    symmetry. apply andb_false_iff. destruct Hcase as [H|H]; [left|right; done].
    apply Z.ltb_ge. lia. }
  rewrite E. rewrite invoke_calls_settle, invoke_rif. subst w0. split; [reflexivity|].
  unfold reads_in_flight. reflexivity.
Qed.

Lemma read_failure_reported_once_witness :
  let w := on_host (set_get_faults [LastError (Some "The browser is shutting down.")])
             (started ∅) in
  let keys := prefKeys in
  let cb := GetStateReply 8 in
  let retries := 1 in
  let i := length (pending_io (host w)) in
  let w1 := settle (safeGet keys cb retries w) in
  let w2 := step (Io i) w1 in
  calls (ghost w1) = calls (ghost w) /\
  calls (ghost w2) = calls (ghost w) ++ [CallGet cb ∅] /\
  reads_in_flight w2 = reads_in_flight w.
Proof.
  apply (read_failure_reported_once
           (on_host (set_get_faults [LastError (Some "The browser is shutting down.")])
              (started ∅))
           prefKeys (GetStateReply 8) 1 (Some "The browser is shutting down.") []).
  - vm_compute. reflexivity.
  - reflexivity.
  - right. vm_compute. reflexivity.
Defined.


(** ** The policy on the page *)

Lemma show_after_hide_feed (e : Element) :
  safeManipulateElement show_feed (safeManipulateElement hide_feed e)
  = safeManipulateElement show_feed e.
Proof.
  destruct e. unfold safeManipulateElement, show_feed, hide_feed, opt_apply. cbn.
  unfold with_attrs. cbn. f_equal. apply delete_insert_eq.
Qed.

Lemma policy_classes_off_on (l : list string) (c : string) :
  c ∈ policy_classes false (policy_classes true l) <-> c ∈ policy_classes false l.
Proof.
  unfold policy_classes.
  rewrite !elem_of_classList_remove, !elem_of_classList_add, !elem_of_classList_remove,
    !elem_of_classList_add.
  split; [intros (Hne & [->|(Hd & [->|Hin])]) | intros (Hne & [->|Hin])]; try done.
  - split; [done|]. by left.
  - split; [done|]. by right.
  - split; [done|]. by left.
  - split; [done|]. destruct (decide (c = "feed-blocker-disabled")) as [->|Hd]; [by left|].
    right. split; [done|]. by right.
Qed.

(** X17.  Unblocking after blocking gives the page that unblocking alone
    gives, whether the unblocking is done by [applyChanges false] or by the
    feed block of the observer's reconciliation pass: the same elements, the
    same placeholder, the same body and the same set of body classes. *)
Theorem unblock_after_block (d : Document) :
  let d0 := applyChanges false d in
  let d1 := applyChanges false (applyChanges true d) in
  let d2 := reconcile_feed false (applyChanges true d) in
  (body d1 = body d0 /\ readyState d1 = readyState d0 /\
   (forall c, c ∈ classList d1 <-> c ∈ classList d0) /\
   replacement d1 = replacement d0 /\ elems d1 = elems d0) /\
  (body d2 = body d0 /\ readyState d2 = readyState d0 /\
   (forall c, c ∈ classList d2 <-> c ∈ classList d0) /\
   replacement d2 = replacement d0 /\ elems d2 = elems d0).
Proof.
  cbn zeta.
  pose proof (applyChanges_fields false d) as (B0 & R0 & C0 & P0 & E0).
  pose proof (applyChanges_fields true d) as (Bt & Rt & Ct & Pt & Et).
  pose proof (applyChanges_fields false (applyChanges true d)) as (B1 & R1 & C1 & P1 & E1).
  pose proof (reconcile_feed_fields false (applyChanges true d)) as (B2 & R2 & C2 & P2 & E2).
  rewrite B0, R0, C0, P0, E0, B1, R1, C1, P1, E1, B2, R2, C2, P2, E2, Bt, Rt, Ct, Pt, Et.
  assert (He : forall e, policy_element false (policy_element true e) = policy_element false e).
  { intros e. unfold policy_element. destruct (matches_feed e) eqn:Em; [|by rewrite Em].
    rewrite (proj2 (manipulate_sel hide_feed e)), Em. apply show_after_hide_feed. }
  assert (Hp : forall e, pass_element false (policy_element true e) = policy_element false e).
  { intros e. unfold policy_element, pass_element.
    destruct (matches_feed e) eqn:Em; [|by rewrite Em].
    rewrite (proj2 (manipulate_sel hide_feed e)), Em, marked_hide_feed.
    apply show_after_hide_feed. }
  destruct (body d); [|repeat split; done].
  repeat split; try done; try apply policy_classes_off_on.
  - destruct (replacement d) as [r|]; [|done]. cbn. f_equal; try by destruct r.
  - rewrite map_map. apply map_ext, He.
  - destruct (replacement d) as [r|]; [|done]. cbn. f_equal; try by destruct r.
  - rewrite map_map. apply map_ext, Hp.
Qed.

Lemma show_feed_visible (e : Element) :
  display (safeManipulateElement show_feed e) = "" /\
  attrs (safeManipulateElement show_feed e) !! marker = None.
Proof. destruct e. split; [reflexivity | apply lookup_delete_eq]. Qed.

Lemma hidden_or_marked_false (e : Element) :
  bool_decide (display e = "none") || hasAttribute marker e = false <->
  display e <> "none" /\ attrs e !! marker = None.
Proof.
  rewrite orb_false_iff, bool_decide_eq_false. unfold hasAttribute.
  rewrite bool_decide_eq_false. split; intros [Hd Ha]; (split; [done|]).
  - destruct (attrs e !! marker) eqn:E; [|done]. destruct Ha. eauto.
  - rewrite Ha. by intros [? ?].
Qed.

(** X18.  After the visibility re-check no feed element is hidden: none has
    [display: none] and none carries the marker.  Elements that are not feed
    elements, and feed elements that were visible and unmarked, are left as
    they were; the body classes and the placeholder are not touched; and a
    second re-check changes nothing. *)
Theorem ensure_feed_visible_shows (d : Document) :
  let d' := ensure_feed_visible d in
  (forall e, e ∈ elems d' -> matches_feed e = true ->
     display e <> "none" /\ attrs e !! marker = None) /\
  (forall e, e ∈ elems d ->
     matches_feed e = false \/ (display e <> "none" /\ attrs e !! marker = None) ->
     e ∈ elems d') /\
  length (elems d') = length (elems d) /\
  body d' = body d /\ classList d' = classList d /\ replacement d' = replacement d /\
  ensure_feed_visible d' = d'.
Proof.
  cbn zeta. unfold ensure_feed_visible, for_matching. wsimpl.
  split; [|split; [|split; [|split; [|split; [|split]]]]]; try reflexivity.
  - intros e He Hm. apply list_elem_of_fmap in He as [e0 [-> Hin]].
    destruct (matches_feed e0) eqn:Em.
    + destruct (bool_decide (display e0 = "none") || hasAttribute marker e0) eqn:Eh.
      * destruct (show_feed_visible e0) as [Hd Ha]. rewrite Hd. done.
      * by apply hidden_or_marked_false.
    + rewrite Em in Hm. done.
  - intros e Hin Hc. apply list_elem_of_fmap. exists e. split; [|done].
    destruct Hc as [Hc|Hc]; [by rewrite Hc|].
    apply hidden_or_marked_false in Hc. rewrite Hc. by destruct (matches_feed e).
  - by rewrite length_map.
  - unfold set_elems. wsimpl. f_equal. rewrite map_map. apply map_ext. intros e.
    destruct (matches_feed e) eqn:Em; [|by rewrite Em].
    destruct (bool_decide (display e = "none") || hasAttribute marker e) eqn:Eh.
    + rewrite (proj2 (manipulate_sel show_feed e)), Em.
      destruct (show_feed_visible e) as [Hd Ha].
      rewrite (proj2 (hidden_or_marked_false _)); [done|]. by rewrite Hd.
    + by rewrite Em, Eh.
Qed.

(** X19.  A click schedules one tracked re-check 500 ms later and changes
    nothing else.  When the timer has fired and its read has completed, the
    page is as it was if feed blocking is enabled (or not stored), and every
    feed element has been made visible if it is stored as disabled; the
    timer is gone and no call is left pending. *)
Theorem click_recheck (w : World) (dt : Z) :
  click_listener (script w) = true ->
  available (chrome (host w)) = true ->
  (next_fault (get_faults (host w))).1 = NoFault ->
  (forall t, t ∈ host_timers (host w) -> t_id t <> next_timer (host w)) ->
  (500 <= dt)%Z ->
  let id := next_timer (host w) in
  let i := length (pending_io (host w)) in
  let w1 := step Click w in
  let w2 := run_events [Advance dt; Fire id; Io i] w1 in
  host_timers (host w1)
  = host_timers (host w)
    ++ [mkTimer id (clock (host w) + 500) None (TrackedTimeout ClickRecheck)] /\
  timeouts (script w1) = timeouts (script w) ++ [id] /\
  doc w1 = doc w /\
  doc w2 = (if pref "feedBlockerEnabled" (store (host w)) then doc w
            else ensure_feed_visible (doc w)) /\
  host_timers (host w2) = host_timers (host w) /\
  pending_io (host w2) = pending_io (host w).
Proof.
  intros Hcl Hav Hgf Hfresh Hdt id i w1 w2.
  destruct (available_inv _ Hav) as (Hc1 & Hc2 & Hc3 & Hc4).
  assert (E1 : w1 = on_script (fun s => set_timeouts (timeouts s ++ [id]) s)
                      (on_host (fun h => set_next_timer (S id)
                         (set_host_timers
                            (host_timers h
                             ++ [mkTimer id (clock h + 500) None (TrackedTimeout ClickRecheck)])
                            h)) w)).
  { subst w1 id. cbn [step]. rewrite Hcl.
    unfold clickHandler, isChromeAPIAvailable, safeSetTimeout, setTimeout.
    repeat (progress (mrun; rewrite ?Hav)). reflexivity. }
  clearbody w1. subst w1.
  split; [reflexivity|]. split; [reflexivity|]. split; [reflexivity|].
  set (tm := mkTimer id (clock (host w) + 500) None (TrackedTimeout ClickRecheck)).
  assert (Hfind : find_timer id (host_timers (host w) ++ [tm]) = Some tm)
    by apply (find_timer_snoc_fresh tm), Hfresh.
  assert (Hdrop : drop_timer id (host_timers (host w) ++ [tm]) = host_timers (host w))
    by apply (drop_timer_snoc_fresh tm), Hfresh.
  subst w2. unfold run_events. cbn [fold_left step]. unfold fire, on_host, on_script.
  wsimpl. fold tm. rewrite Hfind. cbn [t_due t_period t_body tm].
  replace (clock (host w) + 500 <=? clock (host w) + Z.max 0 dt)%Z with true
    by (symmetry; apply Z.leb_le; lia).
  wsimpl. fold tm. rewrite Hdrop.
  unfold fire_body, run_thunk, safeGet, storage_local_get, resolve_storage_local, enqueue_io.
  repeat (progress (mrun; rewrite ?Hc1, ?Hc2, ?Hc3)).
  destruct (next_fault (get_faults (host w))) as [f rest] eqn:Eg. cbn [fst snd] in *. subst f.
  mrun. subst i. unfold on_host. wsimpl.
  erewrite complete_last by (wsimpl; reflexivity).
  unfold complete_io, complete_get, read_lastError, invoke, run_getcb.
  repeat (progress (mrun; rewrite ?Hc1, ?Hc4)).
  rewrite pref_get_result by set_solver. unfold pref.
  destruct (default true (store (host w) !! "feedBlockerEnabled")); mrun; done.
Qed.

Lemma click_recheck_witness :
  let w := started {[ "feedBlockerEnabled" := false ]} in
  let dt := 500 in
  let id := next_timer (host w) in
  let i := length (pending_io (host w)) in
  let w1 := step Click w in
  let w2 := run_events [Advance dt; Fire id; Io i] w1 in
  host_timers (host w1)
  = host_timers (host w)
    ++ [mkTimer id (clock (host w) + 500) None (TrackedTimeout ClickRecheck)] /\
  timeouts (script w1) = timeouts (script w) ++ [id] /\
  doc w1 = doc w /\
  doc w2 = (if pref "feedBlockerEnabled" (store (host w)) then doc w
            else ensure_feed_visible (doc w)) /\
  host_timers (host w2) = host_timers (host w) /\
  pending_io (host w2) = pending_io (host w).
Proof.
  apply (click_recheck (started {[ "feedBlockerEnabled" := false ]}) 500).
  - vm_compute. reflexivity.
  - vm_compute. reflexivity.
  - vm_compute. reflexivity.
  - intros t Ht. apply (bool_decide_unpack _).
    revert t Ht. apply Forall_forall. vm_compute. repeat constructor.
  - lia.
Defined.

(** An invariant that speaks of the page holds as long as the page does not
    rewrite itself. *)
Section StepInvPage.
Context (I : World -> Prop).
Hypothesis I_uncaught : forall e w, I w -> I (on_ghost (log_uncaught e) w).
Hypothesis I_ready : forall rs w, I w -> I (on_doc (set_readyState rs) w).
Hypothesis I_clock : forall f w, I w -> I (on_host (fun h => set_clock (f h) h) w).
Hypothesis I_chrome : forall c w, I w -> I (on_host (set_chrome c) w).
Hypothesis I_dcl : forall w, I w -> I (on_script (set_dcl_once []) w).
Hypothesis I_load : forall w, I w -> I (on_script (set_load_once false) w).
Hypothesis I_fire : forall id w, I w -> I (fire id w).
Hypothesis I_complete : forall i w, I w -> I (complete i w).
Hypothesis I_observer_callback : forall obs, preserves I (observer_callback obs).
Hypothesis I_message_listener : forall r c, preserves I (message_listener r c).
Hypothesis I_clickHandler : preserves I clickHandler.
Hypothesis I_run_thunk : forall l, preserves I (run_thunk 0 l).
Hypothesis I_load_listener_body : preserves I load_listener_body.
Hypothesis I_cleanupResources : preserves I cleanupResources.
Hypothesis I_error_listener_body : forall m, preserves I (error_listener_body m).

Lemma step_inv_page (e : Event) (w : World) :
  is_page_change e = false -> I w -> I (step e w).
Proof.
  intros He H.
  destruct e as [dt|id|i|obs|request chan| | | | |message|c|d]; try discriminate; cbn [step].
  - by apply I_clock.
  - by apply I_fire.
  - by apply I_complete.
  - destruct (observer_objs (script w) !! obs) as [o|] eqn:Eo; [|exact H].
    destruct (connected o); [|exact H].
    apply preserves_settle; [done | apply I_observer_callback | exact H].
  - destruct (onMessage (script w)); [|exact H].
    apply preserves_settle; [done | apply I_message_listener | exact H].
  - destruct (click_listener (script w)); [|exact H].
    apply preserves_settle; [done | apply I_clickHandler | exact H].
  - generalize (dcl_once (script w)). intros ls.
    set (w1 := on_doc _ _).
    assert (H1 : I w1).
    { subst w1. destruct (readyState (doc w)) eqn:Er.
      - replace (on_doc _ _) with (on_doc (set_readyState Interactive) (on_script (set_dcl_once []) w)).
        + by apply I_ready, I_dcl.
        + unfold on_doc. wsimpl. by rewrite Er.
      - replace (on_doc _ _) with (on_script (set_dcl_once []) w); [by apply I_dcl|].
        unfold on_doc. wsimpl. by rewrite Er.
      - replace (on_doc _ _) with (on_script (set_dcl_once []) w); [by apply I_dcl|].
        unfold on_doc. wsimpl. by rewrite Er. }
    clearbody w1. revert w1 H1. induction ls as [|l ls IH]; intros w1 H1; [exact H1|].
    cbn [fold_left]. apply IH.
    apply preserves_settle; [done | apply I_run_thunk | exact H1].
  - set (w1 := on_doc _ w). assert (H1 : I w1) by (subst w1; by apply I_ready).
    clearbody w1. destruct (load_once _); [|exact H1].
    apply preserves_settle; [done | apply I_load_listener_body | by apply I_load].
  - destruct (unload_listener (script w)); [|exact H].
    apply preserves_settle; [done | apply I_cleanupResources | exact H].
  - destruct (error_listener (script w)); [|exact H].
    apply preserves_settle; [done | apply I_error_listener_body | exact H].
  - by apply I_chrome.
Qed.
End StepInvPage.

Lemma untouchable_policy (b : bool) (e : Element) : untouchable e -> policy_element b e = e.
Proof. intros [Hm _]. unfold policy_element. by rewrite Hm. Qed.

Lemma untouchable_pass (f n : bool) (e : Element) :
  untouchable e -> pass_element f (if n then news_element e else e) = e.
Proof.
  intros [Hm Hn].
  assert (Hnews : news_element e = e).
  { unfold news_element. destruct (sel_news e); [|done].
    destruct Hn as [Hn|Hn]; [done|]. by rewrite Hn. }
  destruct n; rewrite ?Hnews; unfold pass_element; by rewrite Hm.
Qed.

Lemma own_class_policy (b : bool) (c : string) (l : list string) :
  ~ own_class c -> c ∈ policy_classes b l <-> c ∈ l.
Proof.
  intros Hc. unfold policy_classes.
  destruct b; rewrite elem_of_classList_remove, elem_of_classList_add;
    (split; [intros (_ & [->|H]); [|done] | intros H; split; [intros ->|by right]]);
    destruct Hc; unfold own_class; tauto.
Qed.

Section PageFrame.
Context (i : nat) (oe : option Element) (c : string) (P : Prop) (bd : bool) (n : nat).
Hypothesis He : forall e, oe = Some e -> untouchable e.
Hypothesis Hc : ~ own_class c.

Lemma page_lookup (g : Element -> Element) (l : list Element) :
  (forall e, untouchable e -> g e = e) -> l !! i = oe -> map g l !! i = oe.
Proof.
  intros Hg Hl. rewrite list_lookup_fmap, Hl. destruct oe as [e|]; [|done].
  cbn. by rewrite Hg by (by apply He).
Qed.

Lemma page_applyChanges (b : bool) (w : World) :
  page_frame i oe c P bd n w -> page_frame i oe c P bd n (on_doc (applyChanges b) w).
Proof.
  intros (H1 & H2 & H3 & H4). unfold page_frame. wsimpl.
  pose proof (applyChanges_fields b (doc w)) as (B & _ & C & _ & E).
  rewrite B, C, E. destruct (body (doc w)); [|done].
  rewrite length_map, own_class_policy by done.
  split; [|done]. apply page_lookup; [|done]. intros e. apply untouchable_policy.
Qed.

Lemma page_reconcile (f m : bool) (w : World) :
  page_frame i oe c P bd n w -> page_frame i oe c P bd n (on_doc (reconcile f m) w).
Proof.
  intros (H1 & H2 & H3 & H4). unfold page_frame. wsimpl.
  pose proof (reconcile_fields f m (doc w)) as (B & _ & C & _ & E).
  rewrite B, C, E. destruct (body (doc w)); [|done].
  rewrite length_map, own_class_policy by done.
  split; [|split; [|done]].
  - apply page_lookup; [|done]. intros e. apply untouchable_pass.
  - destruct m; [|done]. rewrite elem_of_classList_add, <- H2.
    split; [intros [->|H]; [|done] | by right].
    destruct Hc. unfold own_class. tauto.
Qed.

Lemma page_ensure (w : World) :
  page_frame i oe c P bd n w -> page_frame i oe c P bd n (on_doc ensure_feed_visible w).
Proof.
  intros (H1 & H2 & H3 & H4). unfold page_frame, ensure_feed_visible, for_matching. wsimpl.
  rewrite length_map. split; [|done]. apply page_lookup; [|done].
  intros e [-> _]. done.
Qed.

Ltac page_leaf := idtac;
  first [ assumption
        | by apply page_applyChanges
        | by apply page_reconcile
        | by apply page_ensure
        | match goal with
          | H : page_frame _ _ _ _ _ _ ?w |- page_frame _ _ _ _ _ _ (on_doc _ ?w) =>
              destruct H as (? & ? & ? & ?); unfold page_frame; wsimpl;
              match goal with |- context [replacement ?d] => destruct (replacement d) end;
              done
          end ].

Lemma page_run_getcb cb r : preserves (page_frame i oe c P bd n) (run_getcb cb r).
Proof. pres_with page_leaf. Qed.
#[local] Hint Resolve page_run_getcb : pres.

Lemma page_safeGet keys cb r : preserves (page_frame i oe c P bd n) (safeGet keys cb r).
Proof. pres_with page_leaf. Qed.
#[local] Hint Resolve page_safeGet : pres.

Lemma page_run_thunk self t : preserves (page_frame i oe c P bd n) (run_thunk self t).
Proof. pres_with page_leaf. Qed.
#[local] Hint Resolve page_run_thunk : pres.

Lemma page_frame_step (ev : Event) (w : World) :
  is_page_change ev = false ->
  page_frame i oe c P bd n w -> page_frame i oe c P bd n (step ev w).
Proof.
  apply step_inv_page; try done; intros;
    first [ by (apply fire_inv; try done; intros; pres_with page_leaf)
          | by (apply complete_inv; try done; intros; pres_with page_leaf)
          | pres_with page_leaf ].
Qed.

Lemma page_frame_run_events (es : list Event) (w : World) :
  forallb (fun ev => negb (is_page_change ev)) es = true ->
  page_frame i oe c P bd n w -> page_frame i oe c P bd n (run_events es w).
Proof.
  revert w. induction es as [|ev es IH]; intros w Hes H; [exact H|].
  cbn in Hes. apply andb_true_iff in Hes as [Hev Hes]. apply negb_true_iff in Hev.
  cbn [run_events fold_left]. apply IH; [done|]. by apply page_frame_step.
Qed.

Lemma page_frame_boot (h : Host) (d : Document) :
  page_frame i oe c P bd n (mkWorld h d fresh_script (mkGhost [] [] [])) ->
  page_frame i oe c P bd n (boot h d).
Proof.
  intros H. unfold boot. apply preserves_settle; [done | pres_with page_leaf | exact H].
Qed.
End PageFrame.



(** X21.  The script manages three body classes and no other: as long as
    the page does not rewrite itself, a class other than
    [feed-blocker-active], [feed-blocker-disabled] and [news-blocker-active]
    is on the body exactly when it was there at the start. *)
Theorem script_leaves_other_classes (h : Host) (d : Document) (es : list Event) (c : string) :
  forallb (fun ev => negb (is_page_change ev)) es = true ->
  ~ own_class c ->
  c ∈ classList (doc (run_events es (boot h d))) <-> c ∈ classList d.
Proof.
  intros Hes Hc.
  destruct (page_frame_run_events (length (elems d)) None c (c ∈ classList d) (body d)
              (length (elems d)))
    with (es := es) (w := boot h d) as (_ & H2 & _); try done.
  apply page_frame_boot; try done. split; [|done]. cbn. apply lookup_ge_None_2. lia.
Qed.

Lemma script_leaves_other_classes_witness :
  let h := host0 ∅ in
  let d := mkDocument true Complete ["theme--dark"] None [feed_el; main_feed_el] in
  let es := [Advance 200; Fire 2; Io 0; Message (ToggleFeedBlocker false) 8] in
  let c := "theme--dark" in
  c ∈ classList (doc (run_events es (boot h d))) <-> c ∈ classList d.
Proof.
  apply (script_leaves_other_classes (host0 ∅)
           (mkDocument true Complete ["theme--dark"] None [feed_el; main_feed_el])
           [Advance 200; Fire 2; Io 0; Message (ToggleFeedBlocker false) 8]
           "theme--dark").
  - reflexivity.
  - intros [H | [H | H]]; discriminate H.
Defined.


(** ** Polling for the feed container *)

(** X22.  When the feed container is not on the page,
    [createReplacementContent] polls for it every 500 ms and schedules a
    tracked timer that stops the polling after 10 s: once that timer has
    fired, the polling interval is gone and forgotten, and the page has not
    been touched. *)
Theorem polling_gives_up (w : World) (dt : Z) :
  existsb sel_main_feed (elems (doc w)) = false ->
  timers_wf w ->
  next_timer (host w) ∉ cancel_faults (host w) ->
  (10000 <= dt)%Z ->
  let n := next_timer (host w) in
  let poll := mkTimer n (clock (host w) + 500) (Some 500) (TrackedInterval CreateReplacement) in
  let stop := mkTimer (S n) (clock (host w) + 10000) None (TrackedTimeout GiveUpReplacement) in
  let w1 := world_of (createReplacementContent w) in
  let w2 := step (Fire (S n)) (step (Advance dt) w1) in
  host_timers (host w1) = host_timers (host w) ++ [poll; stop] /\
  checkIntervalId (script w1) = Some n /\
  doc w1 = doc w /\
  host_timers (host w2) = host_timers (host w) /\
  checkIntervalId (script w2) = None /\
  doc w2 = doc w.
Proof.
  intros Hf (H0 & Hb & Hn) Hc Hdt n poll stop w1 w2.
  assert (E1 : w1 = on_script (fun s =>
                  set_timeouts (timeouts s ++ [S n])
                    (set_checkIntervalId (Some n) (set_intervals (intervals s ++ [n]) s)))
                (on_host (fun h => set_next_timer (S (S n))
                            (set_host_timers (host_timers h ++ [poll; stop]) h)) w)).
  { subst w1 poll stop n.
    unfold createReplacementContent, set_var_checkIntervalId, createReplacement,
      safeSetInterval, setInterval, safeSetTimeout, setTimeout.
    repeat (progress (mrun; rewrite ?Hf)).
    unfold on_script, on_host. wsimpl. rewrite <- app_assoc. reflexivity. }
  clearbody w1. subst w1.
  split; [reflexivity|]. split; [reflexivity|]. split; [reflexivity|].
  assert (Hfresh1 : forall t', t' ∈ host_timers (host w) -> t_id t' <> t_id poll).
  { intros t' Hin. apply Hb in Hin. cbn. lia. }
  assert (Hfresh2 : forall t', t' ∈ host_timers (host w) ++ [poll] -> t_id t' <> t_id stop).
  { intros t' Hin. apply elem_of_app in Hin as [Hin|Hin].
    - apply Hb in Hin. cbn. lia.
    - apply list_elem_of_singleton in Hin as ->. cbn. lia. }
  assert (Hfind : find_timer (S n) (host_timers (host w) ++ [poll; stop]) = Some stop).
  { change [poll; stop] with ([poll] ++ [stop]). rewrite app_assoc.
    apply (find_timer_snoc_fresh stop), Hfresh2. }
  assert (Hdrop2 : drop_timer (S n) (host_timers (host w) ++ [poll; stop])
                   = host_timers (host w) ++ [poll]).
  { change [poll; stop] with ([poll] ++ [stop]). rewrite app_assoc.
    apply (drop_timer_snoc_fresh stop), Hfresh2. }
  assert (Hdrop1 : drop_timer n (host_timers (host w) ++ [poll]) = host_timers (host w))
    by apply (drop_timer_snoc_fresh poll), Hfresh1.
  subst w2. cbn [step]. unfold fire, on_host, on_script. wsimpl.
  rewrite Hfind. cbn [t_due t_period t_body stop].
  replace (clock (host w) + 10000 <=? clock (host w) + Z.max 0 dt)%Z with true
    by (symmetry; apply Z.leb_le; lia).
  wsimpl. rewrite Hdrop2.
  unfold fire_body, run_thunk, clearSafeInterval, clearInterval, clearTimer,
    set_var_checkIntervalId.
  assert (Hpos : is_truthy (Some n) = true)
    by (subst n; destruct (next_timer (host w)); [lia|done]).
  mrun. rewrite Hpos. mrun.
  destruct (decide (n ∈ cancel_faults (host w))) as [Hin|_]; [by destruct Hc|].
  mrun. rewrite Hdrop1. done.
Qed.

Lemma polling_gives_up_witness :
  let w := boot (host0 ∅) (mkDocument true Complete [] None [feed_el]) in
  let dt := 10000 in
  let n := next_timer (host w) in
  let poll := mkTimer n (clock (host w) + 500) (Some 500) (TrackedInterval CreateReplacement) in
  let stop := mkTimer (S n) (clock (host w) + 10000) None (TrackedTimeout GiveUpReplacement) in
  let w1 := world_of (createReplacementContent w) in
  let w2 := step (Fire (S n)) (step (Advance dt) w1) in
  host_timers (host w1) = host_timers (host w) ++ [poll; stop] /\
  checkIntervalId (script w1) = Some n /\
  doc w1 = doc w /\
  host_timers (host w2) = host_timers (host w) /\
  checkIntervalId (script w2) = None /\
  doc w2 = doc w.
Proof.
  apply (polling_gives_up (boot (host0 ∅) (mkDocument true Complete [] None [feed_el])) 10000).
  - reflexivity.
  - apply timers_wf_reachable.
    exists (host0 ∅), (mkDocument true Complete [] None [feed_el]), [].
    split; [reflexivity|]. split; [reflexivity|]. split; [simpl; lia | reflexivity].
  - apply not_elem_of_nil.
  - lia.
Defined.

Lemma drop_timer_fresh (id : nat) (l : list Timer) :
  (forall t, t ∈ l -> t_id t <> id) -> drop_timer id l = l.
Proof.
  intros H. unfold drop_timer. induction l as [|x l IH]; [done|].
  rewrite filter_cons_True by (apply H; by left).
  f_equal. apply IH. intros t Hin. apply H. by right.
Qed.

Lemma find_timer_app_here (t : Timer) (l r : list Timer) :
  (forall t', t' ∈ l -> t_id t' <> t_id t) -> find_timer (t_id t) (l ++ t :: r) = Some t.
Proof.
  intros H. unfold find_timer. induction l as [|x l IH]; cbn.
  - by rewrite bool_decide_eq_true_2.
  - rewrite bool_decide_eq_false_2 by (apply H; by left).
    apply IH. intros t' Hin. apply H. by right.
Qed.

(** X23.  When the feed container appears, the next poll inserts the
    placeholder and stops the polling; the give-up timer is all that is left
    of it. *)
Theorem polling_finds_container (w : World) (d : Document) (dt : Z) :
  existsb sel_main_feed (elems (doc w)) = false ->
  timers_wf w ->
  next_timer (host w) ∉ cancel_faults (host w) ->
  available (chrome (host w)) = true ->
  existsb sel_main_feed (elems d) = true ->
  replacement d = None ->
  (500 <= dt)%Z ->
  let n := next_timer (host w) in
  let stop := mkTimer (S n) (clock (host w) + 10000) None (TrackedTimeout GiveUpReplacement) in
  let w1 := world_of (createReplacementContent w) in
  let w2 := step (Fire n) (step (Advance dt) (step (PageChange d) w1)) in
  (exists v, doc w2 = set_replacement (Some (with_display v new_replacement)) d) /\
  host_timers (host w2) = host_timers (host w) ++ [stop] /\
  checkIntervalId (script w2) = None.
Proof.
  intros Hf (H0 & Hb & Hn) Hc Hav Hd Hr Hdt n stop w1 w2.
  set (poll := mkTimer n (clock (host w) + 500) (Some 500) (TrackedInterval CreateReplacement)).
  assert (E1 : w1 = on_script (fun s =>
                  set_timeouts (timeouts s ++ [S n])
                    (set_checkIntervalId (Some n) (set_intervals (intervals s ++ [n]) s)))
                (on_host (fun h => set_next_timer (S (S n))
                            (set_host_timers (host_timers h ++ [poll; stop]) h)) w)).
  { subst w1 poll stop n.
    unfold createReplacementContent, set_var_checkIntervalId, createReplacement,
      safeSetInterval, setInterval, safeSetTimeout, setTimeout.
    repeat (progress (mrun; rewrite ?Hf)).
    unfold on_script, on_host. wsimpl. rewrite <- app_assoc. reflexivity. }
  clearbody w1. subst w1.
  assert (Hfresh1 : forall t', t' ∈ host_timers (host w) -> t_id t' <> t_id poll).
  { intros t' Hin. apply Hb in Hin. cbn. lia. }
  assert (Hfind : find_timer n (host_timers (host w) ++ [poll; stop]) = Some poll)
    by apply (find_timer_app_here poll), Hfresh1.
  assert (Hdrop : forall due,
            drop_timer n (reschedule n due (host_timers (host w) ++ [poll; stop]))
            = host_timers (host w) ++ [stop]).
  { intros due. rewrite drop_timer_reschedule. unfold drop_timer. rewrite filter_app.
    fold (drop_timer n (host_timers (host w))). rewrite drop_timer_fresh by exact Hfresh1.
    f_equal. rewrite filter_cons_False by (cbn; intros H; by apply H).
    rewrite filter_cons_True by (cbn; lia). done. }
  assert (Hpos : is_truthy (Some n) = true)
    by (subst n; destruct (next_timer (host w)); [lia|done]).
  subst w2. cbn [step]. unfold fire, on_host, on_script, on_doc. wsimpl.
  rewrite Hfind. cbn [t_due t_period t_body poll].
  replace (clock (host w) + 500 <=? clock (host w) + Z.max 0 dt)%Z with true
    by (symmetry; apply Z.leb_le; lia).
  wsimpl.
  unfold fire_body, run_thunk, createReplacement, isChromeAPIAvailable,
    clearSafeInterval, clearInterval, clearTimer, set_var_checkIntervalId.
  repeat (progress (mrun; rewrite ?Hav, ?Hd, ?Hpos, ?Hr)).
  destruct (decide (n ∈ cancel_faults (host w))) as [Hin|_]; [by destruct Hc|].
  repeat (progress (mrun; rewrite ?Hav, ?Hd, ?Hpos, ?Hr, ?Hdrop)).
  unfold safeGet. mrun. rewrite storage_local_get_cases by (wsimpl; exact Hav).
  cbn zeta. wsimpl.
  destruct (next_fault (get_faults (host w))) as [f rest]. cbn [fst snd].
  destruct f as [|msg|msg]; mrun; unfold invoke, run_getcb; mrun;
    (split; [eexists; reflexivity|]); done.
Qed.

Lemma polling_finds_container_witness :
  let w := boot (host0 ∅) (mkDocument true Complete [] None [feed_el]) in
  let d := page0 in
  let dt := 500 in
  let n := next_timer (host w) in
  let stop := mkTimer (S n) (clock (host w) + 10000) None (TrackedTimeout GiveUpReplacement) in
  let w1 := world_of (createReplacementContent w) in
  let w2 := step (Fire n) (step (Advance dt) (step (PageChange d) w1)) in
  (exists v, doc w2 = set_replacement (Some (with_display v new_replacement)) d) /\
  host_timers (host w2) = host_timers (host w) ++ [stop] /\
  checkIntervalId (script w2) = None.
Proof.
  apply (polling_finds_container (boot (host0 ∅) (mkDocument true Complete [] None [feed_el]))
           page0 500).
  - reflexivity.
  - apply timers_wf_reachable.
    exists (host0 ∅), (mkDocument true Complete [] None [feed_el]), [].
    split; [reflexivity|]. split; [reflexivity|]. split; [simpl; lia | reflexivity].
  - apply not_elem_of_nil.
  - reflexivity.
  - reflexivity.
  - reflexivity.
  - lia.
Defined.

(** * Properties of the popup *)

Ltac psimpl :=
  cbn [Popup.api Popup.items Popup.pending Popup.page Popup.toggleCheckbox Popup.statusText
       Popup.change_listener Popup.escaped Popup.set_items Popup.set_pending Popup.set_page
       Popup.set_vars Popup.set_change_listener Popup.log_escaped Popup.toggle_el
       Popup.status_el Popup.api_tabs Popup.api_storage Popup.api_runtime Popup.full_api
       Popup.state_of Popup.land Popup.take Popup.opened Popup.running
       negb andb orb fst snd] in *.

Ltac prun :=
  cbv beta delta [Popup.pbind Popup.pret Popup.pthrow Popup.pcatch Popup.pgets Popup.pmodify
                  Popup.enqueue Popup.lastError Popup.take Popup.set_items Popup.set_pending
                  Popup.set_page Popup.set_vars Popup.set_change_listener] in *;
  psimpl.

Ltac refold :=
  repeat match goal with
    | |- context [Popup.mkState Popup.full_api ?st ?p (Popup.mkPage (Some ?c) (Some ?stt))
                    true true true ?esc] =>
        change (Popup.mkState Popup.full_api st p (Popup.mkPage (Some c) (Some stt))
                  true true true esc)
          with (Popup.running st p c stt esc)
    end.

Lemma popup_ready_running (s : Popup.PState) :
  Popup.ready s -> exists st c stt esc, s = Popup.running st [] c stt esc.
Proof.
  intros (Ha & Hp & [c Ht] & [stt Hs] & Hv1 & Hv2 & Hl).
  destruct s as [a st p [t sl] v1 v2 l esc]. cbn in *. subst. eauto.
Qed.

Lemma popup_status (b : bool) :
  Popup.mkStatus (if b then "Feed blocker is enabled" else "Feed blocker is disabled")
                 ("status " +:+ (if b then "enabled" else "disabled"))
  = Popup.status_of b.
Proof. by destruct b. Qed.

(** Showing a choice: the checkbox, then the status line. *)
Lemma popup_show (b : bool) st p c stt esc :
  Popup.pbind (Popup.write_checked b) (fun _ => Popup.updateStatusText b)
    (Popup.running st p c stt esc)
  = Popup.Fin tt (Popup.running st p b (Popup.status_of b) esc).
Proof.
  unfold Popup.write_checked, Popup.updateStatusText. prun. by rewrite popup_status.
Qed.

Lemma popup_run_getk (r : gmap string bool) st p c stt esc :
  Popup.run_getk Popup.Fallback r (Popup.running st p c stt esc)
  = Popup.Fin tt (Popup.running st p (pref "feedBlockerEnabled" r)
                    (Popup.status_of (pref "feedBlockerEnabled" r)) esc).
Proof.
  unfold Popup.run_getk, Popup.write_checked, Popup.updateStatusText. prun.
  by rewrite popup_status.
Qed.

(** The fallback read and its completion. *)
Lemma popup_fallback st c stt esc :
  Popup.fallbackToStorageState (Popup.running st [] c stt esc)
  = Popup.Fin tt (Popup.running st [Popup.StorageGet ["feedBlockerEnabled"] Popup.Fallback]
                    c stt esc).
Proof. reflexivity. Qed.

Lemma popup_read_done st c stt esc (failed : bool) :
  Popup.step (Popup.ReadDone 0 failed)
    (Popup.running st [Popup.StorageGet ["feedBlockerEnabled"] Popup.Fallback] c stt esc)
  = Popup.running st [] (Popup.stored_choice failed st)
      (Popup.status_of (Popup.stored_choice failed st)) esc.
Proof.
  unfold Popup.step. psimpl. cbn [lookup list_lookup].
  unfold Popup.get_completion. prun. cbn [delete list_delete]. refold.
  destruct failed; rewrite popup_run_getk; cbn [Popup.land Popup.stored_choice].
  - unfold pref. by rewrite lookup_empty.
  - by rewrite pref_get_result by set_solver.
Qed.

Lemma popup_falls_back st c stt esc :
  Popup.falls_back
    (Popup.running st [Popup.StorageGet ["feedBlockerEnabled"] Popup.Fallback] c stt esc).
Proof.
  split; [reflexivity|]. intros failed. rewrite popup_read_done. done.
Qed.

Lemma popup_loaded st c stt :
  Popup.step Popup.Loaded (Popup.opened Popup.full_api st (Popup.mkPage (Some c) (Some stt)))
  = Popup.running st [Popup.TabsQuery Popup.AfterOpen] c stt [].
Proof. reflexivity. Qed.

(** The completion of the popup's tab query, when it is the one call pending. *)
Lemma popup_tabs_done (k : Popup.TabsK) tabs st c stt esc :
  Popup.step (Popup.TabsDone 0 tabs) (Popup.running st [Popup.TabsQuery k] c stt esc)
  = Popup.land (Popup.run_tabsk k (default [] tabs) (Popup.running st [] c stt esc)).
Proof.
  unfold Popup.step. psimpl. cbn [lookup list_lookup].
  unfold Popup.tabs_completion. prun. cbn [delete list_delete]. destruct tabs; reflexivity.
Qed.

Lemma popup_no_target tabs :
  Popup.target tabs = None ->
  Popup.run_tabsk Popup.AfterOpen (default [] tabs) = Popup.fallbackToStorageState.
Proof.
  destruct tabs as [[|tab l]|]; cbn; try done. by destruct (Popup.isLinkedInPage tab).
Qed.

Lemma popup_user_toggle (b : bool) st c stt esc :
  Popup.step (Popup.UserToggle b) (Popup.running st [] c stt esc)
  = Popup.running st [Popup.StorageSet {[ "feedBlockerEnabled" := b ]} None;
                      Popup.TabsQuery (Popup.AfterToggle b)] b (Popup.status_of b) esc.
Proof.
  unfold Popup.step. psimpl.
  unfold Popup.handleFeedToggle, Popup.read_checked, Popup.updateStatusText,
    Popup.safeStorageSet, Popup.safeTabsQuery.
  prun. cbn [app]. by rewrite popup_status.
Qed.

Lemma popup_write_done (data : gmap string bool) (failed : bool) p st c stt esc :
  Popup.step (Popup.WriteDone 0 failed) (Popup.running st (Popup.StorageSet data None :: p) c stt esc)
  = Popup.running (if failed then st else data ∪ st) p c stt esc.
Proof.
  unfold Popup.step. psimpl. cbn [lookup list_lookup].
  unfold Popup.set_completion. prun. cbn [delete list_delete]. by destruct failed.
Qed.

(** X24.  What the popup shows when it opens.  It registers its change
    listener and asks for the active tab.  When that tab is a LinkedIn page
    it asks the content script, and shows the [enabled] value of the answer.
    In every other case (the tab query failed, no tab, another site, the
    message failed, no answer, an answer without [enabled]) it falls back to
    the store: one read, after which it shows the stored choice, or
    [enabled] when nothing is stored or the read failed. *)
Theorem popup_open_shows_state (st : gmap string bool) (c : bool) (stt : Popup.Status)
    (tabs : option (list Popup.Tab)) (reply : option (option Response)) :
  let s0 := Popup.step Popup.Loaded
              (Popup.opened Popup.full_api st (Popup.mkPage (Some c) (Some stt))) in
  let s1 := Popup.step (Popup.TabsDone 0 tabs) s0 in
  let s2 := Popup.step (Popup.MessageDone 0 reply) s1 in
  (Popup.pending s0 = [Popup.TabsQuery Popup.AfterOpen] /\ Popup.change_listener s0 = true) /\
  match Popup.target tabs with
  | None => Popup.falls_back s1 /\ Popup.items s1 = st
  | Some tab =>
      Popup.pending s1
      = [Popup.SendMessage (Popup.tab_id tab) GetState (Some Popup.StateReply)] /\
      match reply with
      | Some (Some (State enabled _)) => Popup.shows enabled s2 /\ Popup.pending s2 = []
      | _ => Popup.falls_back s2 /\ Popup.items s2 = st
      end
  end.
Proof.
  cbn zeta. rewrite popup_loaded. split; [done|]. rewrite popup_tabs_done.
  destruct (Popup.target tabs) as [tab|] eqn:Et.
  - destruct tabs as [[|tab' l]|]; try discriminate. cbn in Et.
    cbn [default from_option id Popup.run_tabsk].
    destruct (Popup.isLinkedInPage tab'); [|discriminate]. injection Et as ->.
    unfold Popup.safeSendMessage. prun. cbn [app]. split; [reflexivity|].
    unfold Popup.step. psimpl. cbn [lookup list_lookup].
    unfold Popup.message_completion. prun. cbn [delete list_delete]. refold.
    destruct reply as [[[|enabled news]|]|];
      rewrite ?bool_decide_eq_true_2, ?bool_decide_eq_false_2 by done;
      cbn [Popup.run_msgk mjoin option_join option_bind mbind];
      rewrite ?popup_fallback, ?popup_show; cbn [Popup.land];
      try (split; [apply popup_falls_back | reflexivity]).
    done.
  - rewrite popup_no_target, popup_fallback by done. cbn [Popup.land].
    split; [apply popup_falls_back | reflexivity].
Qed.

(** X25.  Flipping the checkbox to [b] in a popup at rest.  The status line
    shows [b] at once; the write of [feedBlockerEnabled = b] and the tab
    query are handed to the host.  The write, when it does not fail, stores
    [b].  The tab query sends [toggleFeedBlocker b] to the active tab when
    that tab is a LinkedIn page, and sends nothing otherwise.  Whatever comes
    back, the popup keeps showing [b], nothing stays pending and nothing
    throws. *)
Theorem popup_toggle (s : Popup.PState) (b failed : bool) (tabs : option (list Popup.Tab))
    (reply : option (option Response)) :
  Popup.ready s ->
  let s1 := Popup.step (Popup.UserToggle b) s in
  let s2 := Popup.step (Popup.WriteDone 0 failed) s1 in
  let s3 := Popup.step (Popup.TabsDone 0 tabs) s2 in
  let s4 := Popup.step (Popup.MessageDone 0 reply) s3 in
  (Popup.shows b s1 /\ Popup.items s1 = Popup.items s /\
   Popup.pending s1
   = [Popup.StorageSet {[ "feedBlockerEnabled" := b ]} None;
      Popup.TabsQuery (Popup.AfterToggle b)]) /\
  (Popup.items s2
   = (if failed then Popup.items s else <["feedBlockerEnabled" := b]> (Popup.items s)) /\
   Popup.pending s2 = [Popup.TabsQuery (Popup.AfterToggle b)]) /\
  Popup.pending s3
  = match Popup.target tabs with
    | Some tab => [Popup.SendMessage (Popup.tab_id tab) (ToggleFeedBlocker b) None]
    | None => []
    end /\
  (Popup.shows b s4 /\ Popup.pending s4 = [] /\ Popup.items s4 = Popup.items s2 /\
   Popup.escaped s4 = Popup.escaped s).
Proof.
  intros Hr. destruct (popup_ready_running s Hr) as (st & c & stt & esc & ->). cbn zeta.
  rewrite popup_user_toggle. split; [done|].
  rewrite popup_write_done. rewrite <- insert_union_singleton_l.
  split; [done|]. rewrite popup_tabs_done.
  assert (E3 : Popup.land
                 (Popup.run_tabsk (Popup.AfterToggle b) (default [] tabs)
                    (Popup.running (if failed then st else <["feedBlockerEnabled" := b]> st) []
                       b (Popup.status_of b) esc))
               = Popup.running (if failed then st else <["feedBlockerEnabled" := b]> st)
                   (match Popup.target tabs with
                    | Some tab =>
                        [Popup.SendMessage (Popup.tab_id tab) (ToggleFeedBlocker b) None]
                    | None => []
                    end) b (Popup.status_of b) esc).
  { destruct tabs as [[|tab l]|]; cbn [Popup.target default from_option id Popup.run_tabsk];
      try reflexivity.
    destruct (Popup.isLinkedInPage tab); reflexivity. }
  rewrite E3. clear E3. split; [done|].
  unfold Popup.step. psimpl.
  destruct (Popup.target tabs) as [tab|]; cbn [lookup list_lookup]; [|done].
  unfold Popup.message_completion. prun. cbn [delete list_delete]. done.
Qed.

Lemma popup_toggle_witness :
  let s := Popup.running ∅ [] true (Popup.status_of true) [] in
  let b := false in
  let failed := false in
  let tabs := Some [Popup.mkTab 7 (Some "https://www.linkedin.com/feed/")] in
  let reply := Some (Some Success) in
  let s1 := Popup.step (Popup.UserToggle b) s in
  let s2 := Popup.step (Popup.WriteDone 0 failed) s1 in
  let s3 := Popup.step (Popup.TabsDone 0 tabs) s2 in
  let s4 := Popup.step (Popup.MessageDone 0 reply) s3 in
  (Popup.shows b s1 /\ Popup.items s1 = Popup.items s /\
   Popup.pending s1
   = [Popup.StorageSet {[ "feedBlockerEnabled" := b ]} None;
      Popup.TabsQuery (Popup.AfterToggle b)]) /\
  (Popup.items s2
   = (if failed then Popup.items s else <["feedBlockerEnabled" := b]> (Popup.items s)) /\
   Popup.pending s2 = [Popup.TabsQuery (Popup.AfterToggle b)]) /\
  Popup.pending s3
  = match Popup.target tabs with
    | Some tab => [Popup.SendMessage (Popup.tab_id tab) (ToggleFeedBlocker b) None]
    | None => []
    end /\
  (Popup.shows b s4 /\ Popup.pending s4 = [] /\ Popup.items s4 = Popup.items s2 /\
   Popup.escaped s4 = Popup.escaped s).
Proof.
  apply (popup_toggle (Popup.running ∅ [] true (Popup.status_of true) []) false false
           (Some [Popup.mkTab 7 (Some "https://www.linkedin.com/feed/")])
           (Some (Some Success))).
  repeat split; by eexists.
Defined.

(** X26.  The choice survives closing the popup: after the checkbox has been
    flipped to [b] and the write has completed, a popup opened away from
    LinkedIn shows [b]. *)
Theorem popup_choice_survives_reopen (s : Popup.PState) (b c : bool) (stt : Popup.Status)
    (tabs : option (list Popup.Tab)) :
  Popup.ready s ->
  Popup.target tabs = None ->
  let s' := Popup.run_events [Popup.UserToggle b; Popup.WriteDone 0 false] s in
  let fresh := Popup.opened Popup.full_api (Popup.items s')
                 (Popup.mkPage (Some c) (Some stt)) in
  Popup.shows b
    (Popup.run_events [Popup.Loaded; Popup.TabsDone 0 tabs; Popup.ReadDone 0 false] fresh).
Proof.
  intros Hr Ht. destruct (popup_ready_running s Hr) as (st & c0 & stt0 & esc & ->). cbn zeta.
  unfold Popup.run_events. cbn [fold_left].
  rewrite popup_user_toggle, popup_write_done. psimpl.
  rewrite popup_loaded, popup_tabs_done, popup_no_target, popup_fallback by done.
  cbn [Popup.land]. rewrite popup_read_done.
  unfold Popup.stored_choice, pref. rewrite lookup_union_l' by (by rewrite lookup_singleton_eq).
  rewrite lookup_singleton_eq. done.
Qed.

Lemma popup_choice_survives_reopen_witness :
  let s := Popup.running ∅ [] true (Popup.status_of true) [] in
  let b := false in
  let tabs := Some [Popup.mkTab 7 (Some "https://example.org/")] in
  let s' := Popup.run_events [Popup.UserToggle b; Popup.WriteDone 0 false] s in
  let fresh := Popup.opened Popup.full_api (Popup.items s') Popup.popup_html in
  Popup.shows b
    (Popup.run_events [Popup.Loaded; Popup.TabsDone 0 tabs; Popup.ReadDone 0 false] fresh).
Proof.
  apply (popup_choice_survives_reopen (Popup.running ∅ [] true (Popup.status_of true) [])
           false false (Popup.mkStatus "" "")
           (Some [Popup.mkTab 7 (Some "https://example.org/")])).
  - repeat split; by eexists.
  - vm_compute. reflexivity.
Defined.


(** The answer of the content script to a state query, for any store. *)
Lemma getState_reply (w : World) (chan : nat) :
  available (chrome (host w)) = true ->
  onMessage (script w) = true ->
  (next_fault (get_faults (host w))).1 = NoFault ->
  responses (ghost (step (Io (length (pending_io (host w)))) (step (Message GetState chan) w)))
  = responses (ghost w)
    ++ [(chan, State (pref "feedBlockerEnabled" (store (host w)))
                     (pref "newsBlockerEnabled" (store (host w))))].
Proof.
  intros Hav Hon Hf.
  destruct (available_inv _ Hav) as (Hc1 & Hc2 & Hc3 & Hc4).
  cbn [step]. rewrite Hon.
  unfold message_listener, isChromeAPIAvailable, safeGet.
  repeat (progress (mrun; rewrite ?Hav)).
  rewrite storage_local_get_cases by exact Hav. cbn zeta.
  destruct (next_fault (get_faults (host w))) as [f rest]. cbn [fst snd] in *. subst f.
  mrun. erewrite complete_last by (wsimpl; reflexivity).
  unfold complete_io, complete_get, read_lastError, invoke, run_getcb, sendResponse.
  cbn [err_of]. repeat (progress (mrun; rewrite ?Hc1, ?Hc4)).
  rewrite !pref_get_result by (unfold prefKeys; set_solver). reflexivity.
Qed.

(** X27.  On a LinkedIn tab the popup shows what the content script reads
    from the store: the answer of the content script to the popup's
    [getState] makes the popup show the stored choice, or [enabled] when
    none is stored, which is also what the fallback would show. *)
Theorem popup_shows_what_the_page_reads (w : World) (chan : nat) (tab : Popup.Tab)
    (l : list Popup.Tab) (c : bool) (stt : Popup.Status) :
  available (chrome (host w)) = true ->
  onMessage (script w) = true ->
  (next_fault (get_faults (host w))).1 = NoFault ->
  Popup.isLinkedInPage tab = true ->
  let w' := step (Io (length (pending_io (host w)))) (step (Message GetState chan) w) in
  exists r,
    responses (ghost w') = responses (ghost w) ++ [(chan, r)] /\
    Popup.shows (pref "feedBlockerEnabled" (store (host w)))
      (Popup.run_events
         [Popup.Loaded; Popup.TabsDone 0 (Some (tab :: l)); Popup.MessageDone 0 (Some (Some r))]
         (Popup.opened Popup.full_api (store (host w)) (Popup.mkPage (Some c) (Some stt)))).
Proof.
  intros Hav Hon Hf Ht. cbn zeta. eexists. split; [by apply getState_reply|].
  unfold Popup.run_events. cbn [fold_left].
  rewrite popup_loaded, popup_tabs_done. cbn [default from_option id Popup.run_tabsk].
  rewrite Ht. unfold Popup.safeSendMessage. prun. cbn [app].
  unfold Popup.step. psimpl. cbn [lookup list_lookup].
  unfold Popup.message_completion. prun. cbn [delete list_delete]. refold.
  rewrite bool_decide_eq_false_2 by done.
  cbn [Popup.run_msgk mjoin option_join option_bind mbind]. rewrite popup_show. done.
Qed.

Lemma popup_shows_what_the_page_reads_witness :
  let w := started {[ "feedBlockerEnabled" := false ]} in
  let chan := 8%nat in
  let tab := Popup.mkTab 7 (Some "https://www.linkedin.com/feed/") in
  let w' := step (Io (length (pending_io (host w)))) (step (Message GetState chan) w) in
  exists r,
    responses (ghost w') = responses (ghost w) ++ [(chan, r)] /\
    Popup.shows (pref "feedBlockerEnabled" (store (host w)))
      (Popup.run_events
         [Popup.Loaded; Popup.TabsDone 0 (Some [tab]); Popup.MessageDone 0 (Some (Some r))]
         (Popup.opened Popup.full_api (store (host w)) Popup.popup_html)).
Proof.
  apply (popup_shows_what_the_page_reads (started {[ "feedBlockerEnabled" := false ]}) 8
           (Popup.mkTab 7 (Some "https://www.linkedin.com/feed/")) [] false
           (Popup.mkStatus "" ""));
    vm_compute; reflexivity.
Defined.

Lemma updateBlockerState_no_throw (b : bool) (w : World) :
  threw (updateBlockerState b w) = None.
Proof.
  unfold updateBlockerState.
  apply bind_no_throw; [done | intros ok w1]. destruct ok; cbn [negb]; [|done].
  apply bind_no_throw; [apply safeSet_never_throws | intros _ w2].
  apply bind_no_throw; [done | intros hb w3].
  apply bind_no_throw; [by destruct hb | intros _ w4].
  apply bind_no_throw; [apply try_catch_ret_no_throw | intros _ w5].
  apply bind_no_throw; [done | intros rs w6]. by destruct rs.
Qed.

Lemma updateBlockerState_ghost (g : Ghost) (b : bool) :
  preserves (fun w => ghost w = g) (updateBlockerState b).
Proof. pres_with assumption. Qed.

(** X28.  From the checkbox to the page.  Flipping the checkbox to [b] on a
    LinkedIn tab stores [b] and sends one message; delivered to the content
    script, that message makes it apply the policy [b] to the page and
    acknowledge. *)
Theorem toggle_reaches_the_page (s : Popup.PState) (w : World) (b : bool) (tab : Popup.Tab)
    (l : list Popup.Tab) (chan : nat) :
  Popup.ready s ->
  Popup.isLinkedInPage tab = true ->
  available (chrome (host w)) = true ->
  onMessage (script w) = true ->
  let s' := Popup.run_events
              [Popup.UserToggle b; Popup.WriteDone 0 false; Popup.TabsDone 0 (Some (tab :: l))]
              s in
  exists message,
    Popup.pending s' = [Popup.SendMessage (Popup.tab_id tab) message None] /\
    Popup.items s' !! "feedBlockerEnabled" = Some b /\
    Popup.shows b s' /\
    let w' := step (Message message chan) w in
    doc w' = applyChanges b (doc w) /\
    responses (ghost w') = responses (ghost w) ++ [(chan, Success)].
Proof.
  intros Hr Ht Hav Hon.
  destruct (popup_ready_running s Hr) as (st & c & stt & esc & ->). cbn zeta.
  unfold Popup.run_events. cbn [fold_left].
  rewrite popup_user_toggle, popup_write_done, popup_tabs_done.
  cbn [default from_option id Popup.run_tabsk]. rewrite Ht.
  unfold Popup.safeSendMessage. prun. cbn [app].
  eexists. split; [reflexivity|].
  split; [by rewrite lookup_union_l' by (by rewrite lookup_singleton_eq);
            rewrite lookup_singleton_eq|].
  split; [done|].
  cbn [step]. rewrite Hon. unfold message_listener, isChromeAPIAvailable, sendResponse.
  mrun. rewrite Hav. mrun.
  pose proof (updateBlockerState_doc b w) as Hd. rewrite Hav in Hd.
  pose proof (updateBlockerState_no_throw b w) as Hn.
  assert (Hg : ghost (world_of (updateBlockerState b w)) = ghost w).
  { apply (updateBlockerState_ghost (ghost w) b w). reflexivity. }
  destruct (updateBlockerState b w) as [u w1|e w1]; [|discriminate]. cbn in Hd, Hg.
  mrun. rewrite Hd, Hg. done.
Qed.

Lemma toggle_reaches_the_page_witness :
  let s := Popup.running ∅ [] true (Popup.status_of true) [] in
  let w := started ∅ in
  let b := false in
  let tab := Popup.mkTab 7 (Some "https://www.linkedin.com/feed/") in
  let chan := 8%nat in
  let s' := Popup.run_events
              [Popup.UserToggle b; Popup.WriteDone 0 false; Popup.TabsDone 0 (Some [tab])]
              s in
  exists message,
    Popup.pending s' = [Popup.SendMessage (Popup.tab_id tab) message None] /\
    Popup.items s' !! "feedBlockerEnabled" = Some b /\
    Popup.shows b s' /\
    let w' := step (Message message chan) w in
    doc w' = applyChanges b (doc w) /\
    responses (ghost w') = responses (ghost w) ++ [(chan, Success)].
Proof.
  apply (toggle_reaches_the_page (Popup.running ∅ [] true (Popup.status_of true) [])
           (started ∅) false (Popup.mkTab 7 (Some "https://www.linkedin.com/feed/")) [] 8).
  - repeat split; by eexists.
  - vm_compute. reflexivity.
  - vm_compute. reflexivity.
  - vm_compute. reflexivity.
Defined.

